(** * gp_inventory: the SQL-like query language (src/sql)

    A shallow embedding of [src/sql/parser.js] (lexer and recursive-descent
    parser) and [src/sql/query-engine.js] (the in-memory evaluator), with
    the properties of the specification stated over it.

    Layout:
    - [JS]         the JavaScript values and built-ins the two files call;
    - [Host]       what ECMAScript leaves to the JavaScript engine:
                   collation, the regular-expression engine and the
                   number of arguments of a call;
    - [Lexer], [Parser]   src/sql/parser.js;
    - [Engine]            src/sql/query-engine.js, what its functions
                          return;
    - [Exceptions]        src/sql/query-engine.js, with the calls that
                          throw instead of returning;
    - [App]        the callers in src/standalone/app.js;
    - [Reference]  an instance of [Host] to evaluate examples on;
    - [Notions], [Terms]  the notions the statements use, and the example
                   data;
    - the theorems, component by component. *)

From Stdlib Require Import ZArith QArith String Ascii List Lia DecimalString.
From Stdlib Require Import Permutation Sorted Lqa.
From stdpp Require Import gmap strings list.
Import ListNotations.

#[local] Open Scope string_scope.
#[local] Open Scope list_scope.
#[local] Open Scope nat_scope.

(* ===================================================================== *)
(** * Exceptions *)
(* ===================================================================== *)

(** A JavaScript computation either completes with a value or throws.
    [Error] is [new Error(msg)] as thrown by the parser; [SyntaxError] is
    what [new RegExp(src)] throws on a malformed pattern; [RangeError] is
    what a call throws when it is handed more arguments than the engine
    takes; [TypeError] is what calling a property that is no function
    throws. *)
Inductive exn : Type :=
| Error (msg : string)
| SyntaxError (msg : string)
| RangeError (msg : string)
| TypeError (msg : string).

(** [Timeout] is not an outcome of the program: it is the answer of a
    definition that recurses on a step budget when the budget is spent.
    A loop that spends every budget does not terminate. *)
Inductive result (A : Type) : Type :=
| Ok (a : A)
| Throw (e : exn)
| Timeout.
Arguments Ok {A} a.
Arguments Throw {A} e.
Arguments Timeout {A}.

Definition bind {A B : Type} (m : result A) (k : A -> result B) : result B :=
  match m with
  | Ok a => k a
  | Throw e => Throw e
  | Timeout => Timeout
  end.

Notation "'let*' p ':=' m 'in' k" := (bind m (fun p => k))
  (at level 10, p pattern, m at level 100, k at level 200,
   format "'[v' 'let*'  p  ':='  m  'in' '/' k ']'").

(** The computation has an outcome of the program's own. *)
Definition settled {A : Type} (m : result A) : Prop := m <> Timeout.

(** [rows.filter(f)] where the callback may throw: the first exception
    aborts the traversal. *)
Fixpoint filterM {A} (f : A -> result bool) (l : list A) : result (list A) :=
  match l with
  | [] => Ok []
  | x :: l' =>
      let* b := f x in
      let* r := filterM f l' in
      Ok (if (b : bool) then x :: r else r)
  end.

(* ===================================================================== *)
(** * JavaScript values and built-ins *)
(* ===================================================================== *)

Module JS.

(** ** Characters

    Strings are sequences of code units below 256, read as Latin-1. The
    regular-expression classes [\s], [\d] and [\w] on that range: *)

Definition code (c : ascii) : nat := nat_of_ascii c.

Definition isSpace (c : ascii) : bool :=
  let n := code c in
  ((9 <=? n) && (n <=? 13)) || (n =? 32) || (n =? 160).

Definition isDigit (c : ascii) : bool :=
  let n := code c in (48 <=? n) && (n <=? 57).

Definition isUpper (c : ascii) : bool :=
  let n := code c in (65 <=? n) && (n <=? 90).

Definition isLower (c : ascii) : bool :=
  let n := code c in (97 <=? n) && (n <=? 122).

Definition isWord (c : ascii) : bool :=
  isDigit c || isUpper c || isLower c || (code c =? 95).

(** ** Strings *)

Fixpoint trimStart (s : string) : string :=
  match s with
  | String c s' => if isSpace c then trimStart s' else s
  | EmptyString => EmptyString
  end.

Fixpoint rev_string (s acc : string) : string :=
  match s with
  | EmptyString => acc
  | String c s' => rev_string s' (String c acc)
  end.

Definition trimEnd (s : string) : string :=
  rev_string (trimStart (rev_string s "")) "".

(** [String.prototype.trim] *)
Definition trim (s : string) : string := trimEnd (trimStart s).

Definition upperChar (c : ascii) : ascii :=
  let n := code c in
  if isLower c then ascii_of_nat (n - 32)
  else if (224 <=? n) && (n <=? 254) && negb (n =? 247) then ascii_of_nat (n - 32)
  else c.

Definition lowerChar (c : ascii) : ascii :=
  let n := code c in
  if isUpper c then ascii_of_nat (n + 32)
  else if (192 <=? n) && (n <=? 222) && negb (n =? 215) then ascii_of_nat (n + 32)
  else c.

Fixpoint mapString (f : ascii -> ascii) (s : string) : string :=
  match s with
  | EmptyString => EmptyString
  | String c s' => String (f c) (mapString f s')
  end.

(** [toUpperCase] is exact on ASCII, the only text the lexer applies it to
    (identifiers are runs of [\w] and dots); [toLowerCase] is exact on
    Latin-1. *)
Definition toUpperCase : string -> string := mapString upperChar.
Definition toLowerCase : string -> string := mapString lowerChar.

(** [s.includes(c)] for a one-character needle *)
Fixpoint includesChar (c : ascii) (s : string) : bool :=
  match s with
  | EmptyString => false
  | String d s' => Ascii.eqb c d || includesChar c s'
  end.

(** [s.split(c)] for a one-character separator: never empty. *)
Fixpoint split (sep : ascii) (s : string) : list string :=
  match s with
  | EmptyString => [EmptyString]
  | String c s' =>
      if Ascii.eqb c sep then EmptyString :: split sep s'
      else match split sep s' with
           | p :: ps => String c p :: ps
           | [] => [String c EmptyString]
           end
  end.

(** [parts.join(sep)] *)
Fixpoint join (sep : string) (parts : list string) : string :=
  match parts with
  | [] => ""
  | [p] => p
  | p :: ps => p ++ sep ++ join sep ps
  end.

(** [s.replace(/c/g, by)] for a one-character pattern *)
Fixpoint replaceAll (c : ascii) (by_ : string) (s : string) : string :=
  match s with
  | EmptyString => EmptyString
  | String d s' =>
      if Ascii.eqb c d then by_ ++ replaceAll c by_ s'
      else String d (replaceAll c by_ s')
  end.

(** [list.includes(s)] on an array of strings *)
Definition includesStr (l : list string) (s : string) : bool :=
  existsb (String.eqb s) l.

(** ** Numbers

    A finite Number is modelled as the exact rational it denotes, kept in
    lowest terms; rounding to binary64, overflow and the sign of zero are
    not modelled. [NaN] and the two infinities are kept, since the source
    tests for the first and [parseFloat] can return the others. *)

Inductive number : Type :=
| NaN
| Inf (negative : bool)
| Fin (q : Q).

Definition fin (q : Q) : number := Fin (Qred q).
Definition ofZ (z : Z) : number := Fin (inject_Z z).
Definition ofNat (n : nat) : number := ofZ (Z.of_nat n).

Definition isNaN (n : number) : bool :=
  match n with NaN => true | _ => false end.

Definition neg (n : number) : number :=
  match n with
  | NaN => NaN
  | Inf s => Inf (negb s)
  | Fin q => fin (- q)
  end.

Definition add (a b : number) : number :=
  match a, b with
  | NaN, _ | _, NaN => NaN
  | Inf s, Inf t => if Bool.eqb s t then Inf s else NaN
  | Inf s, Fin _ | Fin _, Inf s => Inf s
  | Fin x, Fin y => fin (x + y)
  end.

Definition sub (a b : number) : number := add a (neg b).

Definition qsign (q : Q) : Z := Z.sgn (Qnum q).

Definition div (a b : number) : number :=
  match a, b with
  | NaN, _ | _, NaN => NaN
  | Inf _, Inf _ => NaN
  | Inf s, Fin y => Inf (xorb s (qsign y <? 0)%Z)
  | Fin _, Inf _ => Fin 0
  | Fin x, Fin y =>
      if Qeq_bool y 0 then
        (if Qeq_bool x 0 then NaN else Inf (qsign x <? 0)%Z)
      else fin (x / y)
  end.

(** [a < b], [a <= b], [a === b] on Numbers: false when either is NaN. *)
Definition ltb (a b : number) : bool :=
  match a, b with
  | NaN, _ | _, NaN => false
  | Inf s, Inf t => s && negb t
  | Inf s, Fin _ => s
  | Fin _, Inf t => negb t
  | Fin x, Fin y => negb (Qle_bool y x)
  end.

Definition eqb (a b : number) : bool :=
  match a, b with
  | Inf s, Inf t => Bool.eqb s t
  | Fin x, Fin y => Qeq_bool x y
  | _, _ => false
  end.

Definition leb (a b : number) : bool := ltb a b || eqb a b.
Definition gtb (a b : number) : bool := ltb b a.
Definition geb (a b : number) : bool := leb b a.

Definition zero : number := ofZ 0.

(** [Math.min(a, b)], [Math.max(a, b)]: NaN is contagious. *)
Definition min2 (a b : number) : number :=
  if isNaN a || isNaN b then NaN else if ltb b a then b else a.
Definition max2 (a b : number) : number :=
  if isNaN a || isNaN b then NaN else if ltb a b then b else a.

(** ** Decimal text

    [parseFloat] reads the longest prefix that is a StrDecimalLiteral;
    [toNumber] (the ToNumber conversion of a string) wants the whole trimmed
    text to be a numeric literal. *)

Fixpoint takeDigits (s : string) : string * string :=
  match s with
  | String c s' =>
      if isDigit c then let '(d, r) := takeDigits s' in (String c d, r)
      else (EmptyString, s)
  | EmptyString => (EmptyString, EmptyString)
  end.

Fixpoint digitsValue (acc : Z) (s : string) : Z :=
  match s with
  | EmptyString => acc
  | String c s' => digitsValue (10 * acc + Z.of_nat (code c - 48))%Z s'
  end.

(** [m * 10^e] as a rational *)
Definition scale10 (m e : Z) : Q :=
  if (0 <=? e)%Z then inject_Z (m * 10 ^ e)
  else Qmake m (Z.to_pos (10 ^ (- e))).

Definition startsWith (p s : string) : bool :=
  match String.length p <=? String.length s with
  | true => String.eqb p (substring 0 (String.length p) s)
  | false => false
  end.

Definition dropString (n : nat) (s : string) : string :=
  substring n (String.length s - n) s.

(** The exponent part [e±ddd], if one is there; otherwise nothing is
    consumed. *)
Definition readExponent (s : string) : Z * string :=
  match s with
  | String c s1 =>
      if Ascii.eqb c "e" || Ascii.eqb c "E" then
        let '(sgn, s2) :=
          match s1 with
          | String "+" r => (1%Z, r)
          | String "-" r => ((-1)%Z, r)
          | _ => (1%Z, s1)
          end in
        let '(ds, s3) := takeDigits s2 in
        match ds with
        | EmptyString => (0%Z, s)
        | _ => ((sgn * digitsValue 0 ds)%Z, s3)
        end
      else (0%Z, s)
  | EmptyString => (0%Z, s)
  end.

(** An unsigned StrDecimalLiteral at the head of [s] and what follows it. *)
Definition readUnsignedDecimal (s : string) : option (number * string) :=
  if startsWith "Infinity" s then Some (Inf false, dropString 8 s)
  else
    let '(ip, r1) := takeDigits s in
    let '(fp, r2) :=
      match r1 with
      | String "." r => takeDigits r
      | _ => (EmptyString, r1)
      end in
    match ip, fp with
    | EmptyString, EmptyString => None
    | _, _ =>
        let '(e, r3) := readExponent r2 in
        let m := digitsValue 0 (ip ++ fp) in
        Some (fin (scale10 m (e - Z.of_nat (String.length fp))), r3)
    end.

Definition readDecimal (s : string) : option (number * string) :=
  match s with
  | String "+" r => readUnsignedDecimal r
  | String "-" r =>
      match readUnsignedDecimal r with
      | Some (n, r') => Some (neg n, r')
      | None => None
      end
  | _ => readUnsignedDecimal s
  end.

(** [parseFloat(s)] for a string *)
Definition parseFloatStr (s : string) : number :=
  match readDecimal (trimStart s) with
  | Some (n, _) => n
  | None => NaN
  end.

Definition digitOfBase (base : nat) (c : ascii) : option Z :=
  let n := code c in
  let v :=
    if isDigit c then Some (n - 48)
    else if (97 <=? n) && (n <=? 102) then Some (n - 87)
    else if (65 <=? n) && (n <=? 70) then Some (n - 55)
    else None in
  match v with
  | Some d => if d <? base then Some (Z.of_nat d) else None
  | None => None
  end.

Fixpoint readBase (base : nat) (acc : Z) (s : string) : option Z :=
  match s with
  | EmptyString => Some acc
  | String c s' =>
      match digitOfBase base c with
      | Some d => readBase base (Z.of_nat base * acc + d)%Z s'
      | None => None
      end
  end.

Definition readNonDecimal (base : nat) (s : string) : number :=
  match s with
  | EmptyString => NaN
  | _ => match readBase base 0 s with
         | Some z => ofZ z
         | None => NaN
         end
  end.

(** ToNumber applied to a string (StringToNumber) *)
Definition toNumber (s : string) : number :=
  let t := trim s in
  match t with
  | EmptyString => zero
  | String "0" (String c r) =>
      if Ascii.eqb c "x" || Ascii.eqb c "X" then readNonDecimal 16 r
      else if Ascii.eqb c "o" || Ascii.eqb c "O" then readNonDecimal 8 r
      else if Ascii.eqb c "b" || Ascii.eqb c "B" then readNonDecimal 2 r
      else match readDecimal t with
           | Some (n, EmptyString) => n
           | _ => NaN
           end
  | _ => match readDecimal t with
         | Some (n, EmptyString) => n
         | _ => NaN
         end
  end.

(** ** Number to text ([Number::toString], radix 10)

    The text is the shortest decimal with at most 17 significant digits;
    for a rational whose expansion is longer the 17th digit is rounded. *)

Definition decimalOfZ (z : Z) : string :=
  NilZero.string_of_uint (N.to_uint (Z.to_N z)).

Definition ndigits (z : Z) : Z := Z.of_nat (String.length (decimalOfZ z)).

Fixpoint dropZeros (s : string) : string :=
  match s with
  | String "0" s' => dropZeros s'
  | _ => s
  end.

Definition stripTrailingZeros (s : string) : string :=
  rev_string (dropZeros (rev_string s "")) "".

Fixpoint zeros (n : nat) : string :=
  match n with
  | O => ""
  | S n' => String "0" (zeros n')
  end.

(** Digits [s] (no trailing zero) and exponent [n] with [a = 0.s * 10^n],
    for a positive rational [a]. *)
Definition digitsAndExponent (a : Q) : string * Z :=
  let e0 := (ndigits (Qnum a) - ndigits (Zpos (Qden a)))%Z in
  let n := if Qle_bool (scale10 1 e0) a then (e0 + 1)%Z else e0 in
  let x := Qred (a * scale10 1 (17 - n)) in
  let s := ((2 * Qnum x + Zpos (Qden x)) / (2 * Zpos (Qden x)))%Z in
  let '(s, n) := if (10 ^ 17 <=? s)%Z then ((s / 10)%Z, (n + 1)%Z) else (s, n) in
  (stripTrailingZeros (decimalOfZ s), n).

Definition formatDigits (ds : string) (n : Z) : string :=
  let k := Z.of_nat (String.length ds) in
  if ((k <=? n) && (n <=? 21))%Z then
    ds ++ zeros (Z.to_nat (n - k))
  else if ((0 <? n) && (n <=? 21))%Z then
    substring 0 (Z.to_nat n) ds ++ "." ++ dropString (Z.to_nat n) ds
  else if ((-6 <? n) && (n <=? 0))%Z then
    "0." ++ zeros (Z.to_nat (- n)) ++ ds
  else
    let e := (n - 1)%Z in
    let sign := if (e <? 0)%Z then "-" else "+" in
    match ds with
    | String d EmptyString => String d ("e" ++ sign ++ decimalOfZ (Z.abs e))
    | String d rest => String d ("." ++ rest ++ "e" ++ sign ++ decimalOfZ (Z.abs e))
    | EmptyString => "0"
    end.

Definition numToString (x : number) : string :=
  match x with
  | NaN => "NaN"
  | Inf false => "Infinity"
  | Inf true => "-Infinity"
  | Fin q =>
      match Qnum q with
      | Z0 => "0"
      | Zpos _ => let '(ds, n) := digitsAndExponent q in formatDigits ds n
      | Zneg _ => let '(ds, n) := digitsAndExponent (- q) in "-" ++ formatDigits ds n
      end
  end.

(** ** Values

    A cell, a token value or a literal is null, a Number or a string. *)

Inductive value : Type :=
| VNull
| VNum (n : number)
| VStr (s : string).

(** ToBoolean *)
Definition truthy (v : value) : bool :=
  match v with
  | VNull => false
  | VNum n => negb (isNaN n || eqb n zero)
  | VStr EmptyString => false
  | VStr _ => true
  end.

(** [a || b] *)
Definition orElse (a b : value) : value := if truthy a then a else b.

(** [String(v)] *)
Definition toString (v : value) : string :=
  match v with
  | VNull => "null"
  | VNum n => numToString n
  | VStr s => s
  end.

(** [parseFloat(v)]: the argument is converted to a string first. *)
Definition parseFloat (v : value) : number := parseFloatStr (toString v).

(** ToNumber *)
Definition toNumberV (v : value) : number :=
  match v with
  | VNull => zero
  | VNum n => n
  | VStr s => toNumber s
  end.

(** [a == b] *)
Definition looseEq (a b : value) : bool :=
  match a, b with
  | VNull, VNull => true
  | VNull, _ | _, VNull => false
  | VNum x, VNum y => eqb x y
  | VStr s, VStr t => String.eqb s t
  | VNum x, VStr t => eqb x (toNumber t)
  | VStr s, VNum y => eqb (toNumber s) y
  end.

(** [a == null] *)
Definition isNullish (a : value) : bool :=
  match a with VNull => true | _ => false end.

(** SameValueZero, the comparison of [Array.prototype.includes] *)
Definition sameValueZero (a b : value) : bool :=
  match a, b with
  | VNull, VNull => true
  | VNum x, VNum y => eqb x y || (isNaN x && isNaN y)
  | VStr s, VStr t => String.eqb s t
  | _, _ => false
  end.

(** [arr.includes(v)] *)
Definition includes (arr : list value) (v : value) : bool :=
  existsb (fun x => sameValueZero x v) arr.

(** [String(arr)] for an array of scalars: the elements joined by commas,
    null printing as nothing. *)
Definition arrayToString (arr : list value) : string :=
  join "," (List.map (fun v => match v with VNull => "" | _ => toString v end) arr).

(** ** Arrays *)

(** ToIntegerOrInfinity, with the two infinities kept apart *)
Definition truncate (q : Q) : Z := Z.quot (Qnum q) (Zpos (Qden q)).

(** [arr.slice(0, end)] *)
Definition slice0 {A} (arr : list A) (end_ : number) : list A :=
  match end_ with
  | NaN => []
  | Inf false => arr
  | Inf true => []
  | Fin q =>
      let z := truncate q in
      let len := Z.of_nat (length arr) in
      let final := if (z <? 0)%Z then Z.max (len + z) 0 else Z.min z len in
      firstn (Z.to_nat final) arr
  end.

(** [arr.sort(cmp)]: ECMAScript asks for a stable sort and calls the
    comparator's result positive, negative or (zero and NaN alike) neither.
    Insertion from the right is such a sort: an element goes in front of
    the first one it is not greater than. When the comparator orders the
    elements consistently, the sorted stable arrangement is unique and
    every engine returns it. When it does not, ECMAScript leaves the order
    to the engine, and another algorithm can return another arrangement
    than insertion does: what is stated of the order of a sorted array is
    stated for consistent comparators. *)
Definition positive (n : number) : bool := ltb zero n.
Definition negative (n : number) : bool := ltb n zero.

Fixpoint insertSorted {A} (cmp : A -> A -> number) (x : A) (l : list A) : list A :=
  match l with
  | [] => [x]
  | y :: l' => if positive (cmp x y) then y :: insertSorted cmp x l' else x :: l
  end.

Fixpoint sort {A} (cmp : A -> A -> number) (l : list A) : list A :=
  match l with
  | [] => []
  | x :: l' => insertSorted cmp x (sort cmp l')
  end.

(** [Math.min] and [Math.max] of the arguments [vs]: every argument goes
    through ToNumber. Whether a call [Math.min(...vs)] gets as far as the
    function depends on the number of arguments ([Host], [Exceptions]). *)
Definition mathMin (vs : list value) : number :=
  fold_left (fun acc v => min2 acc (toNumberV v)) vs (Inf false).
Definition mathMax (vs : list value) : number :=
  fold_left (fun acc v => max2 acc (toNumberV v)) vs (Inf true).

End JS.

(* ===================================================================== *)
(** * The host *)
(* ===================================================================== *)

(** Three things are left to the JavaScript engine: the collation behind
    [String.prototype.localeCompare] (ICU data and the default locale), the
    regular-expression engine, and how many arguments one call can be
    handed. The development is parametric in all three.
    [localeCompare a b] is the sign of [a.localeCompare(b)];
    [regexp_test src s] is [new RegExp(src).test(s)], and throws when the
    constructor rejects [src]; [argumentLimit] is the largest number of
    elements that a spread call [f(...array)] passes on: with more, the
    call throws a RangeError and [f] is not entered. Engines differ in the
    number (tens to hundreds of thousands, less on a deep stack); every
    one has such a bound. *)
Class Host : Type := {
  localeCompare : string -> string -> Z;
  regexp_test : string -> string -> result bool;
  argumentLimit : nat
}.

(* ===================================================================== *)
(** * src/sql/parser.js: the lexer *)
(* ===================================================================== *)

Module Lexer.

Inductive TokenType : Type :=
| KEYWORD | IDENTIFIER | STRING | NUMBER | OPERATOR | PUNCTUATION | EOF.

Definition TokenType_eqb (a b : TokenType) : bool :=
  match a, b with
  | KEYWORD, KEYWORD | IDENTIFIER, IDENTIFIER | STRING, STRING
  | NUMBER, NUMBER | OPERATOR, OPERATOR | PUNCTUATION, PUNCTUATION
  | EOF, EOF => true
  | _, _ => false
  end.

(** [TOKEN_TYPES]: each type is its own name. *)
Definition typeName (t : TokenType) : string :=
  match t with
  | KEYWORD => "KEYWORD" | IDENTIFIER => "IDENTIFIER" | STRING => "STRING"
  | NUMBER => "NUMBER" | OPERATOR => "OPERATOR"
  | PUNCTUATION => "PUNCTUATION" | EOF => "EOF"
  end.

(** A token [{ type, value }]. The lexer gives a NUMBER a Number, the end
    of input null, and every other type a string. *)
Inductive Token : Type :=
| TKeyword (s : string)
| TIdentifier (s : string)
| TString (s : string)
| TNumber (n : JS.number)
| TOperator (s : string)
| TPunctuation (s : string)
| TEOF.

Definition type (t : Token) : TokenType :=
  match t with
  | TKeyword _ => KEYWORD | TIdentifier _ => IDENTIFIER | TString _ => STRING
  | TNumber _ => NUMBER | TOperator _ => OPERATOR
  | TPunctuation _ => PUNCTUATION | TEOF => EOF
  end.

Definition value (t : Token) : JS.value :=
  match t with
  | TKeyword s | TIdentifier s | TString s | TOperator s | TPunctuation s =>
      JS.VStr s
  | TNumber n => JS.VNum n
  | TEOF => JS.VNull
  end.

Definition KEYWORDS : list string :=
  ["SELECT"; "FROM"; "WHERE"; "ORDER"; "BY"; "GROUP"; "JOIN"; "ON"; "INNER";
   "LEFT"; "RIGHT"; "AND"; "OR"; "NOT"; "IN"; "LIKE"; "AS"; "ASC"; "DESC";
   "LIMIT"; "COUNT"; "SUM"; "AVG"; "MIN"; "MAX"].

(** The lexer's state is the unread part of the trimmed input,
    [input.slice(position)]: [currentChar] is its first character (null at
    the end) and [advance] drops it. *)
Definition Lexer : Type := string.

Definition new (input : string) : Lexer := JS.trim input.

Definition currentChar (lx : Lexer) : option ascii :=
  match lx with
  | String c _ => Some c
  | EmptyString => None
  end.

Definition advance (lx : Lexer) : Lexer :=
  match lx with
  | String _ rest => rest
  | EmptyString => EmptyString
  end.

Fixpoint skipWhitespace (lx : Lexer) : Lexer :=
  match lx with
  | String c rest => if JS.isSpace c then skipWhitespace rest else lx
  | EmptyString => lx
  end.

(** The loop of [readString], entered after the opening quote: it stops in
    front of the closing quote or at the end of the input. *)
Fixpoint readStringBody (quote : ascii) (lx : Lexer) : string * Lexer :=
  match lx with
  | EmptyString => (EmptyString, lx)
  | String c rest =>
      if Ascii.eqb c quote then (EmptyString, lx)
      else if Ascii.eqb c "\" then
        match rest with
        | String d rest' =>
            let '(v, lx') := readStringBody quote rest' in (String d v, lx')
        | EmptyString => (EmptyString, rest)
        end
      else
        let '(v, lx') := readStringBody quote rest in (String c v, lx')
  end.

Definition readString (lx : Lexer) : string * Lexer :=
  match lx with
  | String quote rest =>
      let '(v, lx') := readStringBody quote rest in
      match lx' with
      | String c rest' => (v, if Ascii.eqb c quote then rest' else lx')
      | EmptyString => (v, lx')
      end
  | EmptyString => (EmptyString, lx)
  end.

Fixpoint readWhile (f : ascii -> bool) (lx : Lexer) : string * Lexer :=
  match lx with
  | String c rest =>
      if f c then let '(v, lx') := readWhile f rest in (String c v, lx')
      else (EmptyString, lx)
  | EmptyString => (EmptyString, lx)
  end.

Definition readNumber (lx : Lexer) : JS.number * Lexer :=
  let '(v, lx') := readWhile (fun c => JS.isDigit c || Ascii.eqb c ".") lx in
  (JS.parseFloatStr v, lx').

Definition readIdentifier (lx : Lexer) : string * Lexer :=
  readWhile (fun c => JS.isWord c || Ascii.eqb c ".") lx.

(** the double quote, code unit 34 *)
Definition doubleQuote : ascii := ascii_of_nat 34.

Definition isOperatorChar (c : ascii) : bool :=
  Ascii.eqb c "=" || Ascii.eqb c "<" || Ascii.eqb c ">" || Ascii.eqb c "!".

Definition isPunctuationChar (c : ascii) : bool :=
  Ascii.eqb c "(" || Ascii.eqb c ")" || Ascii.eqb c "," || Ascii.eqb c ";".

Definition readOperator (lx : Lexer) : string * Lexer :=
  match lx with
  | String op rest =>
      match rest with
      | String next rest' =>
          if (Ascii.eqb op "=" || Ascii.eqb op ">" || Ascii.eqb op "<")
             && ((Ascii.eqb op "<" && Ascii.eqb next ">")
                 || (Ascii.eqb op "!" && Ascii.eqb next "=")
                 || (Ascii.eqb op "=" && Ascii.eqb next "=")
                 || (Ascii.eqb op ">" && Ascii.eqb next "=")
                 || (Ascii.eqb op "<" && Ascii.eqb next "="))
          then (String op (String next EmptyString), rest')
          else (String op EmptyString, rest)
      | EmptyString => (String op EmptyString, rest)
      end
  | EmptyString => (EmptyString, lx)
  end.

(** [nextToken]: the [continue] after [skipWhitespace] re-enters the loop
    on a character that is not a space, or leaves it at the end. *)
Definition nextToken (lx : Lexer) : Token * Lexer :=
  let lx := skipWhitespace lx in
  match lx with
  | EmptyString => (TEOF, lx)
  | String c rest =>
      if Ascii.eqb c doubleQuote || Ascii.eqb c "'" then
        let '(v, lx') := readString lx in (TString v, lx')
      else if JS.isDigit c then
        let '(n, lx') := readNumber lx in (TNumber n, lx')
      else if isOperatorChar c then
        let '(op, lx') := readOperator lx in (TOperator op, lx')
      else if isPunctuationChar c then
        (TPunctuation (String c EmptyString), rest)
      else
        let '(identifier, lx') := readIdentifier lx in
        let upper := JS.toUpperCase identifier in
        if JS.includesStr KEYWORDS upper then (TKeyword upper, lx')
        else (TIdentifier identifier, lx')
  end.

(** [tokenize]: [fuel] bounds the calls of [nextToken]. *)
Fixpoint tokenizeLoop (fuel : nat) (lx : Lexer) (tokens : list Token)
  : result (list Token) :=
  match fuel with
  | O => Timeout
  | S fuel' =>
      let '(token, lx') := nextToken lx in
      match token with
      | TEOF => Ok (tokens ++ [token])
      | _ => tokenizeLoop fuel' lx' (tokens ++ [token])
      end
  end.

Definition tokenize (fuel : nat) (lx : Lexer) : result (list Token) :=
  tokenizeLoop fuel lx [].

End Lexer.

(* ===================================================================== *)
(** * src/sql/parser.js: the parser *)
(* ===================================================================== *)

Module Parser.
Import Lexer.
#[local] Open Scope string_scope.

(** ** The syntax tree *)

(** An item of the select list: a column name (the wildcard is the name
    ["*"]), [{ column, alias }], or [{ type, column, alias? }] for an
    aggregate call. *)
Inductive ColumnSpec : Type :=
| ColName (name : string)
| ColAlias (column alias : string)
| ColAgg (aggType column : string) (alias : option string).

(** The literal of a comparison: a scalar, or the array that follows IN. *)
Inductive Operand : Type :=
| Scalar (v : JS.value)
| Values (vs : list JS.value).

(** A WHERE condition: [{ type, left, right }] with type AND or OR (the
    text of the token [parseCondition] has just tested),
    [{ type: 'NOT', condition }], and [{ type, column, value }] with the
    operator's text as type. *)
Inductive Condition : Type :=
| And (left right : Condition)
| Or (left right : Condition)
| Not (condition : Condition)
| Compare (operator column : string) (value : Operand).

(** [{ column, direction }] *)
Record OrderSpec : Type := mkOrder { column : string; direction : string }.

(** [{ type, table, on: { left, right } }] *)
Record JoinSpec : Type := mkJoin {
  joinType : string;
  table : string;
  onLeft : string;
  onRight : string
}.

(** The tree [parse] returns, without its constant field [type: 'SELECT'];
    an absent clause is null. *)
Record Query : Type := mkQuery {
  columns : list ColumnSpec;
  from : option string;
  where_ : option Condition;
  orderBy : option (list OrderSpec);
  groupBy : option (list string);
  join : option JoinSpec;
  limit : option JS.number
}.

(** ** The cursor

    The parser's state is the part of the token array from [position] on:
    [currentToken] is its first token, and past the end it is the EOF
    token that [advance] substitutes. *)
Definition Parser : Type := list Token.

Definition currentToken (p : Parser) : Token :=
  match p with
  | t :: _ => t
  | [] => TEOF
  end.

Definition advance (p : Parser) : Parser :=
  match p with
  | _ :: rest => rest
  | [] => []
  end.

(** [this.currentToken.value === s] *)
Definition valueIs (p : Parser) (s : string) : bool :=
  match value (currentToken p) with
  | JS.VStr v => String.eqb v s
  | _ => false
  end.

(** The text of a token's value, as [`${value}`] prints it. *)
Definition text (t : Token) : string := JS.toString (value t).

Definition expect (ty : TokenType) (val : option string) (p : Parser)
  : result (Token * Parser) :=
  let token := currentToken p in
  if negb (TokenType_eqb (type token) ty) then
    Throw (Error ("Expected " ++ typeName ty ++ ", got " ++ typeName (type token)))
  else
    match val with
    | Some v =>
        if valueIs p v then Ok (token, advance p)
        else Throw (Error ("Expected " ++ v ++ ", got " ++ text token))
    | None => Ok (token, advance p)
    end.

(** [this.expect(IDENTIFIER).value] *)
Definition expectIdentifier (p : Parser) : result (string * Parser) :=
  let* (t, p) := expect IDENTIFIER None p in
  Ok (text t, p).

Definition aggregateNames : list string := ["COUNT"; "SUM"; "AVG"; "MIN"; "MAX"].

Definition parseColumn (p : Parser) : result (ColumnSpec * Parser) :=
  let token := currentToken p in
  if TokenType_eqb (type token) KEYWORD && JS.includesStr aggregateNames (text token)
  then
    let aggType := text token in
    let p := advance p in
    let* (_, p) := expect PUNCTUATION (Some "(") p in
    let* (column, p) :=
      (if valueIs p "*" then Ok ("*", advance p) else expectIdentifier p) in
    let* (_, p) := expect PUNCTUATION (Some ")") p in
    if valueIs p "AS" then
      let* (alias, p) := expectIdentifier (advance p) in
      Ok (ColAgg aggType column (Some alias), p)
    else Ok (ColAgg aggType column None, p)
  else
    let* (column, p) := expectIdentifier p in
    let* (column, p) :=
      (if valueIs p "." then
         let* (c2, p) := expectIdentifier (advance p) in
         Ok (column ++ "." ++ c2, p)
       else Ok (column, p)) in
    if valueIs p "AS" then
      let* (alias, p) := expectIdentifier (advance p) in
      Ok (ColAlias column alias, p)
    else Ok (ColName column, p).

(** The [while (true)] of [parseSelect]; every turn takes a token or
    throws, so a budget above the number of tokens is never spent. *)
Fixpoint parseColumns (fuel : nat) (p : Parser) : result (list ColumnSpec * Parser) :=
  match fuel with
  | O => Timeout
  | S fuel' =>
      let* (column, p) := parseColumn p in
      if valueIs p "," then
        let* (rest, p) := parseColumns fuel' (advance p) in
        Ok (column :: rest, p)
      else Ok ([column], p)
  end.

Definition parseSelect (fuel : nat) (p : Parser) : result (list ColumnSpec * Parser) :=
  let* (_, p) := expect KEYWORD (Some "SELECT") p in
  if valueIs p "*" then Ok ([ColName "*"], advance p)
  else parseColumns fuel p.

Definition parseFrom (p : Parser) : result (option string * Parser) :=
  if valueIs p "FROM" then
    let* (name, p) := expectIdentifier (advance p) in
    Ok (Some name, p)
  else Ok (None, p).

Definition parseColumnIdentifier (p : Parser) : result (string * Parser) :=
  let* (column, p) := expectIdentifier p in
  if valueIs p "." then
    let* (c2, p) := expectIdentifier (advance p) in
    Ok (column ++ "." ++ c2, p)
  else Ok (column, p).

Definition parseValue (p : Parser) : result (JS.value * Parser) :=
  match currentToken p with
  | TString s => Ok (JS.VStr s, advance p)
  | TNumber n => Ok (JS.VNum n, advance p)
  | TIdentifier s => Ok (JS.VStr s, advance p)
  | t => Throw (Error ("Unexpected token in value: " ++ typeName (type t)))
  end.

(** The value list of IN: [while (this.currentToken.value !== ')')]. *)
Fixpoint parseValues (fuel : nat) (p : Parser) : result (list JS.value * Parser) :=
  match fuel with
  | O => Timeout
  | S fuel' =>
      if valueIs p ")" then Ok ([], p)
      else
        let* (v, p) := parseValue p in
        let p := if valueIs p "," then advance p else p in
        let* (rest, p) := parseValues fuel' p in
        Ok (v :: rest, p)
  end.

Fixpoint parseCondition (fuel : nat) (p : Parser) : result (Condition * Parser) :=
  match fuel with
  | O => Timeout
  | S fuel' =>
      let* (lhs, p) := parseConditionTerm fuel' p in
      parseConditionRest fuel' lhs p
  end

(** the [while] of [parseCondition], with [left] as built so far *)
with parseConditionRest (fuel : nat) (lhs : Condition) (p : Parser)
  : result (Condition * Parser) :=
  match fuel with
  | O => Timeout
  | S fuel' =>
      if valueIs p "AND" || valueIs p "OR" then
        let op := if valueIs p "AND" then And else Or in
        let* (rhs, p) := parseConditionTerm fuel' (advance p) in
        parseConditionRest fuel' (op lhs rhs) p
      else Ok (lhs, p)
  end

with parseConditionTerm (fuel : nat) (p : Parser) : result (Condition * Parser) :=
  match fuel with
  | O => Timeout
  | S fuel' =>
      if valueIs p "NOT" then
        let* (c, p) := parseConditionTerm fuel' (advance p) in
        Ok (Not c, p)
      else if valueIs p "(" then
        let* (c, p) := parseCondition fuel' (advance p) in
        let* (_, p) := expect PUNCTUATION (Some ")") p in
        Ok (c, p)
      else
        let* (column, p) := parseColumnIdentifier p in
        let* (t, p) := expect OPERATOR None p in
        let operator := text t in
        let* (v, p) := parseValue p in
        if String.eqb operator "IN" && valueIs p "(" then
          let* (vs, p) := parseValues fuel' (advance p) in
          let* (_, p) := expect PUNCTUATION (Some ")") p in
          Ok (Compare operator column (Values vs), p)
        else Ok (Compare operator column (Scalar v), p)
  end.

Definition parseWhere (fuel : nat) (p : Parser) : result (option Condition * Parser) :=
  if negb (valueIs p "WHERE") then Ok (None, p)
  else
    let* (c, p) := parseCondition fuel (advance p) in
    Ok (Some c, p).

Fixpoint parseOrders (fuel : nat) (p : Parser) : result (list OrderSpec * Parser) :=
  match fuel with
  | O => Timeout
  | S fuel' =>
      let* (column, p) := parseColumnIdentifier p in
      let '(direction, p) :=
        if valueIs p "ASC" || valueIs p "DESC"
        then (text (currentToken p), advance p)
        else ("ASC", p) in
      if valueIs p "," then
        let* (rest, p) := parseOrders fuel' (advance p) in
        Ok (mkOrder column direction :: rest, p)
      else Ok ([mkOrder column direction], p)
  end.

Definition parseOrderBy (fuel : nat) (p : Parser)
  : result (option (list OrderSpec) * Parser) :=
  if negb (valueIs p "ORDER") then Ok (None, p)
  else
    let* (_, p) := expect KEYWORD (Some "ORDER") p in
    let* (_, p) := expect KEYWORD (Some "BY") p in
    let* (orders, p) := parseOrders fuel p in
    Ok (Some orders, p).

Fixpoint parseGroupColumns (fuel : nat) (p : Parser) : result (list string * Parser) :=
  match fuel with
  | O => Timeout
  | S fuel' =>
      let* (column, p) := parseColumnIdentifier p in
      if valueIs p "," then
        let* (rest, p) := parseGroupColumns fuel' (advance p) in
        Ok (column :: rest, p)
      else Ok ([column], p)
  end.

Definition parseGroupBy (fuel : nat) (p : Parser)
  : result (option (list string) * Parser) :=
  if negb (valueIs p "GROUP") then Ok (None, p)
  else
    let* (_, p) := expect KEYWORD (Some "GROUP") p in
    let* (_, p) := expect KEYWORD (Some "BY") p in
    let* (cols, p) := parseGroupColumns fuel p in
    Ok (Some cols, p).

Definition parseJoin (p : Parser) : result (option JoinSpec * Parser) :=
  if negb (valueIs p "JOIN") && negb (valueIs p "INNER")
     && negb (valueIs p "LEFT") && negb (valueIs p "RIGHT")
  then Ok (None, p)
  else
    let '(joinType, p) :=
      if valueIs p "INNER" || valueIs p "LEFT" || valueIs p "RIGHT"
      then (text (currentToken p), advance p)
      else ("INNER", p) in
    let* (_, p) := expect KEYWORD (Some "JOIN") p in
    let* (table, p) := expectIdentifier p in
    let* (_, p) := expect KEYWORD (Some "ON") p in
    let* (lhs, p) := parseColumnIdentifier p in
    let* (_, p) := expect OPERATOR (Some "=") p in
    let* (rhs, p) := parseColumnIdentifier p in
    Ok (Some (mkJoin joinType table lhs rhs), p).

Definition parseLimit (p : Parser) : result (option JS.number * Parser) :=
  if negb (valueIs p "LIMIT") then Ok (None, p)
  else
    let* (t, p) := expect NUMBER None (advance p) in
    match t with
    | TNumber n => Ok (Some n, p)
    | _ => Ok (None, p)
    end.

(** The body of [parse], with the tokens it leaves unread. *)
Definition parseClauses (fuel : nat) (p : Parser) : result (Query * Parser) :=
  let* (columns, p) := parseSelect fuel p in
  let* (from, p) := parseFrom p in
  let* (where_, p) := parseWhere fuel p in
  let* (orderBy, p) := parseOrderBy fuel p in
  let* (groupBy, p) := parseGroupBy fuel p in
  let* (join, p) := parseJoin p in
  let* (limit, p) := parseLimit p in
  Ok (mkQuery columns from where_ orderBy groupBy join limit, p).

(** Every turn of a loop and every nested call of the parser takes a token
    or throws, so this budget is never spent. *)
Definition budget (tokens : list Token) : nat := (2 * length tokens + 2)%nat.

Definition parse (tokens : list Token) : result Query :=
  let* (ast, _) := parseClauses (budget tokens) tokens in
  Ok ast.

Definition message (e : exn) : string :=
  match e with
  | Error msg | SyntaxError msg | RangeError msg | TypeError msg => msg
  end.

(** [parseQuery]; [fuel] is the budget of [tokenize]. *)
Definition parseQuery (fuel : nat) (query : string) : result Query :=
  match
    (let* tokens := tokenize fuel (Lexer.new query) in
     parse tokens)
  with
  | Throw e => Throw (Error ("Parse error: " ++ message e))
  | r => r
  end.

End Parser.

(* ===================================================================== *)
(** * src/sql/query-engine.js *)
(* ===================================================================== *)

(** The functions of the file by what they return. Only the filter is
    given with an exception here, that of the [RegExp] of LIKE; the two
    other expressions that can throw instead of returning are the subject
    of [Exceptions], below. *)
Module Engine.
Import Parser.

(** A row is an object used as a map from column names to cells. A key
    that is missing reads as undefined, which every use below treats like
    null. Only a row's own fields are modelled, not what an object
    inherits from its prototype. *)
Abbreviation Row := (gmap string JS.value).

(** [row[key]], undefined read as null *)
Definition prop (row : Row) (key : string) : JS.value :=
  match row !! key with
  | Some v => v
  | None => JS.VNull
  end.

(** [a ?? b] *)
Definition nullish (a b : JS.value) : JS.value :=
  if JS.isNullish a then b else a.

(** [const [table, col] = column.split('.')]: the second piece *)
Definition afterDot (column : string) : string :=
  nth 1 (JS.split "." column) EmptyString.

Definition getValue (row : Row) (column : string) : JS.value :=
  if JS.includesChar "." column then
    nullish (prop row (afterDot column)) (nullish (prop row column) JS.VNull)
  else nullish (prop row column) JS.VNull.

(** The operand of a comparison as the scalar operators see it: an array
    enters [==], [parseFloat] and [String] through its text. *)
Definition operandValue (o : Operand) : JS.value :=
  match o with
  | Scalar v => v
  | Values vs => JS.VStr (JS.arrayToString vs)
  end.

(** [${col.type}_${col.column || '*'}] under [col.alias ||] *)
Definition aggregateAlias (aggType column : string) (alias : option string) : string :=
  match alias with
  | Some (String c a) => String c a
  | _ =>
      (aggType ++ "_" ++ match column with EmptyString => "*" | _ => column end)%string
  end.

Definition isAggregation (col : ColumnSpec) : bool :=
  match col with
  | ColAgg t _ _ => JS.includesStr aggregateNames t
  | _ => false
  end.

(** [parseFloat(v) || v] *)
Definition numericOrRaw (v : JS.value) : JS.value :=
  JS.orElse (JS.VNum (JS.parseFloat v)) v.

Section WithHost.
Context `{Host}.

Definition compareValues (a b : JS.value) : JS.number :=
  if JS.isNullish a && JS.isNullish b then JS.ofZ 0
  else if JS.isNullish a then JS.ofZ (-1)
  else if JS.isNullish b then JS.ofZ 1
  else
    let na := JS.parseFloat a in
    let nb := JS.parseFloat b in
    if negb (JS.isNaN na) && negb (JS.isNaN nb) then JS.sub na nb
    else JS.ofZ (localeCompare (JS.toString a) (JS.toString b)).

(** The pattern of LIKE as handed to [new RegExp] *)
Definition likeSource (v : JS.value) : string :=
  let pattern :=
    JS.replaceAll "_" "."
      (JS.replaceAll "%" ".*"
         (JS.toLowerCase (JS.toString (JS.orElse v (JS.VStr ""))))) in
  ("^" ++ pattern ++ "$")%string.

(** [evaluateCondition]. Its [!condition] guard answers for an absent
    node; the tree has none, and [executeQuery] tests [ast.where] itself.
    A comparison node whose type spells AND, OR or NOT (the parser builds
    none) would find its operands absent. *)
Fixpoint evaluateCondition (row : Row) (condition : Condition) : result bool :=
  match condition with
  | And l r =>
      let* a := evaluateCondition row l in
      if (a : bool) then evaluateCondition row r else Ok false
  | Or l r =>
      let* a := evaluateCondition row l in
      if (a : bool) then Ok true else evaluateCondition row r
  | Not c =>
      let* a := evaluateCondition row c in
      Ok (negb a)
  | Compare operator column value =>
      let v := operandValue value in
      if String.eqb operator "AND" || String.eqb operator "OR" then Ok true
      else if String.eqb operator "NOT" then Ok false
      else if String.eqb operator "=" || String.eqb operator "==" then
        Ok (JS.looseEq (getValue row column) v)
      else if String.eqb operator "!=" || String.eqb operator "<>" then
        Ok (negb (JS.looseEq (getValue row column) v))
      else if String.eqb operator ">" then
        Ok (JS.gtb (compareValues (getValue row column) v) JS.zero)
      else if String.eqb operator ">=" then
        Ok (JS.geb (compareValues (getValue row column) v) JS.zero)
      else if String.eqb operator "<" then
        Ok (JS.ltb (compareValues (getValue row column) v) JS.zero)
      else if String.eqb operator "<=" then
        Ok (JS.leb (compareValues (getValue row column) v) JS.zero)
      else if String.eqb operator "LIKE" then
        let subject :=
          JS.toLowerCase
            (JS.toString (JS.orElse (getValue row column) (JS.VStr ""))) in
        regexp_test (likeSource v) subject
      else if String.eqb operator "IN" then
        let colValue := getValue row column in
        Ok (match value with
            | Values vs => JS.includes vs colValue
            | Scalar _ => false
            end)
      else Ok true
  end.

(** The sum of [SUM] and [AVG]: [reduce] from 0, a cell that does not
    parse counting as 0. *)
Definition sumColumn (rows : list Row) (column : string) : JS.number :=
  fold_left
    (fun sum r =>
       let val := JS.parseFloat (getValue r column) in
       JS.add sum (if JS.isNaN val then JS.zero else val))
    rows JS.zero.

Definition nonNull (rows : list Row) (column : string) : list JS.value :=
  List.filter (fun v => negb (JS.isNullish v))
    (List.map (fun r => getValue r column) rows).

(** The [switch (col.type)] that [selectColumns] and [aggregate] share word
    for word: the value stored under the alias, if the type has a case.
    For MIN and MAX it is the value of the call when the call is made
    ([Exceptions.computeAggregate] has the other outcome). *)
Definition computeAggregate (aggType column : string) (rows : list Row)
  : option JS.value :=
  if String.eqb aggType "COUNT" then
    Some (JS.VNum (JS.ofNat
      (if String.eqb column "*" then length rows
       else length (nonNull rows column))))
  else if String.eqb aggType "SUM" then
    Some (JS.VNum (sumColumn rows column))
  else if String.eqb aggType "AVG" then
    Some (JS.VNum
      (if (0 <? length rows)%nat
       then JS.div (sumColumn rows column) (JS.ofNat (length rows))
       else JS.zero))
  else if String.eqb aggType "MIN" then
    let minVals := nonNull rows column in
    Some (if (0 <? length minVals)%nat
          then JS.VNum (JS.mathMin (List.map numericOrRaw minVals))
          else JS.VNull)
  else if String.eqb aggType "MAX" then
    let maxVals := nonNull rows column in
    Some (if (0 <? length maxVals)%nat
          then JS.VNum (JS.mathMax (List.map numericOrRaw maxVals))
          else JS.VNull)
  else None.

(** [result[key] = v] *)
Definition assign (key : string) (v : JS.value) (result : Row) : Row :=
  <[key := v]> result.

Definition assignAggregate (rows : list Row) (aggType column : string)
    (alias : option string) (result : Row) : Row :=
  match computeAggregate aggType column rows with
  | Some v => assign (aggregateAlias aggType column alias) v result
  | None => result
  end.

Definition firstValue (rows : list Row) (column : string) : JS.value :=
  match rows with
  | r :: _ => getValue r column
  | [] => JS.VNull
  end.

(** One turn of the [columns.forEach] that builds the single row of an
    aggregation without GROUP BY. An object with an empty [type] or
    [column] fails the source's truthiness tests. *)
Definition collapseColumn (rows : list Row) (result : Row) (col : ColumnSpec) : Row :=
  match col with
  | ColAgg (String c t) column alias =>
      assignAggregate rows (String c t) column alias result
  | ColAgg EmptyString EmptyString _ => result
  | ColAgg EmptyString column alias =>
      assign (match alias with Some (String c a) => String c a | _ => column end)
        (firstValue rows column) result
  | ColName col => assign col (firstValue rows col) result
  | ColAlias EmptyString _ => result
  | ColAlias column alias =>
      assign (match alias with EmptyString => column | _ => alias end)
        (firstValue rows column) result
  end.

(** One turn of the [columns.forEach] of the plain projection. The parser
    builds no object with an empty [column]; with a column,
    [col.column || col] is the column. Without one the source throws
    ([Exceptions.projectColumn]); what is written here for that case
    stands for no run of the source. *)
Definition projectColumn (row : Row) (result : Row) (col : ColumnSpec) : Row :=
  match col with
  | ColName col => assign col (getValue row col) result
  | ColAgg (String c t) column alias =>
      let alias := aggregateAlias (String c t) column alias in
      assign alias (getValue row alias) result
  | ColAgg EmptyString column alias =>
      assign (match alias with Some (String c a) => String c a | _ => column end)
        (getValue row column) result
  | ColAlias column alias =>
      assign (match alias with EmptyString => column | _ => alias end)
        (getValue row column) result
  end.

Definition selectColumns (rows : list Row) (columns : list ColumnSpec)
    (hasGroupBy : bool) : list Row :=
  match columns with
  | [ColName "*"] => rows
  | _ =>
      let hasAggregations := existsb isAggregation columns in
      if hasAggregations && negb hasGroupBy then
        [fold_left (collapseColumn rows) columns ∅]
      else
        List.map (fun row => fold_left (projectColumn row) columns ∅) rows
  end.

(** The comparator handed to [sort]: the first key on which the rows
    differ decides. *)
Fixpoint compareRows (orderBy : list OrderSpec) (a b : Row) : JS.number :=
  match orderBy with
  | [] => JS.ofZ 0
  | order :: rest =>
      let aVal := getValue a (column order) in
      let bVal := getValue b (column order) in
      let comparison := compareValues aVal bVal in
      if negb (JS.eqb comparison JS.zero) then
        (if String.eqb (direction order) "DESC" then JS.neg comparison
         else comparison)
      else compareRows rest a b
  end.

Definition sortRows (rows : list Row) (orderBy : option (list OrderSpec)) : list Row :=
  match orderBy with
  | None | Some [] => rows
  | Some orderBy => JS.sort (compareRows orderBy) rows
  end.

Definition getGroupKey (row : Row) (groupBy : list string) : string :=
  JS.join "::"
    (List.map
       (fun col => JS.toString (JS.orElse (getValue row col) (JS.VStr "")))
       groupBy).

(** [aggregate]: [groupBy] calls it on groups that hold a row; [group[0]]
    of an empty group has no cells here. *)
Definition aggregate (group : list Row) (groupByColumns : list string)
    (selectColumns : list ColumnSpec) : Row :=
  let result :=
    fold_left (fun result col => assign col (firstValue group col) result)
      groupByColumns ∅ in
  fold_left
    (fun result col =>
       match col with
       | ColAgg (String c t) column alias =>
           assignAggregate group (String c t) column alias result
       | _ => result
       end)
    selectColumns result.

(** The [Map] of [groupBy]: keys in insertion order, each with its array. *)
Definition Groups : Type := list (string * list Row).

(** [if (!groups.has(key)) groups.set(key, []); groups.get(key).push(row)] *)
Fixpoint pushToGroup (key : string) (row : Row) (groups : Groups) : Groups :=
  match groups with
  | [] => [(key, [row])]
  | (k, g) :: rest =>
      if String.eqb k key then (k, g ++ [row]) :: rest
      else (k, g) :: pushToGroup key row rest
  end.

Definition groupRows (rows : list Row) (groupBy : list string) : Groups :=
  fold_left (fun groups row => pushToGroup (getGroupKey row groupBy) row groups)
    rows [].

Definition groupBy (rows : list Row) (groupBy : option (list string))
    (columns : list ColumnSpec) : list Row :=
  match groupBy with
  | None | Some [] => rows
  | Some groupBy =>
      List.map (fun '(_, group) => aggregate group groupBy columns)
        (groupRows rows groupBy)
  end.

(** [{ ...leftRow, ...rightRow }]: the right row's fields win. *)
Definition merge (leftRow rightRow : Row) : Row := rightRow ∪ leftRow.

Definition joinColumn (name : string) : string :=
  if JS.includesChar "." name then afterDot name else name.

(** The row of nulls of a LEFT join, from [Object.keys(rightRows[0])] *)
Definition rightEmpty (rightRows : list Row) : Row :=
  match rightRows with
  | r0 :: _ => (fun _ => JS.VNull) <$> r0
  | [] => ∅
  end.

Definition joinRow (rightRows : list Row) (joinType leftCol rightCol : string)
    (leftRow : Row) : list Row :=
  let leftValue := getValue leftRow leftCol in
  let matches :=
    List.filter (fun rightRow => JS.looseEq leftValue (getValue rightRow rightCol))
      rightRows in
  if (0 <? length matches)%nat then List.map (merge leftRow) matches
  else if String.eqb joinType "LEFT" then [merge leftRow (rightEmpty rightRows)]
  else [].

Definition performJoin (leftRows rightRows : list Row) (joinSpec : option JoinSpec)
  : list Row :=
  match joinSpec with
  | None => leftRows
  | Some spec =>
      let leftCol := joinColumn (onLeft spec) in
      let rightCol := joinColumn (onRight spec) in
      if String.eqb (joinType spec) "INNER" || String.eqb (joinType spec) "LEFT"
      then flat_map (joinRow rightRows (joinType spec) leftCol rightCol) leftRows
      else []
  end.

(** The stages of [executeQuery], one definition each. [rightData] is
    [options.rightData]: an array, even an empty one, is truthy. *)
Definition joinStage (ast : Query) (rightData : option (list Row))
    (rows : list Row) : list Row :=
  match join ast, rightData with
  | Some spec, Some rightRows => performJoin rows rightRows (Some spec)
  | _, _ => rows
  end.

Definition whereStage (ast : Query) (rows : list Row) : result (list Row) :=
  match where_ ast with
  | Some condition => filterM (fun row => evaluateCondition row condition) rows
  | None => Ok rows
  end.

Definition groupStage (ast : Query) (rows : list Row) : list Row :=
  match Parser.groupBy ast with
  | Some (c :: cs) => groupBy rows (Some (c :: cs)) (columns ast)
  | _ => selectColumns rows (columns ast) false
  end.

Definition orderStage (ast : Query) (rows : list Row) : list Row :=
  match orderBy ast with
  | Some orders => sortRows rows (Some orders)
  | None => rows
  end.

Definition limitStage (ast : Query) (rows : list Row) : list Row :=
  match limit ast with
  | Some n => if JS.truthy (JS.VNum n) then JS.slice0 rows n else rows
  | None => rows
  end.

Definition executeQuery (ast : Query) (data : list Row)
    (rightData : option (list Row)) : result (list Row) :=
  match data with
  | [] => Ok []
  | _ =>
      let rows := joinStage ast rightData data in
      let* rows := whereStage ast rows in
      let rows := groupStage ast rows in
      let rows := orderStage ast rows in
      Ok (limitStage ast rows)
  end.

End WithHost.
End Engine.

(* ===================================================================== *)
(** * src/sql/query-engine.js: the calls that throw *)
(* ===================================================================== *)

(** [Engine] gives what the functions of the file return. Besides the
    [RegExp] of LIKE, two of their expressions can throw instead:
    - [Math.min(...vals)] and [Math.max(...vals)] hand every element of
      [vals] to the call as an argument of its own; with more elements
      than [argumentLimit] the call throws a RangeError;
    - in the plain projection [col.column || col] is the object [col]
      itself when its [column] is empty, and [getValue] then calls
      [column.includes], which an object does not have: a TypeError.
    This module goes through [selectColumns], [aggregate], [groupBy] and
    [executeQuery] once more with these outcomes. An exception leaves the
    [forEach] or [map] it is thrown in, and the function with it. A
    function that returns here returns what its namesake of [Engine]
    returns ([ExceptionFacts.executeQuery_returns]). The depth of the call
    stack is not modelled. *)
Module Exceptions.
Import Parser Engine.
#[local] Open Scope string_scope.

(** The two exceptions, in the words of V8. [res] below is the object
    that the source calls [result]. *)
Definition tooManyArguments : exn :=
  RangeError "Maximum call stack size exceeded".
Definition notAFunction : exn :=
  TypeError "column.includes is not a function".

(** [items.forEach(item => ...)] on a state that the callback updates and
    may leave by throwing *)
Fixpoint forEach {S A : Type} (f : S -> A -> result S) (items : list A) (state : S)
  : result S :=
  match items with
  | [] => Ok state
  | item :: items' =>
      let* state' := f state item in
      forEach f items' state'
  end.

(** [items.map(f)] with a callback that may throw *)
Fixpoint mapM {A B : Type} (f : A -> result B) (items : list A) : result (list B) :=
  match items with
  | [] => Ok []
  | item :: items' =>
      let* b := f item in
      let* bs := mapM f items' in
      Ok (b :: bs)
  end.

Section WithHost.
Context `{Host}.

(** [f(...args)] *)
Definition spread {A : Type} (f : list JS.value -> A) (args : list JS.value)
  : result A :=
  if (length args <=? argumentLimit)%nat then Ok (f args)
  else Throw tooManyArguments.

(** The [switch (col.type)]: the cases of MIN and MAX make the spread
    call, the others return. *)
Definition computeAggregate (aggType column : string) (rows : list Row)
  : result (option JS.value) :=
  if String.eqb aggType "MIN" then
    let minVals := nonNull rows column in
    if (0 <? length minVals)%nat then
      let* least := spread JS.mathMin (List.map numericOrRaw minVals) in
      Ok (Some (JS.VNum least))
    else Ok (Some JS.VNull)
  else if String.eqb aggType "MAX" then
    let maxVals := nonNull rows column in
    if (0 <? length maxVals)%nat then
      let* greatest := spread JS.mathMax (List.map numericOrRaw maxVals) in
      Ok (Some (JS.VNum greatest))
    else Ok (Some JS.VNull)
  else Ok (Engine.computeAggregate aggType column rows).

Definition assignAggregate (rows : list Row) (aggType column : string)
    (alias : option string) (res : Row) : result Row :=
  let* computed := computeAggregate aggType column rows in
  Ok (match computed with
      | Some v => assign (aggregateAlias aggType column alias) v res
      | None => res
      end).

(** One turn of the [columns.forEach] of an aggregation without GROUP BY:
    only an aggregate call can throw. *)
Definition collapseColumn (rows : list Row) (res : Row) (col : ColumnSpec)
  : result Row :=
  match col with
  | ColAgg (String c t) column alias =>
      assignAggregate rows (String c t) column alias res
  | _ => Ok (Engine.collapseColumn rows res col)
  end.

(** One turn of the [columns.forEach] of the plain projection: an object
    with neither [type] nor [column] is handed to [getValue] as the
    column. *)
Definition projectColumn (row : Row) (res : Row) (col : ColumnSpec)
  : result Row :=
  match col with
  | ColAlias EmptyString _ | ColAgg EmptyString EmptyString _ => Throw notAFunction
  | _ => Ok (Engine.projectColumn row res col)
  end.

Definition selectColumns (rows : list Row) (columns : list ColumnSpec)
    (hasGroupBy : bool) : result (list Row) :=
  match columns with
  | [ColName "*"] => Ok rows
  | _ =>
      let hasAggregations := existsb isAggregation columns in
      if hasAggregations && negb hasGroupBy then
        let* res := forEach (collapseColumn rows) columns ∅ in
        Ok [res]
      else
        mapM (fun row => forEach (projectColumn row) columns ∅) rows
  end.

Definition aggregate (group : list Row) (groupByColumns : list string)
    (selectColumns : list ColumnSpec) : result Row :=
  let res :=
    fold_left (fun res col => assign col (firstValue group col) res)
      groupByColumns ∅ in
  forEach
    (fun res col =>
       match col with
       | ColAgg (String c t) column alias =>
           assignAggregate group (String c t) column alias res
       | _ => Ok res
       end)
    selectColumns res.

Definition groupBy (rows : list Row) (groupBy : option (list string))
    (columns : list ColumnSpec) : result (list Row) :=
  match groupBy with
  | None | Some [] => Ok rows
  | Some groupBy =>
      mapM (fun '(_, group) => aggregate group groupBy columns)
        (groupRows rows groupBy)
  end.

Definition groupStage (ast : Query) (rows : list Row) : result (list Row) :=
  match Parser.groupBy ast with
  | Some (c :: cs) => groupBy rows (Some (c :: cs)) (columns ast)
  | _ => selectColumns rows (columns ast) false
  end.

(** [executeQuery]: the join, the sort and the slice return; the filter
    throws what the [RegExp] of a LIKE throws (as in [Engine]); the
    grouping and the projection throw as above. *)
Definition executeQuery (ast : Query) (data : list Row)
    (rightData : option (list Row)) : result (list Row) :=
  match data with
  | [] => Ok []
  | _ =>
      let rows := joinStage ast rightData data in
      let* rows := whereStage ast rows in
      let* rows := groupStage ast rows in
      let rows := orderStage ast rows in
      Ok (limitStage ast rows)
  end.

End WithHost.
End Exceptions.

(* ===================================================================== *)
(** * src/standalone/app.js: the callers of the query language *)
(* ===================================================================== *)

(** The SQL tab of the application calls [parseQuery] and [executeQuery]
    and shows or exports what they return. The parts that are functions of
    their arguments are modelled: reading the page, loading the sheets and
    writing the table are not. *)
Module App.
Import Lexer Parser Engine.
#[local] Open Scope string_scope.

(** [escapeHtml]: three replacements, the ampersand first. *)
Definition escapeHtml (str : string) : string :=
  JS.replaceAll ">" "&gt;" (JS.replaceAll "<" "&lt;" (JS.replaceAll "&" "&amp;" str)).

(** [val != null ? String(val) : ''], the text of a cell in the table of
    results and in the exported file *)
Definition cellText (v : JS.value) : string :=
  if JS.isNullish v then "" else JS.toString v.

(** The field of [exportCsv] for the text of a cell: quoted, with every
    quote doubled, when the text holds a semicolon or a quote. *)
Definition csvField (str : string) : string :=
  if JS.includesChar ";" str || JS.includesChar doubleQuote str then
    String doubleQuote
      (JS.replaceAll doubleQuote (String doubleQuote (String doubleQuote "")) str
       ++ String doubleQuote "")
  else str.

Definition lineFeed : string := String (ascii_of_nat 10) "".

(** The fields of one line of the file: the cells of [row] under
    [columns], joined by semicolons *)
Definition csvRecord (columns : list string) (row : Row) : string :=
  JS.join ";" (List.map (fun col => csvField (cellText (prop row col))) columns).

(** [exportCsv], up to the text handed to the [Blob]: nothing for an empty
    result; otherwise the names of the first row's fields, unquoted, then
    a line per row. [keys] is [Object.keys]. *)
Definition exportCsv (keys : Row -> list string) (sqlQueryResults : list Row)
  : option string :=
  match sqlQueryResults with
  | [] => None
  | first :: _ =>
      let columns := keys first in
      Some (fold_left (fun csv row => csv ++ csvRecord columns row ++ lineFeed)
              sqlQueryResults (JS.join ";" columns ++ lineFeed))
  end.

Section WithHost.
Context `{Host}.

(** [executeSQLQuery] with a source sheet chosen and loaded. The text of
    the input field is trimmed; when nothing is left the function asks for
    a query with an alert and returns, calling neither [parseQuery] nor
    [executeQuery]: [None]. Otherwise the text is parsed and the tree
    executed on the rows of the source sheet, with the rows of the sheet
    to join when one is chosen; what is thrown is what the function's
    [catch] receives and shows. [fuel] is the budget of [tokenize]. *)
Definition executeSQLQuery (fuel : nat) (queryInput : string) (rows : list Row)
    (rightData : option (list Row)) : option (result (list Row)) :=
  let query := JS.trim queryInput in
  match query with
  | EmptyString => None
  | _ =>
      Some (let* ast := parseQuery fuel query in
            Exceptions.executeQuery ast rows rightData)
  end.

End WithHost.
End App.

(* ===================================================================== *)
(** * A reference host *)
(* ===================================================================== *)

(** An instance of [Host] to run the definitions on. Collation is the
    order of code units. The regular-expression engine covers the patterns
    made of literal characters, [.], [^], [$], groups, [|] and the
    quantifiers [*], [+], [?]: what LIKE builds from text without brackets,
    braces or backslashes. On a pattern outside that fragment it gives no
    answer ([Timeout]). A call takes 125000 arguments, the order of what
    V8 takes on a shallow stack. No theorem that is stated for every host
    depends on any of the three. *)
Module Reference.
#[local] Open Scope string_scope.

Definition codeUnitCompare (a b : string) : Z :=
  match String.compare a b with
  | Lt => (-1)%Z
  | Eq => 0%Z
  | Gt => 1%Z
  end.

Inductive regex : Type :=
| Eps | Nul
| Chr (c : ascii)
| Dot                      (* any character but a line terminator *)
| Any                      (* any character *)
| Bol | Eol                (* the assertions ^ and $ *)
| Cat (r s : regex)
| Alt (r s : regex)
| Star (r : regex).

Definition isQuantifier (c : ascii) : bool :=
  Ascii.eqb c "*" || Ascii.eqb c "+" || Ascii.eqb c "?".

Definition outsideFragment (c : ascii) : bool :=
  Ascii.eqb c "[" || Ascii.eqb c "]" || Ascii.eqb c "{" || Ascii.eqb c "}"
  || Ascii.eqb c "\".

(** A quantifier after an atom, then the lazy mark [?] if there is one. *)
Definition quantified (r : regex) (s : string) : regex * string :=
  let lazyMark s := match s with String "?" s' => s' | _ => s end in
  match s with
  | String "*" s' => (Star r, lazyMark s')
  | String "+" s' => (Cat r (Star r), lazyMark s')
  | String "?" s' => (Alt r Eps, lazyMark s')
  | _ => (r, s)
  end.

Definition nothingToRepeat {A} : result A := Throw (SyntaxError "Nothing to repeat").

Fixpoint parseAlternatives (fuel : nat) (s : string) : result (regex * string) :=
  match fuel with
  | O => Timeout
  | S fuel' =>
      let* (r, s) := parseSequence fuel' s in
      match s with
      | String "|" s' =>
          let* (r', s) := parseAlternatives fuel' s' in
          Ok (Alt r r', s)
      | _ => Ok (r, s)
      end
  end

(** a group, entered after its opening parenthesis *)
with parseGroup (fuel : nat) (s : string) : result (regex * string) :=
  match fuel with
  | O => Timeout
  | S fuel' =>
      let* (r, s) := parseAlternatives fuel' s in
      match s with
      | String ")" s' =>
          let '(r, s) := quantified r s' in
          let* (r', s) := parseSequence fuel' s in
          Ok (Cat r r', s)
      | _ => Throw (SyntaxError "Unterminated group")
      end
  end

with parseSequence (fuel : nat) (s : string) : result (regex * string) :=
  match fuel with
  | O => Timeout
  | S fuel' =>
      match s with
      | EmptyString | String "|" _ | String ")" _ => Ok (Eps, s)
      | String "(" (String "?" (String c s')) =>
          if Ascii.eqb c ":" then parseGroup fuel' s' else Timeout
      | String "(" s' => parseGroup fuel' s'
      | String c s' =>
          if isQuantifier c then nothingToRepeat
          else if outsideFragment c then Timeout
          else if Ascii.eqb c "^" || Ascii.eqb c "$" then
            match s' with
            | String q _ =>
                if isQuantifier q then nothingToRepeat
                else
                  let* (r', s) := parseSequence fuel' s' in
                  Ok (Cat (if Ascii.eqb c "^" then Bol else Eol) r', s)
            | EmptyString => Ok (if Ascii.eqb c "^" then Bol else Eol, s')
            end
          else
            let '(r, s) := quantified (if Ascii.eqb c "." then Dot else Chr c) s' in
            let* (r', s) := parseSequence fuel' s in
            Ok (Cat r r', s)
      end
  end.

(** [new RegExp(source)] *)
Definition compile (source : string) : result regex :=
  let* (r, rest) := parseAlternatives (3 * String.length source + 3) source in
  match rest with
  | EmptyString => Ok r
  | _ => Throw (SyntaxError "Unmatched ')'")
  end.

Definition isLineTerminator (c : ascii) : bool :=
  (JS.code c =? 10)%nat || (JS.code c =? 13)%nat.

(** Can [r] match the empty string here: [st] at the start of the subject,
    [en] at its end. *)
Fixpoint nullable (st en : bool) (r : regex) : bool :=
  match r with
  | Eps | Star _ => true
  | Nul | Chr _ | Dot | Any => false
  | Bol => st
  | Eol => en
  | Cat r s => nullable st en r && nullable st en s
  | Alt r s => nullable st en r || nullable st en s
  end.

Definition cat (r s : regex) : regex :=
  match r, s with
  | Nul, _ | _, Nul => Nul
  | Eps, _ => s
  | _, _ => Cat r s
  end.

Definition alt (r s : regex) : regex :=
  match r, s with
  | Nul, _ => s
  | _, Nul => r
  | _, _ => Alt r s
  end.

(** What is left of [r] after it has read [c]. *)
Fixpoint derive (st : bool) (c : ascii) (r : regex) : regex :=
  match r with
  | Eps | Nul | Bol | Eol => Nul
  | Chr d => if Ascii.eqb c d then Eps else Nul
  | Dot => if isLineTerminator c then Nul else Eps
  | Any => Eps
  | Cat r s =>
      alt (cat (derive st c r) s)
          (if nullable st false r then derive st c s else Nul)
  | Alt r s => alt (derive st c r) (derive st c s)
  | Star r => cat (derive st c r) (Star r)
  end.

Fixpoint matchesFrom (st : bool) (r : regex) (subject : string) : bool :=
  match subject with
  | EmptyString => nullable st true r
  | String c rest => matchesFrom false (derive st c r) rest
  end.

(** [regex.test(subject)]: a match anywhere in the subject *)
Definition test (r : regex) (subject : string) : bool :=
  matchesFrom true (Cat (Star Any) (Cat r (Star Any))) subject.

#[export] Instance host : Host := {|
  localeCompare := codeUnitCompare;
  regexp_test := fun source subject =>
    let* r := compile source in
    Ok (test r subject);
  argumentLimit := 125 * 1000
|}.

End Reference.

(* ===================================================================== *)
(** * Notions of the statements, and the examples *)
(* ===================================================================== *)

Module Notions.
Import Lexer Parser Engine.
#[local] Open Scope string_scope.

(** ** The lexer *)

(** A character that opens none of the five token classes and cannot be
    part of an identifier either. *)
Definition unrecognized (c : ascii) : bool :=
  negb (JS.isSpace c || Ascii.eqb c doubleQuote || Ascii.eqb c "'" || JS.isDigit c
        || isOperatorChar c || isPunctuationChar c
        || JS.isWord c || Ascii.eqb c ".").

(** Every character of the text opens a token or is part of one. *)
Fixpoint allRecognized (s : string) : bool :=
  match s with
  | EmptyString => true
  | String c s' => negb (unrecognized c) && allRecognized s'
  end.

(** [lx'] is what a reader left of [lx]: no longer, and recognized
    throughout if [lx] was. *)
Definition leftOf (lx' lx : string) : Prop :=
  String.length lx' <= String.length lx
  /\ (allRecognized lx = true -> allRecognized lx' = true).

(** ** Grouping *)







(** ** Ordering *)

Section Comparator.
Context {A : Type} (cmp : A -> A -> JS.number).



(** Neither is after the other, and neither before. *)
Definition tied (a b : A) : bool :=
  negb (JS.positive (cmp a b)) && negb (JS.negative (cmp a b)).

(** A consistent comparator in the sense of ECMAScript, for the elements
    of [l]: its result is never NaN; [a] is before [b] exactly when [b] is
    after [a]; being before, being after and being tied are transitive.
    For such a comparator [sort] is asked to return the sorted, stable
    arrangement; for any other the order is the engine's choice. *)
Definition consistentComparator (l : list A) : bool :=
  forallb (fun x => forallb (fun y =>
    negb (JS.isNaN (cmp x y))
    && Bool.eqb (JS.negative (cmp x y)) (JS.positive (cmp y x))
    && forallb (fun z =>
         implb (JS.negative (cmp x y) && JS.negative (cmp y z))
               (JS.negative (cmp x z))
         && implb (JS.positive (cmp x y) && JS.positive (cmp y z))
                  (JS.positive (cmp x z))
         && implb (tied x y && tied y z) (tied x z)) l) l) l.

End Comparator.




(** ** Conditions *)

(** No LIKE anywhere in the condition *)
Fixpoint withoutLike (condition : Condition) : bool :=
  match condition with
  | And l r | Or l r => withoutLike l && withoutLike r
  | Not c => withoutLike c
  | Compare operator _ _ => negb (String.eqb operator "LIKE")
  end.

(** ** Joins *)

(** The reading of a RIGHT join as no join at all: the join stage hands
    the primary rows on. *)
Definition rightJoinKeepsPrimary (ast : Query) (rightRows data : list Row) : Prop :=
  forall spec, join ast = Some spec -> joinType spec = "RIGHT" ->
  joinStage ast (Some rightRows) data = data.

(** ** Examples *)

Definition num (z : Z) : JS.value := JS.VNum (JS.ofZ z).
Definition str (s : string) : JS.value := JS.VStr s.

(** The tokens of [SELECT a FROM t GROUP BY a ORDER BY b] *)
Definition groupThenOrder : list Token :=
  [TKeyword "SELECT"; TIdentifier "a"; TKeyword "FROM"; TIdentifier "t";
   TKeyword "GROUP"; TKeyword "BY"; TIdentifier "a";
   TKeyword "ORDER"; TKeyword "BY"; TIdentifier "b"; TEOF].

(** The tree of [SELECT * <kind> JOIN u ON id = id] *)
Definition selectAllJoin (kind : string) : Query :=
  mkQuery [ColName "*"] None None None None (Some (mkJoin kind "u" "id" "id")) None.

(** The primary rows [{id: 1}], [{id: 2}] and the secondary row
    [{id: 1, x: "A"}] of the LEFT join example *)
Definition primaryRows : list Row := [{["id" := num 1]}; {["id" := num 2]}].
Definition secondaryRows : list Row := [{["id" := num 1; "x" := str "A"]}].

(** The tree of [SELECT MIN(v) AS lo] *)
Definition selectMin : Query :=
  mkQuery [ColAgg "MIN" "v" (Some "lo")] None None None None None None.

(** [SELECT a FROM t LIMIT 0] *)
Definition selectLimitZero : Query :=
  mkQuery [ColName "a"] (Some "t") None None None None (Some (JS.ofZ 0)).

(** The select list of the group-by columns and a count of rows [n] *)
Definition countBy (cols : list string) : list ColumnSpec :=
  (List.map ColName cols ++ [ColAgg "COUNT" "*" (Some "n")])%list.

(** The rows and the select list of the group aggregation example: [env],
    the count of rows as [c], the sum of [v] as [s] *)
Definition exampleRows : list Row :=
  [{["env" := str "prod"; "v" := str "1"]};
   {["env" := str "prod"; "v" := str "3"]};
   {["env" := str "dev"; "v" := str "5"]}].

Definition exampleColumns : list ColumnSpec :=
  [ColName "env"; ColAgg "COUNT" "*" (Some "c"); ColAgg "SUM" "v" (Some "s")].


(** Rows whose cells mix numbers and text *)
Definition mixedRows : list Row :=
  [{["v" := str "3"]}; {["v" := str "$x"]}; {["v" := str " 3.0"]}].

End Notions.

(* ===================================================================== *)
(** * Notions of the further properties *)
(* ===================================================================== *)

Module Terms.
Import Lexer Parser Engine App.
#[local] Open Scope string_scope.

(** ** Tokens *)

(** The texts [readOperator] can return, and the punctuation marks *)
Definition lexedOperators : list string :=
  ["="; "=="; "<"; "<="; "<>"; ">"; ">="; "!"].

Definition punctuationMarks : list string := ["("; ")"; ","; ";"].

Fixpoint allChars (f : ascii -> bool) (s : string) : bool :=
  match s with
  | EmptyString => true
  | String c s' => f c && allChars f s'
  end.

Definition identifierChar (c : ascii) : bool := JS.isWord c || Ascii.eqb c ".".

(** Neither NaN nor below zero *)
Definition nonNegative (n : JS.number) : bool :=
  match n with
  | JS.NaN => false
  | JS.Inf negative => negb negative
  | JS.Fin q => Qle_bool 0 q
  end.

(** A token as the lexer makes them: a keyword is one of [KEYWORDS]; an
    identifier is a non-empty run of word characters and dots that is no
    keyword in any letter case; a number is not negative; an operator and
    a punctuation mark are among the texts above. *)
Definition wellLexed (t : Token) : bool :=
  match t with
  | TKeyword s => JS.includesStr KEYWORDS s
  | TIdentifier s =>
      negb (String.eqb s "") && allChars identifierChar s
      && negb (JS.includesStr KEYWORDS (JS.toUpperCase s))
  | TString _ => true
  | TNumber n => nonNegative n
  | TOperator s => JS.includesStr lexedOperators s
  | TPunctuation s => JS.includesStr punctuationMarks s
  | TEOF => true
  end.

(** The text of a string literal that reads back as [s]: the quote and the
    backslash are written behind a backslash. *)
Fixpoint escapeLiteral (quote : ascii) (s : string) : string :=
  match s with
  | EmptyString => EmptyString
  | String c s' =>
      if Ascii.eqb c quote || Ascii.eqb c "\"
      then String "\" (String c (escapeLiteral quote s'))
      else String c (escapeLiteral quote s')
  end.

Definition literal (quote : ascii) (s : string) : string :=
  String quote (escapeLiteral quote s ++ String quote EmptyString).

(** Neither the quote nor the backslash *)
Definition plainChar (quote : ascii) (c : ascii) : bool :=
  negb (Ascii.eqb c quote || Ascii.eqb c "\").

(** A character that can open a word: a word character that is no digit,
    or a dot *)
Definition wordStart (c : ascii) : bool := identifierChar c && negb (JS.isDigit c).

(** A word as [readIdentifier] reads one *)
Definition isWordText (s : string) : bool :=
  match s with
  | String c s' => wordStart c && allChars identifierChar s'
  | EmptyString => false
  end.

(** The word ends here: the input does, or a character follows that is no
    part of a word. *)
Definition wordEnd (rest : string) : bool :=
  match rest with
  | String c _ => negb (identifierChar c)
  | EmptyString => true
  end.

(** ** Conditions *)

(** The operators of the comparisons of a condition *)
Fixpoint operators (condition : Condition) : list string :=
  match condition with
  | And l r | Or l r => (operators l ++ operators r)%list
  | Not c => operators c
  | Compare operator _ _ => [operator]
  end.

Definition operatorsLexed (c : Condition) : Prop :=
  forall op, In op (operators c) -> JS.includesStr lexedOperators op = true.

Inductive Connective : Type := AND | OR.

Definition connectiveToken (k : Connective) : Token :=
  TKeyword (match k with AND => "AND" | OR => "OR" end).

Definition connect (k : Connective) : Condition -> Condition -> Condition :=
  match k with AND => And | OR => Or end.

(** The tokens of [column operator 'text'] and the node they parse to *)
Definition comparisonTokens (column operator text : string) : list Token :=
  [TIdentifier column; TOperator operator; TString text].

Definition comparison (column operator text : string) : Condition :=
  Compare operator column (Scalar (JS.VStr text)).

Definition simpleComparison (column operator : string) : bool :=
  wellLexed (TIdentifier column) && wellLexed (TOperator operator).

(** ** Rows *)

(** [table.column] *)
Definition qualified (table column : string) : string :=
  table ++ "." ++ column.

(** The join specification [spec] with another kind of join *)
Definition withJoinType (kind : string) (spec : JoinSpec) : JoinSpec :=
  mkJoin kind (table spec) (onLeft spec) (onRight spec).

(** The select list is the wildcard alone. *)
Definition selectsAll (cols : list ColumnSpec) : bool :=
  match cols with
  | [ColName name] => String.eqb name "*"
  | _ => false
  end.


(** An item of the select list that is a name, or an object with a [type]
    or a [column]: one for which [col.column || col] is not the object. *)
Definition namesColumn (col : ColumnSpec) : bool :=
  match col with
  | ColName _ => true
  | ColAlias column _ => negb (String.eqb column "")
  | ColAgg t column _ => negb (String.eqb t "" && String.eqb column "")
  end.






(** ** Groups *)




(** The rows of all groups, group after group *)
Definition groupedRows (groups : Groups) : list Row :=
  concat (List.map snd groups).

(** ** Exported text *)

(** Reading a line of semicolon-separated fields back. A field that opens
    with a quote runs to its closing quote, a doubled quote in it standing
    for one quote; any other field runs to the next semicolon. *)
Fixpoint readQuoted (s : string) : string * string :=
  match s with
  | EmptyString => (EmptyString, EmptyString)
  | String c s' =>
      if Ascii.eqb c doubleQuote then
        match s' with
        | String d s'' =>
            if Ascii.eqb d doubleQuote
            then let '(field, rest) := readQuoted s'' in (String doubleQuote field, rest)
            else (EmptyString, s')
        | EmptyString => (EmptyString, EmptyString)
        end
      else let '(field, rest) := readQuoted s' in (String c field, rest)
  end.

Fixpoint readUnquoted (s : string) : string * string :=
  match s with
  | EmptyString => (EmptyString, EmptyString)
  | String c s' =>
      if Ascii.eqb c ";" then (EmptyString, s)
      else let '(field, rest) := readUnquoted s' in (String c field, rest)
  end.

Definition readField (s : string) : string * string :=
  match s with
  | String c s' => if Ascii.eqb c doubleQuote then readQuoted s' else readUnquoted s
  | EmptyString => (EmptyString, EmptyString)
  end.

(** The fields of a line; [fuel] bounds their number. *)
Fixpoint readFields (fuel : nat) (s : string) : list string :=
  match fuel with
  | O => []
  | S fuel' =>
      let '(field, rest) := readField s in
      match rest with
      | String ";" rest' => field :: readFields fuel' rest'
      | _ => [field]
      end
  end.

(** What follows a field on its line: nothing, or a semicolon. *)
Definition fieldEnd (rest : string) : Prop :=
  rest = EmptyString \/ exists rest', rest = String ";" rest'.

(** No character of [s] is one of the three that [escapeHtml] replaces. *)
Definition plainText (s : string) : bool :=
  negb (JS.includesChar "&" s || JS.includesChar "<" s || JS.includesChar ">" s).

End Terms.

(* ===================================================================== *)
(** * Outcomes *)
(* ===================================================================== *)

Module ResultFacts.

Lemma bind_Ok {A B : Type} (m : result A) (k : A -> result B) (b : B) :
  bind m k = Ok b <-> exists a, m = Ok a /\ k a = Ok b.
Proof.
  split.
  - destruct m as [a| |]; cbn; intros Hk; try discriminate. eauto.
  - intros (a & -> & Hk). exact Hk.
Qed.

Lemma settled_bind {A B : Type} (m : result A) (k : A -> result B) :
  settled m -> (forall a, m = Ok a -> settled (k a)) -> settled (bind m k).
Proof.
  unfold settled. destruct m as [a| |]; cbn; intros Hm Hk.
  - apply Hk. reflexivity.
  - discriminate.
  - contradiction.
Qed.

Lemma settled_Ok {A : Type} (a : A) : settled (Ok a).
Proof. discriminate. Qed.

Lemma settled_Throw {A : Type} (e : exn) : settled (Throw e : result A).
Proof. discriminate. Qed.

Lemma filterM_total {A : Type} (f : A -> result bool) (l : list A) :
  (forall x, exists b, f x = Ok b) -> exists r, filterM f l = Ok r.
Proof.
  intros Hf. induction l as [|x l [r IH]]; cbn [filterM]; [eauto|].
  destruct (Hf x) as [b ->]. rewrite IH. cbn [bind]. eauto.
Qed.

End ResultFacts.

(* ===================================================================== *)
(** * The lexer: progress *)
(* ===================================================================== *)

Module LexerFacts.
Import Lexer Notions.
#[local] Open Scope string_scope.

(** On such a character [nextToken] falls through to [readIdentifier],
    which reads nothing: the token is an empty identifier and the position
    has not moved. *)
Lemma nextToken_unrecognized (c : ascii) (rest : string) :
  unrecognized c = true ->
  nextToken (String c rest) = (TIdentifier "", String c rest).
Proof.
  unfold unrecognized. intros Hc.
  apply negb_true_iff in Hc.
  apply orb_false_iff in Hc as [Hc Hdot].
  apply orb_false_iff in Hc as [Hc Hword].
  apply orb_false_iff in Hc as [Hc Hpunct].
  apply orb_false_iff in Hc as [Hc Hop].
  apply orb_false_iff in Hc as [Hc Hdigit].
  apply orb_false_iff in Hc as [Hc Hquote'].
  apply orb_false_iff in Hc as [Hspace Hquote].
  unfold nextToken. cbn [skipWhitespace].
  rewrite Hspace, Hquote, Hquote', Hdigit, Hop, Hpunct. cbn [orb].
  unfold readIdentifier. cbn [readWhile].
  rewrite Hword, Hdot. reflexivity.
Qed.

(** A state that [nextToken] leaves where it is, with a token that is not
    the end of input, spends every budget. *)
Lemma tokenizeLoop_stuck (lx : Lexer) (fuel : nat) (tokens : list Token) :
  nextToken lx = (TIdentifier "", lx) ->
  tokenizeLoop fuel lx tokens = Timeout.
Proof.
  intros Hstuck. revert tokens.
  induction fuel as [|fuel IH]; intros tokens; cbn [tokenizeLoop].
  - reflexivity.
  - rewrite Hstuck. apply IH.
Qed.

(** [tokenize] throws nothing, and when it returns, the tokens end with
    the end-of-input token and hold no other. *)
Lemma tokenizeLoop_never_throws (fuel : nat) (lx : Lexer) (tokens : list Token)
    (e : exn) :
  tokenizeLoop fuel lx tokens <> Throw e.
Proof.
  revert lx tokens. induction fuel as [|fuel IH]; intros lx tokens;
    cbn [tokenizeLoop]; [discriminate|].
  destruct (nextToken lx) as [[] lx']; try apply IH. discriminate.
Qed.

Lemma tokenizeLoop_Ok (fuel : nat) (lx : Lexer) (tokens result : list Token) :
  tokenizeLoop fuel lx tokens = Ok result ->
  exists body, result = (tokens ++ body ++ [TEOF])%list
               /\ Forall (fun t => t <> TEOF) body.
Proof.
  revert lx tokens. induction fuel as [|fuel IH]; intros lx tokens;
    cbn [tokenizeLoop]; [discriminate|].
  destruct (nextToken lx) as [token lx'].
  destruct token;
    try (intros Hr; apply IH in Hr as (body & -> & Hbody);
         eexists (_ :: body); split;
         [rewrite <- app_assoc; reflexivity
         | constructor; [discriminate | exact Hbody]]).
  intros Hr. injection Hr as <-. exists []. split; [reflexivity | constructor].
Qed.

Lemma tokenize_Ok (fuel : nat) (input : string) (result : list Token) :
  tokenize fuel (Lexer.new input) = Ok result ->
  exists body, result = (body ++ [TEOF])%list /\ Forall (fun t => t <> TEOF) body.
Proof. unfold tokenize. intros Hr. apply tokenizeLoop_Ok in Hr. exact Hr. Qed.

Lemma leftOf_refl (lx : string) : leftOf lx lx.
Proof. split; [lia | tauto]. Qed.

Lemma leftOf_tail (c : ascii) (lx' lx : string) :
  leftOf lx' lx -> leftOf lx' (String c lx).
Proof.
  intros [Hlen Hrec]. split; [cbn; lia|].
  cbn [allRecognized]. intros Hc. apply andb_true_iff in Hc as [_ Hc]. auto.
Qed.

Lemma skipWhitespace_leftOf (lx : string) : leftOf (skipWhitespace lx) lx.
Proof.
  induction lx as [|c lx IH]; cbn [skipWhitespace]; [apply leftOf_refl|].
  destruct (JS.isSpace c); [apply leftOf_tail; exact IH | apply leftOf_refl].
Qed.

Lemma readWhile_leftOf (f : ascii -> bool) (lx : string) :
  leftOf (snd (readWhile f lx)) lx.
Proof.
  induction lx as [|c lx IH]; cbn [readWhile]; [apply leftOf_refl|].
  destruct (f c); [|apply leftOf_refl].
  destruct (readWhile f lx) as [v lx']. apply leftOf_tail. exact IH.
Qed.

Lemma readStringBody_leftOf (quote : ascii) (lx : string) :
  leftOf (snd (readStringBody quote lx)) lx.
Proof.
  remember (String.length lx) as n eqn:Hn. revert lx Hn.
  induction n as [n IH] using lt_wf_ind. intros lx Hn.
  destruct lx as [|c rest]; cbn [readStringBody]; [apply leftOf_refl|].
  destruct (Ascii.eqb c quote); [apply leftOf_refl|].
  destruct (Ascii.eqb c "\").
  - destruct rest as [|d rest']; [apply leftOf_tail, leftOf_refl|].
    specialize (IH (String.length rest') ltac:(subst n; cbn; lia) rest' eq_refl).
    destruct (readStringBody quote rest') as [v lx'].
    apply leftOf_tail, leftOf_tail. exact IH.
  - specialize (IH (String.length rest) ltac:(subst n; cbn; lia) rest eq_refl).
    destruct (readStringBody quote rest) as [v lx'].
    apply leftOf_tail. exact IH.
Qed.

(** [lx'] is strictly shorter than [String c rest] when it is left of
    [rest]. *)
Lemma leftOf_shorter (lx' rest : string) (c : ascii) :
  leftOf lx' rest -> String.length lx' < String.length (String c rest).
Proof. intros [Hlen _]. cbn. lia. Qed.

Lemma nextToken_progress (lx : Lexer) :
  allRecognized lx = true ->
  fst (nextToken lx) = TEOF
  \/ (String.length (snd (nextToken lx)) < String.length lx
      /\ allRecognized (snd (nextToken lx)) = true).
Proof.
  intros Hrec. unfold nextToken.
  destruct (skipWhitespace_leftOf lx) as [Hlen Hrec1].
  specialize (Hrec1 Hrec).
  destruct (skipWhitespace lx) as [|c rest] eqn:Hskip; [left; reflexivity|].
  right.
  assert (Hgoal : forall lx', leftOf lx' rest ->
            String.length lx' < String.length lx /\ allRecognized lx' = true).
  { intros lx' [Hl Hr]. split; [cbn in Hlen; lia|].
    apply Hr. cbn [allRecognized] in Hrec1.
    apply andb_true_iff in Hrec1 as [_ Hrec1]. exact Hrec1. }
  cbn [allRecognized] in Hrec1. apply andb_true_iff in Hrec1 as [Hc Hrest].
  apply negb_true_iff in Hc.
  destruct (Ascii.eqb c doubleQuote || Ascii.eqb c "'") eqn:Hq.
  { unfold readString.
    pose proof (readStringBody_leftOf c rest) as Hbody.
    destruct (readStringBody c rest) as [v lx']. cbn [snd] in Hbody |- *.
    destruct lx' as [|d rest']; [apply Hgoal; exact Hbody|].
    destruct (Ascii.eqb d c); cbn [snd]; apply Hgoal; [|exact Hbody].
    destruct Hbody as [Hl Hr]. split; [cbn in Hl |- *; lia|].
    intros Ha. specialize (Hr Ha). cbn [allRecognized] in Hr.
    apply andb_true_iff in Hr as [_ Hr]. exact Hr. }
  destruct (JS.isDigit c) eqn:Hd.
  { unfold readNumber. cbn [readWhile]. rewrite Hd. cbn [orb].
    pose proof (readWhile_leftOf (fun c => JS.isDigit c || Ascii.eqb c ".") rest) as Hw.
    destruct (readWhile _ rest) as [v lx']. cbn [snd] in Hw |- *.
    apply Hgoal. exact Hw. }
  destruct (isOperatorChar c) eqn:Hop.
  { unfold readOperator. destruct rest as [|next rest'].
    - cbn [snd]. apply Hgoal, leftOf_refl.
    - destruct (_ && _); cbn [snd]; apply Hgoal;
        [apply leftOf_tail, leftOf_refl | apply leftOf_refl]. }
  destruct (isPunctuationChar c) eqn:Hp.
  { cbn [snd]. apply Hgoal, leftOf_refl. }
  assert (Hw : JS.isWord c || Ascii.eqb c "." = true).
  { unfold unrecognized in Hc. apply negb_false_iff in Hc.
    assert (Hs : JS.isSpace c = false).
    { destruct lx as [|c0 lx0]; [discriminate Hskip|].
      clear - Hskip. revert c0 Hskip. induction lx0 as [|c1 lx0 IH]; intros c0;
        cbn [skipWhitespace]; destruct (JS.isSpace c0) eqn:E.
      - discriminate.
      - intros Heq. injection Heq as <- _. exact E.
      - intros Heq. apply (IH c1). exact Heq.
      - intros Heq. injection Heq as <- _. exact E. }
    apply orb_false_iff in Hq as [Hq1 Hq2].
    rewrite Hs, Hq1, Hq2, Hd, Hop, Hp in Hc. cbn [orb] in Hc. exact Hc. }
  unfold readIdentifier. cbn [readWhile]. rewrite Hw.
  pose proof (readWhile_leftOf (fun c => JS.isWord c || Ascii.eqb c ".") rest) as Hr.
  destruct (readWhile _ rest) as [v lx'] eqn:Hread. cbn [snd] in Hr.
  destruct (JS.includesStr KEYWORDS (JS.toUpperCase (String c v)));
    cbn [snd]; apply Hgoal; exact Hr.
Qed.

Lemma tokenizeLoop_terminates (fuel : nat) (lx : Lexer) (tokens : list Token) :
  allRecognized lx = true -> String.length lx < fuel ->
  exists result, tokenizeLoop fuel lx tokens = Ok result.
Proof.
  revert lx tokens. induction fuel as [|fuel IH]; intros lx tokens Hrec Hf; [lia|].
  cbn [tokenizeLoop].
  destruct (nextToken_progress lx Hrec) as [Heof | [Hlen Hrec']];
    destruct (nextToken lx) as [token lx']; cbn [fst snd] in *.
  - subst token. eauto.
  - destruct token; try (apply IH; [exact Hrec' | lia]). eauto.
Qed.

Lemma rev_string_length (s acc : string) :
  String.length (JS.rev_string s acc) = String.length s + String.length acc.
Proof.
  revert acc. induction s as [|c s IH]; intros acc; cbn [JS.rev_string];
    [reflexivity|].
  rewrite IH. cbn. lia.
Qed.

Lemma rev_string_recognized (s acc : string) :
  allRecognized (JS.rev_string s acc) = allRecognized s && allRecognized acc.
Proof.
  revert acc. induction s as [|c s IH]; intros acc; cbn [JS.rev_string];
    [reflexivity|].
  rewrite IH. cbn [allRecognized].
  destruct (negb (unrecognized c)), (allRecognized s), (allRecognized acc);
    reflexivity.
Qed.

Lemma trimStart_leftOf (s : string) : leftOf (JS.trimStart s) s.
Proof.
  induction s as [|c s IH]; cbn [JS.trimStart]; [apply leftOf_refl|].
  destruct (JS.isSpace c); [apply leftOf_tail; exact IH | apply leftOf_refl].
Qed.

Lemma trim_leftOf (s : string) : leftOf (JS.trim s) s.
Proof.
  unfold JS.trim, JS.trimEnd.
  destruct (trimStart_leftOf s) as [Hl1 Hr1].
  destruct (trimStart_leftOf (JS.rev_string (JS.trimStart s) "")) as [Hl2 Hr2].
  rewrite rev_string_length in Hl2. rewrite rev_string_recognized in Hr2.
  split.
  - rewrite rev_string_length. cbn in Hl2 |- *. lia.
  - intros Hs. rewrite rev_string_recognized, andb_true_r.
    apply Hr2. rewrite andb_true_r. apply Hr1. exact Hs.
Qed.

(** On an input of recognized characters [tokenize] terminates, within one
    call of [nextToken] per character and one for the end of input. *)
Lemma tokenize_terminates (input : string) :
  allRecognized input = true ->
  exists result, tokenize (S (String.length input)) (Lexer.new input) = Ok result.
Proof.
  intros Hrec. destruct (trim_leftOf input) as [Hlen Hr].
  apply tokenizeLoop_terminates; [apply Hr; exact Hrec | unfold Lexer.new; lia].
Qed.

(** C3. [tokenize] does not terminate on every input: on the query
    [SELECT * FROM t] the asterisk is read as an empty identifier without
    the position moving, so the loop of [tokenize] never meets the end of
    input, whatever the number of steps it is given. *)
Theorem tokenize_select_star_diverges :
  forall fuel : nat, tokenize fuel (Lexer.new "SELECT * FROM t") = Timeout.
Proof.
  intros [|[|fuel]]; [reflexivity | reflexivity |].
  change (tokenizeLoop fuel "* FROM t" [TKeyword "SELECT"; TIdentifier ""]
          = Timeout).
  apply tokenizeLoop_stuck.
  apply nextToken_unrecognized. reflexivity.
Qed.

End LexerFacts.

(* ===================================================================== *)
(** * The parser: progress and the optional clauses *)
(* ===================================================================== *)

Module ParserFacts.
Import Lexer Parser Notions ResultFacts.
#[local] Open Scope string_scope.

(** The value of the current token is one text at most. *)
Lemma valueIs_true (p : Parser) (s : string) :
  valueIs p s = true -> value (currentToken p) = JS.VStr s.
Proof.
  unfold valueIs. destruct (value (currentToken p)); try discriminate.
  intros Heq. apply String.eqb_eq in Heq. congruence.
Qed.


(** ** Every step takes a token *)

Lemma valueIs_advance (p : Parser) (s : string) :
  valueIs p s = true -> length (advance p) < length p.
Proof. destruct p as [|t p]; [discriminate|]. cbn. lia. Qed.

Lemma advance_length (p : Parser) : length (advance p) <= length p.
Proof. destruct p; cbn; lia. Qed.

Lemma expect_Ok (ty : TokenType) (val : option string) (p p' : Parser) (t : Token) :
  expect ty val p = Ok (t, p') -> ty <> EOF -> length p' < length p.
Proof.
  unfold expect. intros He Hty.
  destruct p as [|t0 p]; cbn in He.
  - destruct ty; try discriminate He. contradiction.
  - destruct (negb (TokenType_eqb (type t0) ty)); [discriminate|].
    destruct val as [v|].
    + destruct (valueIs (t0 :: p) v); [|discriminate].
      injection He as _ <-. cbn. lia.
    + injection He as _ <-. cbn. lia.
Qed.

Lemma expectIdentifier_Ok (p p' : Parser) (s : string) :
  expectIdentifier p = Ok (s, p') -> length p' < length p.
Proof.
  unfold expectIdentifier. intros He.
  apply bind_Ok in He as ([t q] & He & Hk). injection Hk as _ <-.
  apply expect_Ok in He; [exact He | discriminate].
Qed.

Ltac step_binds :=
  repeat match goal with
         | H : bind _ _ = Ok _ |- _ =>
             apply bind_Ok in H as ([? ?] & ? & H)
         | H : Ok _ = Ok _ |- _ => injection H as ? ?; subst
         | H : (if ?b then _ else _) = Ok _ |- _ => destruct b eqn:?
         | H : expect _ _ _ = Ok _ |- _ =>
             apply expect_Ok in H; [|discriminate]
         | H : expectIdentifier _ = Ok _ |- _ => apply expectIdentifier_Ok in H
         | H : valueIs _ _ = true |- _ => apply valueIs_advance in H
         end.

Lemma parseColumnIdentifier_Ok (p p' : Parser) (s : string) :
  parseColumnIdentifier p = Ok (s, p') -> length p' < length p.
Proof. unfold parseColumnIdentifier. intros He. step_binds; lia. Qed.

Lemma parseColumn_Ok (p p' : Parser) (c : ColumnSpec) :
  parseColumn p = Ok (c, p') -> length p' < length p.
Proof.
  unfold parseColumn. intros He.
  pose proof (advance_length p).
  step_binds; lia.
Qed.

Lemma parseValue_Ok (p p' : Parser) (v : JS.value) :
  parseValue p = Ok (v, p') -> length p' < length p.
Proof.
  unfold parseValue. destruct p as [|[] p]; cbn; intros He;
    try discriminate He; injection He as _ <-; lia.
Qed.

Lemma parseColumns_Ok (fuel : nat) (p p' : Parser) (cs : list ColumnSpec) :
  parseColumns fuel p = Ok (cs, p') -> length p' < length p.
Proof.
  revert p p' cs. induction fuel as [|fuel IH]; intros p p' cs He;
    cbn [parseColumns] in He; [discriminate|].
  apply bind_Ok in He as ([c q] & Hc & He). apply parseColumn_Ok in Hc.
  destruct (valueIs q ",") eqn:Hv.
  - apply bind_Ok in He as ([rest q'] & Hr & He). injection He as _ <-.
    apply IH in Hr. pose proof (advance_length q). lia.
  - injection He as _ <-. exact Hc.
Qed.

Lemma parseSelect_Ok (fuel : nat) (p p' : Parser) (cs : list ColumnSpec) :
  parseSelect fuel p = Ok (cs, p') -> length p' < length p.
Proof.
  unfold parseSelect. intros He.
  apply bind_Ok in He as ([t q] & Ht & He).
  apply expect_Ok in Ht; [|discriminate].
  destruct (valueIs q "*").
  - injection He as _ <-. pose proof (advance_length q). lia.
  - apply parseColumns_Ok in He. lia.
Qed.

Lemma parseFrom_Ok (p p' : Parser) (f : option string) :
  parseFrom p = Ok (f, p') -> length p' <= length p.
Proof.
  unfold parseFrom. intros He. pose proof (advance_length p).
  step_binds; lia.
Qed.

Lemma parseValues_Ok (fuel : nat) (p p' : Parser) (vs : list JS.value) :
  parseValues fuel p = Ok (vs, p') -> length p' <= length p.
Proof.
  revert p p' vs. induction fuel as [|fuel IH]; intros p p' vs He;
    cbn [parseValues] in He; [discriminate|].
  destruct (valueIs p ")").
  - injection He as _ <-. lia.
  - apply bind_Ok in He as ([v q] & Hv & He). apply parseValue_Ok in Hv.
    apply bind_Ok in He as ([rest q'] & Hr & He). injection He as _ <-.
    apply IH in Hr. pose proof (advance_length q).
    destruct (valueIs q ","); lia.
Qed.

Lemma condition_Ok (fuel : nat) :
  forall p : Parser,
    (forall c p', parseConditionTerm fuel p = Ok (c, p') -> length p' < length p)
    /\ (forall c p', parseCondition fuel p = Ok (c, p') -> length p' < length p)
    /\ (forall lhs c p',
          parseConditionRest fuel lhs p = Ok (c, p') -> length p' <= length p).
Proof.
  induction fuel as [|fuel IH]; intros p.
  - repeat split; intros; discriminate.
  - split; [|split].
    + intros c p' He. cbn [parseConditionTerm] in He.
      destruct (valueIs p "NOT") eqn:Hnot.
      { apply bind_Ok in He as ([c' q] & Hc & He). injection He as _ <-.
        apply (proj1 (IH _)) in Hc. pose proof (advance_length p). lia. }
      destruct (valueIs p "(") eqn:Hparen.
      { apply bind_Ok in He as ([c' q] & Hc & He).
        apply (proj1 (proj2 (IH _))) in Hc.
        pose proof (advance_length p). step_binds. lia. }
      apply bind_Ok in He as ([col q1] & Hcol & He).
      apply parseColumnIdentifier_Ok in Hcol.
      apply bind_Ok in He as ([t q2] & Ht & He).
      apply expect_Ok in Ht; [|discriminate].
      apply bind_Ok in He as ([v q3] & Hv & He).
      apply parseValue_Ok in Hv.
      destruct (String.eqb (text t) "IN" && valueIs q3 "(").
      * apply bind_Ok in He as ([vs q4] & Hvs & He).
        apply parseValues_Ok in Hvs. pose proof (advance_length q3).
        step_binds. lia.
      * injection He as _ <-. lia.
    + intros c p' He. cbn [parseCondition] in He.
      apply bind_Ok in He as ([lhs q] & Hl & He).
      apply (proj1 (IH _)) in Hl.
      apply (proj2 (proj2 (IH _))) in He. lia.
    + intros lhs c p' He. cbn [parseConditionRest] in He.
      destruct (valueIs p "AND" || valueIs p "OR").
      * apply bind_Ok in He as ([rhs q] & Hr & He).
        apply (proj1 (IH _)) in Hr.
        apply (proj2 (proj2 (IH _))) in He.
        pose proof (advance_length p). lia.
      * injection He as _ <-. lia.
Qed.

Lemma parseWhere_Ok (fuel : nat) (p p' : Parser) (w : option Condition) :
  parseWhere fuel p = Ok (w, p') -> length p' <= length p.
Proof.
  unfold parseWhere. intros He. destruct (negb (valueIs p "WHERE")).
  - injection He as _ <-. lia.
  - apply bind_Ok in He as ([c q] & Hc & He). injection He as _ <-.
    apply (proj1 (proj2 (condition_Ok _ _))) in Hc.
    pose proof (advance_length p). lia.
Qed.

Lemma parseOrders_Ok (fuel : nat) (p p' : Parser) (os : list OrderSpec) :
  parseOrders fuel p = Ok (os, p') -> length p' < length p.
Proof.
  revert p p' os. induction fuel as [|fuel IH]; intros p p' os He;
    cbn [parseOrders] in He; [discriminate|].
  apply bind_Ok in He as ([c q] & Hc & He). apply parseColumnIdentifier_Ok in Hc.
  pose proof (advance_length q).
  destruct (valueIs q "ASC" || valueIs q "DESC").
  - pose proof (advance_length (advance q)).
    destruct (valueIs (advance q) ",").
    + apply bind_Ok in He as ([rest q'] & Hr & He). injection He as _ <-.
      apply IH in Hr. lia.
    + injection He as _ <-. lia.
  - destruct (valueIs q ",").
    + apply bind_Ok in He as ([rest q'] & Hr & He). injection He as _ <-.
      apply IH in Hr. lia.
    + injection He as _ <-. lia.
Qed.

Lemma parseOrderBy_Ok (fuel : nat) (p p' : Parser) (o : option (list OrderSpec)) :
  parseOrderBy fuel p = Ok (o, p') -> length p' <= length p.
Proof.
  unfold parseOrderBy. intros He. destruct (negb (valueIs p "ORDER")).
  - injection He as _ <-. lia.
  - apply bind_Ok in He as ([t q] & Ht & He). apply expect_Ok in Ht; [|discriminate].
    apply bind_Ok in He as ([t' q'] & Ht' & He). apply expect_Ok in Ht'; [|discriminate].
    apply bind_Ok in He as ([os q''] & Hos & He). injection He as _ <-.
    apply parseOrders_Ok in Hos. lia.
Qed.

Lemma parseGroupColumns_Ok (fuel : nat) (p p' : Parser) (cs : list string) :
  parseGroupColumns fuel p = Ok (cs, p') -> length p' < length p.
Proof.
  revert p p' cs. induction fuel as [|fuel IH]; intros p p' cs He;
    cbn [parseGroupColumns] in He; [discriminate|].
  apply bind_Ok in He as ([c q] & Hc & He). apply parseColumnIdentifier_Ok in Hc.
  destruct (valueIs q ",").
  - apply bind_Ok in He as ([rest q'] & Hr & He). injection He as _ <-.
    apply IH in Hr. pose proof (advance_length q). lia.
  - injection He as _ <-. exact Hc.
Qed.

Lemma parseGroupBy_Ok (fuel : nat) (p p' : Parser) (g : option (list string)) :
  parseGroupBy fuel p = Ok (g, p') -> length p' <= length p.
Proof.
  unfold parseGroupBy. intros He. destruct (negb (valueIs p "GROUP")).
  - injection He as _ <-. lia.
  - apply bind_Ok in He as ([t q] & Ht & He). apply expect_Ok in Ht; [|discriminate].
    apply bind_Ok in He as ([t' q'] & Ht' & He). apply expect_Ok in Ht'; [|discriminate].
    apply bind_Ok in He as ([os q''] & Hos & He). injection He as _ <-.
    apply parseGroupColumns_Ok in Hos. lia.
Qed.

(** ** No budget is spent *)

Lemma expect_settled (ty : TokenType) (val : option string) (p : Parser) :
  settled (expect ty val p).
Proof.
  unfold expect.
  destruct (negb _); [apply settled_Throw|].
  destruct val as [v|]; [|apply settled_Ok].
  destruct (valueIs p v); [apply settled_Ok | apply settled_Throw].
Qed.

Ltac settle :=
  repeat first
    [ apply settled_Ok
    | apply settled_Throw
    | apply expect_settled
    | apply settled_bind; [|intros [? ?] ?]
    | match goal with
      | |- settled (if ?b then _ else _) => destruct b eqn:?
      | |- settled (let '(_, _) := ?x in _) => destruct x eqn:?
      end ].

Lemma expectIdentifier_settled (p : Parser) : settled (expectIdentifier p).
Proof. unfold expectIdentifier. settle. Qed.

Lemma parseColumnIdentifier_settled (p : Parser) : settled (parseColumnIdentifier p).
Proof.
  unfold parseColumnIdentifier.
  repeat first [apply expectIdentifier_settled | progress settle].
Qed.

Lemma parseColumn_settled (p : Parser) : settled (parseColumn p).
Proof.
  unfold parseColumn.
  repeat first [apply expectIdentifier_settled | progress settle].
Qed.

Lemma parseValue_settled (p : Parser) : settled (parseValue p).
Proof. unfold parseValue. destruct (currentToken p); discriminate. Qed.

Lemma parseFrom_settled (p : Parser) : settled (parseFrom p).
Proof.
  unfold parseFrom.
  repeat first [apply expectIdentifier_settled | progress settle].
Qed.

Lemma parseJoin_settled (p : Parser) : settled (parseJoin p).
Proof.
  unfold parseJoin.
  repeat first [apply expectIdentifier_settled
               | apply parseColumnIdentifier_settled | progress settle].
Qed.

Lemma parseLimit_settled (p : Parser) : settled (parseLimit p).
Proof.
  unfold parseLimit. settle. destruct t; apply settled_Ok.
Qed.

Lemma parseColumns_settled (fuel : nat) (p : Parser) :
  length p < fuel -> settled (parseColumns fuel p).
Proof.
  revert p. induction fuel as [|fuel IH]; intros p Hf; [lia|].
  cbn [parseColumns]. apply settled_bind; [apply parseColumn_settled|].
  intros [c q] Hc. apply parseColumn_Ok in Hc.
  destruct (valueIs q ","); [|apply settled_Ok].
  apply settled_bind; [|intros [? ?] _; apply settled_Ok].
  apply IH. pose proof (advance_length q). lia.
Qed.

Lemma parseValues_settled (fuel : nat) (p : Parser) :
  length p < fuel -> settled (parseValues fuel p).
Proof.
  revert p. induction fuel as [|fuel IH]; intros p Hf; [lia|].
  cbn [parseValues]. destruct (valueIs p ")"); [apply settled_Ok|].
  apply settled_bind; [apply parseValue_settled|].
  intros [v q] Hv. apply parseValue_Ok in Hv.
  apply settled_bind; [|intros [? ?] _; apply settled_Ok].
  apply IH. pose proof (advance_length q). destruct (valueIs q ","); lia.
Qed.

Lemma condition_settled (fuel : nat) :
  forall p : Parser,
    (2 * length p + 1 <= fuel -> settled (parseConditionTerm fuel p))
    /\ (2 * length p + 2 <= fuel -> settled (parseCondition fuel p))
    /\ (forall lhs, 2 * length p + 1 <= fuel ->
          settled (parseConditionRest fuel lhs p)).
Proof.
  induction fuel as [|fuel IH]; intros p.
  - repeat split; intros; lia.
  - split; [|split].
    + intros Hf. cbn [parseConditionTerm].
      destruct (valueIs p "NOT") eqn:Hnot.
      { apply valueIs_advance in Hnot.
        apply settled_bind; [|intros [? ?] _; apply settled_Ok].
        apply (proj1 (IH _)). lia. }
      destruct (valueIs p "(") eqn:Hparen.
      { apply valueIs_advance in Hparen.
        apply settled_bind; [apply (proj1 (proj2 (IH _))); lia|].
        intros [? ?] _. settle. }
      apply settled_bind; [apply parseColumnIdentifier_settled|].
      intros [col q1] Hcol. apply parseColumnIdentifier_Ok in Hcol.
      apply settled_bind; [apply expect_settled|].
      intros [t q2] Ht. apply expect_Ok in Ht; [|discriminate].
      apply settled_bind; [apply parseValue_settled|].
      intros [v q3] Hv. apply parseValue_Ok in Hv.
      destruct (String.eqb (text t) "IN" && valueIs q3 "("); [|apply settled_Ok].
      apply settled_bind.
      * apply parseValues_settled. pose proof (advance_length q3). lia.
      * intros [? ?] _. settle.
    + intros Hf. cbn [parseCondition].
      apply settled_bind; [apply (proj1 (IH _)); lia|].
      intros [lhs q] Hl. apply (proj1 (condition_Ok _ _)) in Hl.
      apply (proj2 (proj2 (IH _))). lia.
    + intros lhs Hf. cbn [parseConditionRest].
      destruct (valueIs p "AND" || valueIs p "OR") eqn:Hop; [|apply settled_Ok].
      assert (Hadv : length (advance p) < length p).
      { apply orb_true_iff in Hop as [Hop|Hop]; apply valueIs_advance in Hop; exact Hop. }
      apply settled_bind; [apply (proj1 (IH _)); lia|].
      intros [rhs q] Hr. apply (proj1 (condition_Ok _ _)) in Hr.
      apply (proj2 (proj2 (IH _))). lia.
Qed.

Lemma parseWhere_settled (fuel : nat) (p : Parser) :
  2 * length p + 2 <= fuel -> settled (parseWhere fuel p).
Proof.
  intros Hf. unfold parseWhere. destruct (negb (valueIs p "WHERE")); [apply settled_Ok|].
  apply settled_bind; [|intros [? ?] _; apply settled_Ok].
  apply (proj1 (proj2 (condition_settled _ _))).
  pose proof (advance_length p). lia.
Qed.

Lemma parseOrders_settled (fuel : nat) (p : Parser) :
  length p < fuel -> settled (parseOrders fuel p).
Proof.
  revert p. induction fuel as [|fuel IH]; intros p Hf; [lia|].
  cbn [parseOrders]. apply settled_bind; [apply parseColumnIdentifier_settled|].
  intros [c q] Hc. apply parseColumnIdentifier_Ok in Hc.
  pose proof (advance_length q). pose proof (advance_length (advance q)).
  destruct (valueIs q "ASC" || valueIs q "DESC").
  - destruct (valueIs (advance q) ","); [|apply settled_Ok].
    apply settled_bind; [apply IH; lia | intros [? ?] _; apply settled_Ok].
  - destruct (valueIs q ","); [|apply settled_Ok].
    apply settled_bind; [apply IH; lia | intros [? ?] _; apply settled_Ok].
Qed.

Lemma parseOrderBy_settled (fuel : nat) (p : Parser) :
  length p < fuel -> settled (parseOrderBy fuel p).
Proof.
  intros Hf. unfold parseOrderBy. destruct (negb (valueIs p "ORDER")); [apply settled_Ok|].
  apply settled_bind; [apply expect_settled|].
  intros [t q] Ht. apply expect_Ok in Ht; [|discriminate].
  apply settled_bind; [apply expect_settled|].
  intros [t' q'] Ht'. apply expect_Ok in Ht'; [|discriminate].
  apply settled_bind; [apply parseOrders_settled; lia|].
  intros [? ?] _. apply settled_Ok.
Qed.

Lemma parseGroupColumns_settled (fuel : nat) (p : Parser) :
  length p < fuel -> settled (parseGroupColumns fuel p).
Proof.
  revert p. induction fuel as [|fuel IH]; intros p Hf; [lia|].
  cbn [parseGroupColumns]. apply settled_bind; [apply parseColumnIdentifier_settled|].
  intros [c q] Hc. apply parseColumnIdentifier_Ok in Hc.
  destruct (valueIs q ","); [|apply settled_Ok].
  apply settled_bind; [|intros [? ?] _; apply settled_Ok].
  apply IH. pose proof (advance_length q). lia.
Qed.

Lemma parseGroupBy_settled (fuel : nat) (p : Parser) :
  length p < fuel -> settled (parseGroupBy fuel p).
Proof.
  intros Hf. unfold parseGroupBy. destruct (negb (valueIs p "GROUP")); [apply settled_Ok|].
  apply settled_bind; [apply expect_settled|].
  intros [t q] Ht. apply expect_Ok in Ht; [|discriminate].
  apply settled_bind; [apply expect_settled|].
  intros [t' q'] Ht'. apply expect_Ok in Ht'; [|discriminate].
  apply settled_bind; [apply parseGroupColumns_settled; lia|].
  intros [? ?] _. apply settled_Ok.
Qed.

Lemma parseSelect_settled (fuel : nat) (p : Parser) :
  length p < fuel -> settled (parseSelect fuel p).
Proof.
  intros Hf. unfold parseSelect. apply settled_bind; [apply expect_settled|].
  intros [t q] Ht. apply expect_Ok in Ht; [|discriminate].
  destruct (valueIs q "*"); [apply settled_Ok|].
  apply parseColumns_settled. lia.
Qed.

(** [parse] is total: with the budget it is given, the parser returns a
    tree or throws. *)
Lemma parseClauses_settled (fuel : nat) (p : Parser) :
  2 * length p + 2 <= fuel -> settled (parseClauses fuel p).
Proof.
  intros Hf. unfold parseClauses.
  apply settled_bind; [apply parseSelect_settled; lia|].
  intros [cols p1] H1. apply parseSelect_Ok in H1.
  apply settled_bind; [apply parseFrom_settled|].
  intros [fr p2] H2. apply parseFrom_Ok in H2.
  apply settled_bind; [apply parseWhere_settled; lia|].
  intros [wh p3] H3. apply parseWhere_Ok in H3.
  apply settled_bind; [apply parseOrderBy_settled; lia|].
  intros [ob p4] H4. apply parseOrderBy_Ok in H4.
  apply settled_bind; [apply parseGroupBy_settled; lia|].
  intros [gb p5] H5.
  apply settled_bind; [apply parseJoin_settled|].
  intros [jn p6] H6.
  apply settled_bind; [apply parseLimit_settled|].
  intros [lm p7] H7. apply settled_Ok.
Qed.

Lemma parse_settled (tokens : list Token) : settled (parse tokens).
Proof.
  unfold parse. apply settled_bind.
  - apply parseClauses_settled. unfold budget. lia.
  - intros [ast rest] _. apply settled_Ok.
Qed.

(** ** The optional clauses *)

Section Absent.
Variables (fuel : nat) (p : Parser).







End Absent.


(** [parse] runs the seven functions once each, in this order, every one
    from where the one before it stopped. *)
Lemma parseClauses_order (fuel : nat) (p rest : Parser) (ast : Query) :
  parseClauses fuel p = Ok (ast, rest) <->
  exists p1 p2 p3 p4 p5 p6,
    parseSelect fuel p = Ok (columns ast, p1)
    /\ parseFrom p1 = Ok (from ast, p2)
    /\ parseWhere fuel p2 = Ok (where_ ast, p3)
    /\ parseOrderBy fuel p3 = Ok (orderBy ast, p4)
    /\ parseGroupBy fuel p4 = Ok (groupBy ast, p5)
    /\ parseJoin p5 = Ok (join ast, p6)
    /\ parseLimit p6 = Ok (limit ast, rest).
Proof.
  unfold parseClauses. split.
  - intros Hp.
    apply bind_Ok in Hp as ([c p1] & H1 & Hp).
    apply bind_Ok in Hp as ([f p2] & H2 & Hp).
    apply bind_Ok in Hp as ([w p3] & H3 & Hp).
    apply bind_Ok in Hp as ([o p4] & H4 & Hp).
    apply bind_Ok in Hp as ([g p5] & H5 & Hp).
    apply bind_Ok in Hp as ([j p6] & H6 & Hp).
    apply bind_Ok in Hp as ([l p7] & H7 & Hp).
    injection Hp as <- <-. cbn. exists p1, p2, p3, p4, p5, p6. tauto.
  - intros (p1 & p2 & p3 & p4 & p5 & p6 & H1 & H2 & H3 & H4 & H5 & H6 & H7).
    rewrite H1; cbn. rewrite H2; cbn. rewrite H3; cbn. rewrite H4; cbn.
    rewrite H5; cbn. rewrite H6; cbn. rewrite H7; cbn.
    destruct ast; reflexivity.
Qed.


(** LIKE and IN are lexed as keywords and a comparison expects an
    OPERATOR token: the text of a LIKE comparison is rejected. The query
    is one of the application's samples. *)
Example like_text_is_rejected :
  parseQuery 100 "SELECT host, ip WHERE host LIKE '%prod%' ORDER BY host"
  = Throw (Error "Parse error: Expected OPERATOR, got KEYWORD").
Proof. reflexivity. Qed.




End ParserFacts.

(* ===================================================================== *)
(** * The engine: joins *)
(* ===================================================================== *)

Module JoinFacts.
Import Parser Engine Notions.
#[local] Open Scope string_scope.

(** C2, as stated, fails: one primary row RIGHT-joined with one secondary
    row leaves the join stage with no row, not with the primary row. *)
Lemma right_join_loses_primary_rows :
  ~ rightJoinKeepsPrimary (selectAllJoin "RIGHT")
      [{["id" := num 1; "x" := str "A"]}] [{["id" := num 1]}].
Proof.
  intros Hkeep.
  specialize (Hkeep _ eq_refl eq_refl).
  vm_compute in Hkeep. discriminate Hkeep.
Qed.

Lemma performJoin_other (leftRows rightRows : list Row) (spec : JoinSpec) :
  joinType spec <> "INNER" -> joinType spec <> "LEFT" ->
  performJoin leftRows rightRows (Some spec) = [].
Proof.
  intros Hi Hl. unfold performJoin.
  apply String.eqb_neq in Hi, Hl. rewrite Hi, Hl. reflexivity.
Qed.

Lemma whereStage_nil `{Host} (ast : Query) : whereStage ast [] = Ok [].
Proof. unfold whereStage. destruct (where_ ast); reflexivity. Qed.

(** C2, amended. With a RIGHT join and secondary rows supplied, the join
    stage yields no row at all ([performJoin] fills its result only under
    INNER and LEFT), whatever the primary and secondary rows; the later
    stages run on the empty sequence and the query does not raise. *)
Theorem right_join_yields_no_rows `{Host} (ast : Query) (spec : JoinSpec)
    (data rightRows : list Row) :
  join ast = Some spec ->
  joinType spec = "RIGHT" ->
  data <> [] ->
  performJoin data rightRows (Some spec) = []
  /\ joinStage ast (Some rightRows) data = []
  /\ executeQuery ast data (Some rightRows)
     = Ok (limitStage ast (orderStage ast (groupStage ast []))).
Proof.
  intros Hjoin Hright Hdata.
  assert (Hperform : performJoin data rightRows (Some spec) = []).
  { apply performJoin_other; rewrite Hright; discriminate. }
  assert (Hstage : joinStage ast (Some rightRows) data = []).
  { unfold joinStage. rewrite Hjoin. exact Hperform. }
  repeat split; try assumption.
  unfold executeQuery. destruct data as [|row data]; [contradiction|].
  rewrite Hstage, whereStage_nil. reflexivity.
Qed.

Lemma right_join_yields_no_rows_witness :
  executeQuery (H := Reference.host) (selectAllJoin "RIGHT")
    [{["id" := num 1]}] (Some [{["id" := num 1; "x" := str "A"]}]) = Ok [].
Proof.
  exact (proj2 (proj2 (right_join_yields_no_rows (H := Reference.host)
           (selectAllJoin "RIGHT") (mkJoin "RIGHT" "u" "id" "id")
           [{["id" := num 1]}] [{["id" := num 1; "x" := str "A"]}]
           eq_refl eq_refl ltac:(discriminate)))).
Defined.

Lemma performJoin_append (before after rightRows : list Row) (spec : JoinSpec) :
  performJoin (before ++ after)%list rightRows (Some spec)
  = (performJoin before rightRows (Some spec)
     ++ performJoin after rightRows (Some spec))%list.
Proof.
  unfold performJoin.
  destruct (String.eqb (joinType spec) "INNER" || String.eqb (joinType spec) "LEFT").
  - apply flat_map_app.
  - reflexivity.
Qed.

Lemma lookup_merge_rightEmpty (leftRow r0 : Row) (rest : list Row) (key : string) :
  merge leftRow (rightEmpty (r0 :: rest)) !! key
  = match r0 !! key with
    | Some _ => Some JS.VNull
    | None => leftRow !! key
    end.
Proof.
  unfold merge, rightEmpty. rewrite lookup_union, lookup_fmap.
  destruct (r0 !! key), (leftRow !! key); reflexivity.
Qed.

(** C7. In a LEFT join a primary row that no secondary row matches
    contributes exactly one output row, in its place: the primary row
    merged with a row of nulls over the keys of the first secondary row,
    the nulls overwriting the primary row's own fields of those names.
    With no secondary rows the output row is the primary row as it is.
    On the example the unmatched row comes out with [x] null. *)
Theorem left_join_unmatched_row (before after rightRows : list Row)
    (leftRow : Row) (spec : JoinSpec) :
  joinType spec = "LEFT" ->
  List.filter
    (fun rightRow =>
       JS.looseEq (getValue leftRow (joinColumn (onLeft spec)))
                  (getValue rightRow (joinColumn (onRight spec))))
    rightRows = [] ->
  performJoin (before ++ leftRow :: after)%list rightRows (Some spec)
  = (performJoin before rightRows (Some spec)
     ++ [merge leftRow (rightEmpty rightRows)]
     ++ performJoin after rightRows (Some spec))%list
  /\ (forall r0 rest key, rightRows = r0 :: rest ->
        merge leftRow (rightEmpty rightRows) !! key
        = match r0 !! key with
          | Some _ => Some JS.VNull
          | None => leftRow !! key
          end)
  /\ (rightRows = [] -> merge leftRow (rightEmpty rightRows) = leftRow)
  /\ performJoin primaryRows secondaryRows (join (selectAllJoin "LEFT"))
     = [{["id" := num 1; "x" := str "A"]};
        {["id" := JS.VNull; "x" := JS.VNull]}].
Proof.
  intros Hleft Hnone. split; [|split; [|split]].
  - rewrite performJoin_append. f_equal.
    change (leftRow :: after) with ([leftRow] ++ after)%list.
    rewrite performJoin_append. f_equal.
    unfold performJoin. rewrite Hleft.
    change (String.eqb "LEFT" "INNER" || String.eqb "LEFT" "LEFT") with true.
    cbn [flat_map]. unfold joinRow. rewrite Hnone. reflexivity.
  - intros r0 rest key ->. apply lookup_merge_rightEmpty.
  - intros ->. unfold merge, rightEmpty. apply (left_id_L ∅ (∪)).
  - vm_compute. reflexivity.
Qed.

Lemma left_join_unmatched_row_witness :
  performJoin ([{["id" := num 1]}] ++ {["id" := num 2]} :: [])%list secondaryRows
    (Some (mkJoin "LEFT" "u" "id" "id"))
  = (performJoin [{["id" := num 1]}] secondaryRows (Some (mkJoin "LEFT" "u" "id" "id"))
     ++ [merge {["id" := num 2]} (rightEmpty secondaryRows)]
     ++ performJoin [] secondaryRows (Some (mkJoin "LEFT" "u" "id" "id")))%list.
Proof.
  exact (proj1 (left_join_unmatched_row [{["id" := num 1]}] [] secondaryRows
                  {["id" := num 2]} (mkJoin "LEFT" "u" "id" "id")
                  eq_refl eq_refl)).
Defined.

End JoinFacts.

(* ===================================================================== *)
(** * The engine: conditions and LIMIT *)
(* ===================================================================== *)

Module FilterFacts.
Import Parser Engine Notions ResultFacts.
#[local] Open Scope string_scope.

Section WithHost.
Context `{Host}.

(** IN is membership by [Array.prototype.includes], that is by
    SameValueZero. *)
Lemma evaluate_IN (row : Row) (column : string) (vs : list JS.value) :
  evaluateCondition row (Compare "IN" column (Values vs))
  = Ok (JS.includes vs (getValue row column)).
Proof. reflexivity. Qed.

Lemma evaluate_equals (row : Row) (column : string) (v : JS.value) :
  evaluateCondition row (Compare "=" column (Scalar v))
  = Ok (JS.looseEq (getValue row column) v).
Proof. reflexivity. Qed.

(** C8. IN does not compare loosely. The cell ["5"] (a string) and the
    literal [5] are loosely equal, and [port = 5] holds of the row, but
    [port IN (5)] does not: [includes] asks for the same type. In general
    the condition holds exactly when some element of the list is the same
    value as the cell under SameValueZero. *)
Theorem IN_is_strict_membership :
  (forall (row : Row) (column : string) (vs : list JS.value),
     evaluateCondition row (Compare "IN" column (Values vs)) = Ok true
     <-> exists v, In v vs /\ JS.sameValueZero v (getValue row column) = true)
  /\ JS.looseEq (getValue {["port" := str "5"]} "port") (num 5) = true
  /\ evaluateCondition {["port" := str "5"]} (Compare "=" "port" (Scalar (num 5)))
     = Ok true
  /\ evaluateCondition {["port" := str "5"]} (Compare "IN" "port" (Values [num 5]))
     = Ok false.
Proof.
  split; [|repeat split; reflexivity].
  intros row column vs. rewrite evaluate_IN. unfold JS.includes.
  split.
  - intros Hin. injection Hin as Hin.
    apply existsb_exists in Hin. exact Hin.
  - intros Hex. f_equal. apply existsb_exists. exact Hex.
Qed.

Lemma evaluateCondition_withoutLike (row : Row) (condition : Condition) :
  withoutLike condition = true -> exists b, evaluateCondition row condition = Ok b.
Proof.
  induction condition as [l IHl r IHr | l IHl r IHr | c IHc | operator column value];
    cbn [withoutLike evaluateCondition]; intros Hw.
  - apply andb_true_iff in Hw as [Hl Hr].
    destruct (IHl Hl) as [a ->]. cbn [bind].
    destruct a; [apply IHr; exact Hr | eauto].
  - apply andb_true_iff in Hw as [Hl Hr].
    destruct (IHl Hl) as [a ->]. cbn [bind].
    destruct a; [eauto | apply IHr; exact Hr].
  - destruct (IHc Hw) as [a ->]. cbn [bind]. eauto.
  - apply negb_true_iff in Hw. rewrite Hw.
    repeat match goal with
           | |- context [if ?b then _ else _] => destruct b
           end; eauto.
Qed.

(** [LIMIT n] with a Number that is neither zero nor NaN: the rows that
    [slice(0, n)] keeps. *)
Lemma limitStage_truthy (ast : Query) (n : JS.number) (rows : list Row) :
  limit ast = Some n -> JS.truthy (JS.VNum n) = true ->
  limitStage ast rows = JS.slice0 rows n.
Proof. intros Hl Ht. unfold limitStage. rewrite Hl, Ht. reflexivity. Qed.

Lemma limitStage_zero (ast : Query) (rows : list Row) :
  limit ast = Some (JS.ofZ 0) -> limitStage ast rows = rows.
Proof. intros Hl. unfold limitStage. rewrite Hl. reflexivity. Qed.

(** [slice(0, k)] for a whole number [k] keeps the first [k] elements. *)
Lemma slice0_ofNat {A : Type} (arr : list A) (k : nat) :
  JS.slice0 arr (JS.ofNat k) = firstn k arr.
Proof.
  unfold JS.slice0, JS.ofNat, JS.ofZ, JS.truncate. cbn [inject_Z Qnum Qden].
  rewrite Z.quot_1_r.
  destruct (Z.ltb_spec (Z.of_nat k) 0) as [Hneg|_]; [lia|].
  destruct (Nat.le_gt_cases k (length arr)) as [Hle|Hgt].
  - rewrite Z.min_l by lia. rewrite Nat2Z.id. reflexivity.
  - rewrite Z.min_r by lia. rewrite Nat2Z.id.
    rewrite !firstn_all2 by lia. reflexivity.
Qed.

(** C9. A limit of one or more keeps the first N rows of the sorted
    sequence, but LIMIT 0 does not truncate. [SELECT a FROM t LIMIT 0]
    parses to a tree whose limit is the Number 0; [if (ast.limit)] takes 0
    for an absent limit, and the query returns one row for every row of
    the data where the first 0 rows were asked for. *)
Theorem limit_zero_returns_every_row :
  (forall (ast : Query) (k : nat) (rows : list Row),
     limit ast = Some (JS.ofNat (S k)) ->
     limitStage ast rows = firstn (S k) rows)
  /\ parseQuery 100 "SELECT a FROM t LIMIT 0" = Ok selectLimitZero
  /\ forall data : list Row,
       executeQuery selectLimitZero data None
       = Ok (List.map (fun row => {["a" := getValue row "a"]}) data).
Proof.
  split; [|split; [reflexivity|]].
  - intros ast k rows Hl.
    rewrite (limitStage_truthy ast (JS.ofNat (S k))); [|exact Hl|].
    + apply slice0_ofNat.
    + assert (E : Qeq_bool (inject_Z (Z.of_nat (S k))) (inject_Z 0) = false).
      { destruct (Qeq_bool _ (inject_Z 0)) eqn:E; [|reflexivity].
        apply Qeq_bool_iff in E. unfold Qeq in E. cbn in E. lia. }
      change (negb (Qeq_bool (inject_Z (Z.of_nat (S k))) (inject_Z 0)) = true).
      rewrite E. reflexivity.
  - intros [|row data]; reflexivity.
Qed.

End WithHost.

Lemma limit_zero_returns_every_row_witness :
  limitStage
    (mkQuery [ColName "*"] None None None None None (Some (JS.ofNat 2)))
    [{["v" := num 1]}; {["v" := num 2]}; {["v" := num 3]}; {["v" := num 4]};
     {["v" := num 5]}]
  = [{["v" := num 1]}; {["v" := num 2]}].
Proof.
  exact (proj1 (limit_zero_returns_every_row (H := Reference.host))
           (mkQuery [ColName "*"] None None None None None (Some (JS.ofNat 2)))
           1%nat
           [{["v" := num 1]}; {["v" := num 2]}; {["v" := num 3]};
            {["v" := num 4]}; {["v" := num 5]}]
           eq_refl).
Defined.

End FilterFacts.

(* ===================================================================== *)
(** * The engine: grouping *)
(* ===================================================================== *)

Module GroupFacts.
Import Parser Engine Notions.
#[local] Open Scope string_scope.

Lemma includesStr_In (l : list string) (s : string) :
  JS.includesStr l s = true <-> In s l.
Proof.
  unfold JS.includesStr. rewrite existsb_exists. split.
  - intros (x & Hin & Heq). apply String.eqb_eq in Heq. subst. exact Hin.
  - intros Hin. exists s. split; [exact Hin | apply String.eqb_refl].
Qed.





Section Grouping.
Variable key : Row -> string.










End Grouping.







Lemma firstValue_cons (first : Row) (rest : list Row) (c : string) :
  firstValue (first :: rest) c = getValue first c.
Proof. reflexivity. Qed.

(** The select list and GROUP BY of the example, as [parseQuery] returns
    them when the asterisk is written as a quoted string (as written in
    the specification the text does not get through [tokenize]). *)
Example example_query_parses :
  parseQuery 100 "SELECT env, COUNT('*') as c, SUM(v) as s GROUP BY env"
  = Ok (mkQuery exampleColumns None None None (Some ["env"]) None None).
Proof. reflexivity. Qed.



(** A falsy cell (null, a missing column, 0, NaN, the empty string) puts
    the empty text into the key. *)
Lemma getGroupKey_falsy (row : Row) (col : string) :
  JS.truthy (getValue row col) = false -> getGroupKey row [col] = "".
Proof.
  intros Hf. unfold getGroupKey, JS.orElse. cbn [List.map]. rewrite Hf.
  reflexivity.
Qed.

(** C10. The group key does not tell every two tuples of group-by values
    apart, and two rows with one key make one group and one result row.
    A cell 0 and a null cell both give the key [""], and the rows
    [{a: "x::y", b: "z"}] and [{a: "x", b: "y::z"}] both give
    ["x::y::z"]; each pair lands in one group and comes out as one row
    that counts two. *)
Theorem group_key_merges_distinct_values :
  (forall (r1 r2 : Row) (c : string) (gb : list string) (cols : list ColumnSpec),
     getGroupKey r1 (c :: gb) = getGroupKey r2 (c :: gb) ->
     groupBy [r1; r2] (Some (c :: gb)) cols = [aggregate [r1; r2] (c :: gb) cols])
  /\ (getValue {["g" := num 0]} "g" <> getValue {["g" := JS.VNull]} "g"
   /\ getGroupKey {["g" := num 0]} ["g"] = getGroupKey {["g" := JS.VNull]} ["g"]
   /\ groupBy [{["g" := num 0]}; {["g" := JS.VNull]}] (Some ["g"]) (countBy ["g"])
      = [{["g" := num 0; "n" := num 2]}])
  /\ (List.map (getValue {["a" := str "x::y"; "b" := str "z"]}) ["a"; "b"]
      <> List.map (getValue {["a" := str "x"; "b" := str "y::z"]}) ["a"; "b"]
      /\ getGroupKey {["a" := str "x::y"; "b" := str "z"]} ["a"; "b"]
         = getGroupKey {["a" := str "x"; "b" := str "y::z"]} ["a"; "b"]
      /\ groupBy [{["a" := str "x::y"; "b" := str "z"]};
                  {["a" := str "x"; "b" := str "y::z"]}]
           (Some ["a"; "b"]) (countBy ["a"; "b"])
         = [{["a" := str "x::y"; "b" := str "z"; "n" := num 2]}]).
Proof.
  split.
  - intros r1 r2 c gb cols Hkey. unfold groupBy, groupRows.
    cbn [fold_left pushToGroup]. rewrite Hkey, String.eqb_refl. reflexivity.
  - repeat split; try (vm_compute; reflexivity); vm_compute; discriminate.
Qed.

Lemma group_key_merges_distinct_values_witness :
  groupBy [{["g" := num 0]}; {["g" := JS.VNull]}] (Some ["g"]) (countBy ["g"])
  = [aggregate [{["g" := num 0]}; {["g" := JS.VNull]}] ["g"] (countBy ["g"])].
Proof.
  exact (proj1 group_key_merges_distinct_values
           {["g" := num 0]} {["g" := JS.VNull]} "g" [] (countBy ["g"]) eq_refl).
Defined.

End GroupFacts.

(* ===================================================================== *)
(** * The engine: comparison and ORDER BY *)
(* ===================================================================== *)

Module OrderFacts.
Import Parser Engine Notions.
#[local] Open Scope string_scope.


(** ** The stable sort *)


Section Sort.
Context {A : Type} (cmp : A -> A -> JS.number).





Lemma insertSorted_Permutation (x : A) (l : list A) :
  Permutation (x :: l) (JS.insertSorted cmp x l).
Proof.
  induction l as [|y l IH]; cbn [JS.insertSorted]; [reflexivity|].
  destruct (JS.positive (cmp x y)); [|reflexivity].
  rewrite perm_swap. apply perm_skip. exact IH.
Qed.

Lemma sort_Permutation (l : list A) : Permutation l (JS.sort cmp l).
Proof.
  induction l as [|x l IH]; cbn [JS.sort]; [reflexivity|].
  rewrite <- insertSorted_Permutation. apply perm_skip. exact IH.
Qed.







End Sort.

(** ** Numbers: the sign of a difference *)






(** ** [compareValues] and the comparator of ORDER BY *)

Section WithHost.
Context `{Host}.









End WithHost.


(** The comparator of ORDER BY need not be consistent. Under the collation
    by code units ["3"] is after ["$x"] and ["$x"] is after [" 3.0"], both
    pairs compared as texts, while ["3"] and [" 3.0"] tie as numbers: on
    such rows ECMAScript leaves the order of the sorted array to the
    engine. *)
Lemma mixed_cells_are_not_consistent :
  consistentComparator (compareRows (H := Reference.host) [mkOrder "v" "ASC"])
    mixedRows
  = false.
Proof. vm_compute. reflexivity. Qed.

End OrderFacts.

(* ===================================================================== *)
(** * Text *)
(* ===================================================================== *)

Module TextFacts.
#[local] Open Scope string_scope.

Lemma append_cons (c : ascii) (s t : string) :
  (String c s ++ t)%string = String c (s ++ t).
Proof. reflexivity. Qed.

Lemma append_empty (t : string) : ("" ++ t)%string = t.
Proof. reflexivity. Qed.

Lemma append_empty_r (s : string) : (s ++ "")%string = s.
Proof.
  induction s as [|c s IH]; [reflexivity|]. rewrite append_cons, IH. reflexivity.
Qed.

Lemma append_assoc (s t u : string) :
  ((s ++ t) ++ u)%string = (s ++ (t ++ u))%string.
Proof.
  induction s as [|c s IH]; [reflexivity|].
  rewrite !append_cons, IH. reflexivity.
Qed.

Lemma includesChar_app (c : ascii) (s t : string) :
  JS.includesChar c (s ++ t) = JS.includesChar c s || JS.includesChar c t.
Proof.
  induction s as [|d s IH]; [reflexivity|].
  rewrite append_cons. cbn [JS.includesChar]. rewrite IH. apply orb_assoc.
Qed.

Lemma split_no_separator (sep : ascii) (s : string) :
  JS.includesChar sep s = false -> JS.split sep s = [s].
Proof.
  induction s as [|c s IH]; cbn [JS.includesChar JS.split]; [reflexivity|].
  intros Hs. apply orb_false_iff in Hs as [Hc Hs].
  rewrite Ascii.eqb_sym, Hc, (IH Hs). reflexivity.
Qed.

Lemma split_at_separator (sep : ascii) (s t : string) :
  JS.includesChar sep s = false ->
  JS.split sep (s ++ String sep t) = s :: JS.split sep t.
Proof.
  induction s as [|c s IH]; intros Hs.
  - rewrite append_empty. cbn [JS.split]. rewrite Ascii.eqb_refl. reflexivity.
  - cbn [JS.includesChar] in Hs. apply orb_false_iff in Hs as [Hc Hs].
    rewrite append_cons. cbn [JS.split].
    rewrite Ascii.eqb_sym, Hc, (IH Hs). reflexivity.
Qed.

Lemma replaceAll_removes (c : ascii) (by_ s : string) :
  JS.includesChar c by_ = false ->
  JS.includesChar c (JS.replaceAll c by_ s) = false.
Proof.
  intros Hby. induction s as [|d s IH]; cbn [JS.replaceAll]; [reflexivity|].
  destruct (Ascii.eqb c d) eqn:Hd.
  - rewrite includesChar_app, Hby, IH. reflexivity.
  - cbn [JS.includesChar]. rewrite Hd, IH. reflexivity.
Qed.

Lemma replaceAll_keeps_out (c d : ascii) (by_ s : string) :
  JS.includesChar c by_ = false ->
  JS.includesChar c s = false ->
  JS.includesChar c (JS.replaceAll d by_ s) = false.
Proof.
  intros Hby. induction s as [|e s IH]; cbn [JS.replaceAll JS.includesChar];
    [reflexivity|].
  intros Hs. apply orb_false_iff in Hs as [He Hs].
  destruct (Ascii.eqb d e).
  - rewrite includesChar_app, Hby, (IH Hs). reflexivity.
  - cbn [JS.includesChar]. rewrite He, (IH Hs). reflexivity.
Qed.

Lemma replaceAll_absent (c : ascii) (by_ s : string) :
  JS.includesChar c s = false -> JS.replaceAll c by_ s = s.
Proof.
  induction s as [|d s IH]; cbn [JS.replaceAll JS.includesChar]; [reflexivity|].
  intros Hs. apply orb_false_iff in Hs as [Hd Hs].
  rewrite Hd, (IH Hs). reflexivity.
Qed.

End TextFacts.

(* ===================================================================== *)
(** * The lexer: the tokens it makes *)
(* ===================================================================== *)

Module TokenFacts.
Import Lexer Notions Terms TextFacts.
#[local] Open Scope string_scope.

Lemma digitsValue_nonneg (s : string) (acc : Z) :
  (0 <= acc)%Z -> (0 <= JS.digitsValue acc s)%Z.
Proof.
  revert acc. induction s as [|c s IH]; intros acc Hacc; cbn [JS.digitsValue].
  - exact Hacc.
  - apply IH. lia.
Qed.

Lemma scale10_nonneg (m e : Z) : (0 <= m)%Z -> (0 <= JS.scale10 m e)%Q.
Proof.
  intros Hm. unfold JS.scale10. destruct (0 <=? e)%Z eqn:He.
  - apply Z.leb_le in He. unfold Qle. cbn. nia.
  - unfold Qle. cbn. lia.
Qed.

Lemma fin_nonneg (q : Q) : (0 <= q)%Q -> nonNegative (JS.fin q) = true.
Proof.
  intros Hq. unfold JS.fin. cbn [nonNegative]. apply Qle_bool_iff.
  rewrite (Qred_correct q). exact Hq.
Qed.

Lemma takeDigits_digit (c : ascii) (s : string) :
  JS.isDigit c = true ->
  exists d r, JS.takeDigits (String c s) = (String c d, r).
Proof.
  intros Hc. cbn [JS.takeDigits]. rewrite Hc.
  destruct (JS.takeDigits s) as [d r]. eauto.
Qed.

(** [parseFloat] of a text that opens with a digit is a number that is
    not below zero. *)
Lemma parseFloatStr_digit (c : ascii) (s : string) :
  JS.isDigit c = true -> nonNegative (JS.parseFloatStr (String c s)) = true.
Proof.
  intros Hc.
  assert (Hsp : JS.isSpace c = false).
  { destruct c as [[] [] [] [] [] [] [] []]; try discriminate Hc; reflexivity. }
  assert (Hread : JS.readDecimal (String c s) = JS.readUnsignedDecimal (String c s)).
  { destruct c as [[] [] [] [] [] [] [] []]; try discriminate Hc; reflexivity. }
  assert (Hinf : JS.startsWith "Infinity" (String c s) = false).
  { unfold JS.startsWith.
    destruct (Nat.leb _ _); [|reflexivity].
    destruct c as [[] [] [] [] [] [] [] []]; try discriminate Hc; reflexivity. }
  unfold JS.parseFloatStr. cbn [JS.trimStart]. rewrite Hsp, Hread.
  unfold JS.readUnsignedDecimal. rewrite Hinf.
  destruct (takeDigits_digit c s Hc) as (d & r & ->).
  destruct (match r with String "." r0 => JS.takeDigits r0 | _ => (""%string, r) end)
    as [fp r2].
  destruct (JS.readExponent r2) as [e r3].
  apply fin_nonneg, scale10_nonneg, digitsValue_nonneg. lia.
Qed.

Lemma readWhile_allChars (f : ascii -> bool) (lx : string) :
  allChars f (fst (readWhile f lx)) = true.
Proof.
  induction lx as [|c lx IH]; cbn [readWhile]; [reflexivity|].
  destruct (f c) eqn:Hc; [|reflexivity].
  destruct (readWhile f lx) as [v lx']. cbn [fst allChars] in *.
  rewrite Hc, IH. reflexivity.
Qed.

Lemma skipWhitespace_idem (lx : string) :
  skipWhitespace (skipWhitespace lx) = skipWhitespace lx.
Proof.
  induction lx as [|c lx IH]; cbn [skipWhitespace]; [reflexivity|].
  destruct (JS.isSpace c) eqn:Hc; [exact IH|].
  cbn [skipWhitespace]. rewrite Hc. reflexivity.
Qed.

Lemma nextToken_skipWhitespace (lx : string) :
  nextToken (skipWhitespace lx) = nextToken lx.
Proof. unfold nextToken. rewrite skipWhitespace_idem. reflexivity. Qed.

Lemma readOperator_lexed (c : ascii) (rest : string) :
  isOperatorChar c = true ->
  JS.includesStr lexedOperators (fst (readOperator (String c rest))) = true.
Proof.
  unfold isOperatorChar. intros Hc.
  repeat (apply orb_true_iff in Hc as [Hc|Hc]);
    apply Ascii.eqb_eq in Hc; subst c;
    (destruct rest as [|next rest']; [reflexivity|]);
    cbn [readOperator Ascii.eqb Bool.eqb orb andb];
    repeat match goal with
           | |- context [Ascii.eqb next ?d] =>
               let E := fresh "E" in
               destruct (Ascii.eqb next d) eqn:E;
               [apply Ascii.eqb_eq in E; subst next|]
           end; reflexivity.
Qed.

Lemma punctuation_lexed (c : ascii) :
  isPunctuationChar c = true ->
  JS.includesStr punctuationMarks (String c EmptyString) = true.
Proof.
  unfold isPunctuationChar. intros Hc.
  repeat (apply orb_true_iff in Hc as [Hc|Hc]);
    apply Ascii.eqb_eq in Hc; subst c; reflexivity.
Qed.

(** A call of [nextToken] gives a well-formed token, or the empty
    identifier in a state where the next call gives it again. *)
Lemma nextToken_cases (lx : Lexer) :
  wellLexed (fst (nextToken lx)) = true
  \/ nextToken (snd (nextToken lx)) = (TIdentifier "", snd (nextToken lx)).
Proof.
  rewrite <- (nextToken_skipWhitespace lx).
  pose proof (skipWhitespace_idem lx) as Hidem.
  destruct (skipWhitespace lx) as [|c rest]; [left; reflexivity|].
  destruct (Ascii.eqb c doubleQuote || Ascii.eqb c "'") eqn:Hq.
  { left. unfold nextToken. rewrite Hidem, Hq.
    destruct (readString (String c rest)). reflexivity. }
  destruct (JS.isDigit c) eqn:Hd.
  { left. unfold nextToken. rewrite Hidem, Hq, Hd.
    unfold readNumber. cbn [readWhile]. rewrite Hd. cbn [orb].
    destruct (readWhile _ rest) as [v lx']. cbn [fst wellLexed].
    apply parseFloatStr_digit. exact Hd. }
  destruct (isOperatorChar c) eqn:Hop.
  { left. unfold nextToken. rewrite Hidem, Hq, Hd, Hop.
    pose proof (readOperator_lexed c rest Hop) as Hl.
    destruct (readOperator (String c rest)). exact Hl. }
  destruct (isPunctuationChar c) eqn:Hp.
  { left. unfold nextToken. rewrite Hidem, Hq, Hd, Hop, Hp.
    apply punctuation_lexed. exact Hp. }
  pose proof (readWhile_allChars (fun c => JS.isWord c || Ascii.eqb c ".") (String c rest))
    as Hall.
  destruct (JS.isWord c || Ascii.eqb c ".") eqn:Hw.
  - left. unfold nextToken. rewrite Hidem, Hq, Hd, Hop, Hp.
    unfold readIdentifier. cbn [readWhile] in Hall |- *. rewrite Hw in Hall |- *.
    destruct (readWhile _ rest) as [v lx']. cbn [fst] in Hall.
    destruct (JS.includesStr KEYWORDS (JS.toUpperCase (String c v))) eqn:Hk;
      cbn [fst wellLexed].
    + exact Hk.
    + unfold identifierChar. rewrite Hall, Hk. reflexivity.
  - right.
    assert (Hn : nextToken (String c rest) = (TIdentifier "", String c rest)).
    { unfold nextToken. rewrite Hidem, Hq, Hd, Hop, Hp.
      unfold readIdentifier. cbn [readWhile]. rewrite Hw. reflexivity. }
    rewrite Hn. cbn [snd]. exact Hn.
Qed.

(** The tokens [tokenize] returns are well formed: the loop does not
    return once it has met the empty identifier. *)
Lemma tokenizeLoop_wellLexed (fuel : nat) (lx : Lexer) (tokens result : list Token) :
  forallb wellLexed tokens = true ->
  tokenizeLoop fuel lx tokens = Ok result ->
  forallb wellLexed result = true.
Proof.
  revert lx tokens. induction fuel as [|fuel IH]; intros lx tokens Htokens;
    cbn [tokenizeLoop]; [discriminate|].
  destruct (nextToken_cases lx) as [Hwell | Hstuck];
    destruct (nextToken lx) as [token lx'] eqn:Hnext; cbn [fst snd] in *.
  - assert (Hall : forallb wellLexed (tokens ++ [token]) = true).
    { rewrite forallb_app, Htokens. cbn [forallb]. rewrite Hwell. reflexivity. }
    destruct token; try (apply IH; exact Hall).
    intros Hr. injection Hr as <-. exact Hall.
  - pose proof (fun tk => LexerFacts.tokenizeLoop_stuck lx' fuel tk Hstuck) as Hloop.
    destruct token; try (rewrite Hloop; discriminate).
    intros Hr. injection Hr as <-.
    rewrite forallb_app, Htokens. reflexivity.
Qed.



Lemma readStringBody_escaped (quote : ascii) (s rest : string) :
  quote <> "\"%char ->
  readStringBody quote (escapeLiteral quote s ++ String quote rest)
  = (s, String quote rest).
Proof.
  intros Hq. induction s as [|c s IH]; cbn [escapeLiteral].
  - rewrite append_empty. cbn [readStringBody].
    rewrite Ascii.eqb_refl. reflexivity.
  - destruct (Ascii.eqb c quote || Ascii.eqb c "\") eqn:Hc.
    + rewrite !append_cons. cbn [readStringBody].
      assert (Hb : Ascii.eqb "\" quote = false).
      { apply Ascii.eqb_neq. congruence. }
      rewrite Hb, Ascii.eqb_refl, IH. reflexivity.
    + rewrite append_cons. cbn [readStringBody].
      apply orb_false_iff in Hc as [Hc1 Hc2]. rewrite Hc1, Hc2, IH. reflexivity.
Qed.

Lemma readStringBody_plain (quote : ascii) (s : string) :
  allChars (plainChar quote) s = true ->
  readStringBody quote s = (s, EmptyString).
Proof.
  induction s as [|c s IH]; cbn [allChars readStringBody]; [reflexivity|].
  intros Hs. apply andb_true_iff in Hs as [Hc Hs].
  unfold plainChar in Hc. apply negb_true_iff, orb_false_iff in Hc as [Hc1 Hc2].
  rewrite Hc1, Hc2, (IH Hs). reflexivity.
Qed.

(** X2. Every text can be written as a string literal: between two single
    or two double quotes, with a backslash in front of each quote of that
    kind and of each backslash, it is read back by [nextToken] as the
    STRING token of that text, and the lexer stops behind the closing
    quote. A literal whose closing quote is missing is no error: the text
    up to the end of the input is the token's value. *)
Theorem string_literal_round_trip (quote : ascii) (s rest : string) :
  quote = doubleQuote \/ quote = "'"%char ->
  nextToken (literal quote s ++ rest) = (TString s, rest)
  /\ (allChars (plainChar quote) s = true ->
      nextToken (String quote s) = (TString s, EmptyString)).
Proof.
  intros Hq.
  assert (Hsp : JS.isSpace quote = false) by (destruct Hq as [-> | ->]; reflexivity).
  assert (Hqq : Ascii.eqb quote doubleQuote || Ascii.eqb quote "'" = true)
    by (destruct Hq as [-> | ->]; reflexivity).
  assert (Hb : quote <> "\"%char) by (destruct Hq as [-> | ->]; discriminate).
  split.
  - unfold literal, nextToken. rewrite append_cons. cbn [skipWhitespace].
    rewrite Hsp, Hqq. unfold readString.
    rewrite append_assoc, append_cons, append_empty.
    rewrite (readStringBody_escaped quote s rest Hb).
    rewrite Ascii.eqb_refl. reflexivity.
  - intros Hs. unfold nextToken. cbn [skipWhitespace].
    rewrite Hsp, Hqq. unfold readString.
    rewrite (readStringBody_plain quote s Hs). reflexivity.
Qed.

Lemma string_literal_round_trip_witness :
  nextToken (literal "'" "it's" ++ " AND b = 1") = (TString "it's", " AND b = 1")
  /\ nextToken "'prod" = (TString "prod", "").
Proof.
  split.
  - exact (proj1 (string_literal_round_trip "'" "it's" " AND b = 1"
                    (or_intror eq_refl))).
  - exact (proj2 (string_literal_round_trip "'" "prod" ""
                    (or_intror eq_refl)) eq_refl).
Defined.

Lemma readWhile_run (f : ascii -> bool) (s rest : string) :
  allChars f s = true ->
  match rest with String c _ => f c = false | EmptyString => True end ->
  readWhile f (s ++ rest) = (s, rest).
Proof.
  intros Hs Hrest. induction s as [|c s IH].
  - rewrite append_empty. destruct rest as [|c rest]; [reflexivity|].
    cbn [readWhile]. rewrite Hrest. reflexivity.
  - cbn [allChars] in Hs. apply andb_true_iff in Hs as [Hc Hs].
    rewrite append_cons. cbn [readWhile]. rewrite Hc, (IH Hs). reflexivity.
Qed.

(** The first character of a word takes [nextToken] to its last case. *)
Lemma wordStart_branch (c : ascii) :
  wordStart c = true ->
  JS.isSpace c = false
  /\ Ascii.eqb c doubleQuote || Ascii.eqb c "'" = false
  /\ JS.isDigit c = false
  /\ isOperatorChar c = false
  /\ isPunctuationChar c = false.
Proof.
  destruct c as [[] [] [] [] [] [] [] []]; intros Hc;
    try discriminate Hc; repeat split; reflexivity.
Qed.

(** X22. A word (a run of word characters and dots that does not open
    with a digit, up to the end of the input or to a character that is
    neither) is read as one token: the KEYWORD of its upper-case form when
    that form is a keyword, so keywords can be written in any letter case;
    otherwise the IDENTIFIER of the text as written, so identifiers keep
    their case and a dotted name such as [t.host] is one identifier. *)
Theorem words_and_keywords (s rest : string) :
  isWordText s = true ->
  wordEnd rest = true ->
  nextToken (s ++ rest)
  = (if JS.includesStr KEYWORDS (JS.toUpperCase s)
     then TKeyword (JS.toUpperCase s) else TIdentifier s,
     rest).
Proof.
  destruct s as [|c s]; [discriminate|]. cbn [isWordText].
  intros Hs Hrest. apply andb_true_iff in Hs as [Hc Hs].
  destruct (wordStart_branch c Hc) as (Hsp & Hq & Hd & Hop & Hp).
  unfold nextToken. rewrite append_cons. cbn [skipWhitespace].
  rewrite Hsp, Hq, Hd, Hop, Hp.
  unfold readIdentifier. rewrite <- append_cons.
  rewrite (readWhile_run _ (String c s) rest).
  - destruct (JS.includesStr KEYWORDS (JS.toUpperCase (String c s))); reflexivity.
  - cbn [allChars]. unfold wordStart in Hc. apply andb_true_iff in Hc as [Hc _].
    unfold identifierChar in Hc, Hs. rewrite Hc. exact Hs.
  - destruct rest as [|d rest]; [exact I|]. cbn [wordEnd] in Hrest.
    apply negb_true_iff in Hrest. exact Hrest.
Qed.

Lemma words_and_keywords_witness :
  nextToken ("Select" ++ " host") = (TKeyword "SELECT", " host")
  /\ nextToken ("t.host" ++ ", ip") = (TIdentifier "t.host", ", ip").
Proof.
  split.
  - exact (words_and_keywords "Select" " host" eq_refl eq_refl).
  - exact (words_and_keywords "t.host" ", ip" eq_refl eq_refl).
Defined.

End TokenFacts.

(* ===================================================================== *)
(** * The parser: what a text can be parsed to *)
(* ===================================================================== *)

Module SyntaxFacts.
Import Lexer Parser Engine Notions Terms ResultFacts ParserFacts.
#[local] Open Scope string_scope.

(** ** What is left unread is a suffix of the tokens *)

Lemma advance_suffix (p : Parser) : advance p `suffix_of` p.
Proof. destruct p as [|t p]; [reflexivity | apply suffix_cons_r; reflexivity]. Qed.

Lemma expect_advance (ty : TokenType) (val : option string) (p p' : Parser) (t : Token) :
  expect ty val p = Ok (t, p') ->
  t = currentToken p /\ p' = advance p /\ type t = ty.
Proof.
  unfold expect. intros He.
  destruct (TokenType_eqb (type (currentToken p)) ty) eqn:Hty; [|discriminate].
  cbn [negb] in He.
  assert (Heq : type (currentToken p) = ty).
  { destruct (type (currentToken p)), ty; try discriminate Hty; reflexivity. }
  destruct val as [v|].
  - destruct (valueIs p v); [|discriminate]. injection He as <- <-. auto.
  - injection He as <- <-. auto.
Qed.

Lemma expect_suffix (ty : TokenType) (val : option string) (p p' : Parser) (t : Token) :
  expect ty val p = Ok (t, p') -> p' `suffix_of` p.
Proof. intros He. apply expect_advance in He as (_ & -> & _). apply advance_suffix. Qed.

Lemma expectIdentifier_suffix (p p' : Parser) (s : string) :
  expectIdentifier p = Ok (s, p') -> p' `suffix_of` p.
Proof.
  unfold expectIdentifier. intros He.
  apply bind_Ok in He as ([t q] & He & Hk). injection Hk as _ <-.
  apply expect_suffix in He. exact He.
Qed.

Ltac suffix_binds :=
  repeat match goal with
         | H : bind _ _ = Ok _ |- _ =>
             apply bind_Ok in H as ([? ?] & ? & H)
         | H : Ok _ = Ok _ |- _ => injection H as ? ?; subst
         | H : (if ?b then _ else _) = Ok _ |- _ => destruct b eqn:?
         | H : expect _ _ _ = Ok _ |- _ => apply expect_suffix in H
         | H : expectIdentifier _ = Ok _ |- _ => apply expectIdentifier_suffix in H
         end.

Ltac suffix_chain :=
  solve [ reflexivity
        | match goal with
          | |- advance ?q `suffix_of` _ =>
              transitivity q; [apply advance_suffix | suffix_chain]
          | H : ?x `suffix_of` ?y |- ?x `suffix_of` _ =>
              transitivity y; [exact H | clear H; suffix_chain]
          end ].

Lemma parseColumnIdentifier_suffix (p p' : Parser) (s : string) :
  parseColumnIdentifier p = Ok (s, p') -> p' `suffix_of` p.
Proof. unfold parseColumnIdentifier. intros He. suffix_binds; suffix_chain. Qed.

Lemma parseColumn_suffix (p p' : Parser) (c : ColumnSpec) :
  parseColumn p = Ok (c, p') -> p' `suffix_of` p.
Proof. unfold parseColumn. intros He. suffix_binds; suffix_chain. Qed.

Lemma parseColumns_suffix (fuel : nat) (p p' : Parser) (cs : list ColumnSpec) :
  parseColumns fuel p = Ok (cs, p') -> p' `suffix_of` p /\ cs <> [].
Proof.
  revert p p' cs. induction fuel as [|fuel IH]; intros p p' cs He;
    cbn [parseColumns] in He; [discriminate|].
  apply bind_Ok in He as ([c q] & Hc & He). apply parseColumn_suffix in Hc.
  destruct (valueIs q ",") eqn:Hv.
  - apply bind_Ok in He as ([rest q'] & Hr & He). injection He as <- <-.
    apply IH in Hr as [Hr _]. split; [suffix_chain | discriminate].
  - injection He as <- <-. split; [exact Hc | discriminate].
Qed.

Lemma parseSelect_suffix (fuel : nat) (p p' : Parser) (cs : list ColumnSpec) :
  parseSelect fuel p = Ok (cs, p') -> p' `suffix_of` p /\ cs <> [].
Proof.
  unfold parseSelect. intros He.
  apply bind_Ok in He as ([t q] & Ht & He). apply expect_suffix in Ht.
  destruct (valueIs q "*").
  - injection He as <- <-. split; [suffix_chain | discriminate].
  - apply parseColumns_suffix in He as [He Hne]. split; [suffix_chain | exact Hne].
Qed.

Lemma parseFrom_suffix (p p' : Parser) (f : option string) :
  parseFrom p = Ok (f, p') -> p' `suffix_of` p.
Proof. unfold parseFrom. intros He. suffix_binds; suffix_chain. Qed.

Lemma parseValue_suffix (p p' : Parser) (v : JS.value) :
  parseValue p = Ok (v, p') -> p' `suffix_of` p.
Proof.
  unfold parseValue. destruct (currentToken p); intros He;
    try discriminate He; injection He as _ <-; apply advance_suffix.
Qed.

Lemma parseValues_suffix (fuel : nat) (p p' : Parser) (vs : list JS.value) :
  parseValues fuel p = Ok (vs, p') -> p' `suffix_of` p.
Proof.
  revert p p' vs. induction fuel as [|fuel IH]; intros p p' vs He;
    cbn [parseValues] in He; [discriminate|].
  destruct (valueIs p ")").
  - injection He as _ <-. reflexivity.
  - apply bind_Ok in He as ([v q] & Hv & He). apply parseValue_suffix in Hv.
    apply bind_Ok in He as ([rest q'] & Hr & He). injection He as _ <-.
    apply IH in Hr. destruct (valueIs q ","); suffix_chain.
Qed.

Lemma wellLexed_suffix (p' p : Parser) :
  p' `suffix_of` p -> forallb wellLexed p = true -> forallb wellLexed p' = true.
Proof.
  intros [k ->]. rewrite forallb_app. intros Hp.
  apply andb_true_iff in Hp as [_ Hp]. exact Hp.
Qed.

(** ** The operators of a parsed condition *)

(** The operator of a comparison is the text of an OPERATOR token. *)
Lemma expect_operator (p p' : Parser) (t : Token) :
  forallb wellLexed p = true ->
  expect OPERATOR None p = Ok (t, p') ->
  JS.includesStr lexedOperators (text t) = true.
Proof.
  intros Hp He. apply expect_advance in He as (-> & _ & Hty).
  destruct p as [|t p]; [discriminate Hty|].
  cbn [currentToken] in *. cbn [forallb] in Hp.
  apply andb_true_iff in Hp as [Ht _].
  destruct t; try discriminate Hty. exact Ht.
Qed.

Lemma condition_operators (fuel : nat) :
  forall p : Parser, forallb wellLexed p = true ->
    (forall c p', parseConditionTerm fuel p = Ok (c, p') ->
                  p' `suffix_of` p /\ operatorsLexed c)
    /\ (forall c p', parseCondition fuel p = Ok (c, p') ->
                     p' `suffix_of` p /\ operatorsLexed c)
    /\ (forall lhs c p', operatorsLexed lhs ->
          parseConditionRest fuel lhs p = Ok (c, p') ->
          p' `suffix_of` p /\ operatorsLexed c).
Proof.
  induction fuel as [|fuel IH]; intros p Hp.
  - repeat split; intros; discriminate.
  - split; [|split].
    + intros c p' He. cbn [parseConditionTerm] in He.
      destruct (valueIs p "NOT") eqn:Hnot.
      { apply bind_Ok in He as ([c' q] & Hc & He). injection He as <- <-.
        apply (IH _ (wellLexed_suffix _ _ (advance_suffix p) Hp)) in Hc as [Hs Hc].
        split; [suffix_chain | exact Hc]. }
      destruct (valueIs p "(") eqn:Hparen.
      { apply bind_Ok in He as ([c' q] & Hc & He).
        apply (IH _ (wellLexed_suffix _ _ (advance_suffix p) Hp)) in Hc as [Hs Hc].
        apply bind_Ok in He as ([t q'] & Ht & He). injection He as <- <-.
        apply expect_suffix in Ht. split; [suffix_chain | exact Hc]. }
      apply bind_Ok in He as ([col q1] & Hcol & He).
      apply parseColumnIdentifier_suffix in Hcol.
      apply bind_Ok in He as ([t q2] & Ht & He).
      pose proof (expect_operator _ _ _ (wellLexed_suffix _ _ Hcol Hp) Ht) as Hop.
      apply expect_suffix in Ht.
      apply bind_Ok in He as ([v q3] & Hv & He).
      apply parseValue_suffix in Hv.
      destruct (String.eqb (text t) "IN" && valueIs q3 "(").
      * apply bind_Ok in He as ([vs q4] & Hvs & He).
        apply parseValues_suffix in Hvs.
        apply bind_Ok in He as ([t' q5] & Ht' & He). injection He as <- <-.
        apply expect_suffix in Ht'. split; [suffix_chain|].
        intros op [<- | []]. exact Hop.
      * injection He as <- <-. split; [suffix_chain|].
        intros op [<- | []]. exact Hop.
    + intros c p' He. cbn [parseCondition] in He.
      apply bind_Ok in He as ([lhs q] & Hl & He).
      apply (IH _ Hp) in Hl as [Hs Hl].
      apply (IH _ (wellLexed_suffix _ _ Hs Hp)) in He as [Hs' He]; [|exact Hl].
      split; [suffix_chain | exact He].
    + intros lhs c p' Hlhs He. cbn [parseConditionRest] in He.
      destruct (valueIs p "AND" || valueIs p "OR").
      * apply bind_Ok in He as ([rhs q] & Hr & He).
        apply (IH _ (wellLexed_suffix _ _ (advance_suffix p) Hp)) in Hr as [Hs Hr].
        assert (Hq : q `suffix_of` p) by suffix_chain.
        apply (IH _ (wellLexed_suffix _ _ Hq Hp)) in He as [Hs' He].
        -- split; [suffix_chain | exact He].
        -- intros op Hin. destruct (valueIs p "AND"); cbn [operators] in Hin;
             apply in_app_or in Hin as [Hin | Hin]; auto.
      * injection He as <- <-. split; [reflexivity | exact Hlhs].
Qed.

Lemma parseQuery_Ok (fuel : nat) (query : string) (ast : Query) :
  parseQuery fuel query = Ok ast ->
  exists tokens, tokenize fuel (Lexer.new query) = Ok tokens /\ parse tokens = Ok ast.
Proof.
  unfold parseQuery. intros Hq.
  destruct (tokenize fuel (Lexer.new query)) as [tokens| |] eqn:Ht;
    cbn [bind] in Hq; try discriminate Hq.
  exists tokens. split; [reflexivity|].
  destruct (parse tokens); try discriminate Hq. exact Hq.
Qed.

Lemma operatorsLexed_withoutLike (c : Condition) :
  operatorsLexed c -> withoutLike c = true.
Proof.
  unfold operatorsLexed.
  induction c as [l IHl r IHr | l IHl r IHr | c IHc | operator column value];
    cbn [operators withoutLike]; intros Hc.
  - rewrite IHl, IHr; [reflexivity | |]; intros op Hin; apply Hc, in_or_app; auto.
  - rewrite IHl, IHr; [reflexivity | |]; intros op Hin; apply Hc, in_or_app; auto.
  - apply IHc. exact Hc.
  - specialize (Hc operator (or_introl eq_refl)).
    destruct (String.eqb operator "LIKE") eqn:He; [|reflexivity].
    apply String.eqb_eq in He. subst operator. discriminate Hc.
Qed.

Lemma parse_where_operators (tokens : list Token) (ast : Query) (condition : Condition) :
  forallb wellLexed tokens = true ->
  parse tokens = Ok ast -> where_ ast = Some condition -> operatorsLexed condition.
Proof.
  intros Hw Hp Hc. unfold parse in Hp.
  apply bind_Ok in Hp as ([ast' rest] & Hp & Hk). injection Hk as ->.
  apply parseClauses_order in Hp as (p1 & p2 & p3 & _ & _ & _ & Hs & Hf & Hwh & _).
  apply parseSelect_suffix in Hs as [Hs _]. apply parseFrom_suffix in Hf.
  assert (Hp2 : p2 `suffix_of` tokens) by suffix_chain.
  rewrite Hc in Hwh. unfold parseWhere in Hwh.
  destruct (negb (valueIs p2 "WHERE")); [discriminate|].
  apply bind_Ok in Hwh as ([c q] & Hcond & Hk). injection Hk as -> _.
  assert (Hadv : advance p2 `suffix_of` tokens) by suffix_chain.
  apply (condition_operators _ _ (wellLexed_suffix _ _ Hadv Hw)) in Hcond as [_ Hcond].
  exact Hcond.
Qed.

(** X3. On a query text made of recognized characters [parseQuery] has an
    outcome, within one call of [nextToken] per character and one for the
    end of input: it returns a tree, or it throws an Error whose message
    opens with [Parse error: ]. Nothing else is thrown, and the parser's
    own loops end on every token sequence. *)
Theorem parseQuery_answers_recognized_text (query : string) :
  allRecognized query = true ->
  (exists ast, parseQuery (S (String.length query)) query = Ok ast)
  \/ (exists msg,
        parseQuery (S (String.length query)) query
        = Throw (Error ("Parse error: " ++ msg))).
Proof.
  intros Hrec. unfold parseQuery.
  destruct (LexerFacts.tokenize_terminates query Hrec) as [tokens ->]. cbn [bind].
  pose proof (parse_settled tokens) as Hs.
  destruct (parse tokens) as [ast|e|]; [left | right | contradiction]; eauto.
Qed.

Lemma parseQuery_answers_recognized_text_witness :
  (exists ast, parseQuery 35 "SELECT host WHERE host LIKE 'prod'" = Ok ast)
  \/ (exists msg,
        parseQuery 35 "SELECT host WHERE host LIKE 'prod'"
        = Throw (Error ("Parse error: " ++ msg))).
Proof.
  exact (parseQuery_answers_recognized_text
           "SELECT host WHERE host LIKE 'prod'" eq_refl).
Defined.

(** X4. The comparisons of a WHERE condition that [parseQuery] returns
    for a query text carry only the operators the lexer can make: [=],
    [==], [<], [<=], [<>], [>], [>=] and [!]. LIKE and IN are lexed as
    keywords and [!=] as two tokens, so no text is parsed to a LIKE, an IN
    or a [!=] comparison: the cases of [evaluateCondition] for them are
    reached only by a tree that was not parsed from text. *)
Theorem text_conditions_use_lexed_operators (fuel : nat) (query : string)
    (ast : Query) (condition : Condition) :
  parseQuery fuel query = Ok ast ->
  where_ ast = Some condition ->
  (forall op, In op (operators condition) -> In op lexedOperators)
  /\ ~ In "LIKE" (operators condition)
  /\ ~ In "IN" (operators condition)
  /\ ~ In "!=" (operators condition).
Proof.
  intros Hq Hc. apply parseQuery_Ok in Hq as (tokens & Ht & Hp).
  apply TokenFacts.tokenizeLoop_wellLexed in Ht; [|reflexivity].
  pose proof (parse_where_operators tokens ast condition Ht Hp Hc) as Hops.
  repeat split.
  - intros op Hin. apply GroupFacts.includesStr_In. apply Hops. exact Hin.
  - intros Hin. apply Hops in Hin. discriminate Hin.
  - intros Hin. apply Hops in Hin. discriminate Hin.
  - intros Hin. apply Hops in Hin. discriminate Hin.
Qed.

Lemma text_conditions_use_lexed_operators_witness :
  ~ In "LIKE"
      (operators (And (Compare "=" "env" (Scalar (JS.VStr "prod")))
                      (Compare ">" "version" (Scalar (JS.VStr "1.0")))))
  /\ ~ In "IN"
        (operators (And (Compare "=" "env" (Scalar (JS.VStr "prod")))
                        (Compare ">" "version" (Scalar (JS.VStr "1.0")))))
  /\ ~ In "!="
        (operators (And (Compare "=" "env" (Scalar (JS.VStr "prod")))
                        (Compare ">" "version" (Scalar (JS.VStr "1.0"))))).
Proof.
  exact (proj2 (text_conditions_use_lexed_operators 100
    "SELECT host WHERE env = 'prod' AND version > '1.0'" _ _ eq_refl eq_refl)).
Defined.

Lemma identifier_is_no_mark (c : string) (p : Parser) :
  wellLexed (TIdentifier c) = true ->
  valueIs (TIdentifier c :: p) "NOT" = false
  /\ valueIs (TIdentifier c :: p) "(" = false.
Proof.
  cbn [wellLexed]. intros Hc. unfold valueIs. cbn [currentToken value].
  split.
  - destruct (String.eqb c "NOT") eqn:He; [|reflexivity].
    apply String.eqb_eq in He. subst c. discriminate Hc.
  - destruct (String.eqb c "(") eqn:He; [|reflexivity].
    apply String.eqb_eq in He. subst c. discriminate Hc.
Qed.

Lemma operator_is_no_mark (o : string) :
  wellLexed (TOperator o) = true ->
  String.eqb o "." = false /\ String.eqb o "IN" = false.
Proof.
  cbn [wellLexed]. intros Ho.
  split.
  - destruct (String.eqb o ".") eqn:He; [|reflexivity].
    apply String.eqb_eq in He. subst o. discriminate Ho.
  - destruct (String.eqb o "IN") eqn:He; [|reflexivity].
    apply String.eqb_eq in He. subst o. discriminate Ho.
Qed.

Lemma parseConditionTerm_comparison (fuel : nat) (c o t : string) (p : Parser) :
  simpleComparison c o = true ->
  parseConditionTerm (S fuel) (comparisonTokens c o t ++ p)%list
  = Ok (comparison c o t, p).
Proof.
  unfold simpleComparison. intros Hs. apply andb_true_iff in Hs as [Hc Ho].
  unfold comparisonTokens. cbn [app parseConditionTerm].
  destruct (identifier_is_no_mark c (TOperator o :: TString t :: p) Hc) as [-> ->].
  destruct (operator_is_no_mark o Ho) as [Hdot Hin].
  unfold parseColumnIdentifier, expectIdentifier, expect.
  cbn [currentToken type TokenType_eqb negb bind advance text value JS.toString].
  unfold valueIs at 1. cbn [currentToken value]. rewrite Hdot.
  cbn [bind currentToken type TokenType_eqb negb advance].
  unfold parseValue. cbn [bind currentToken advance text value JS.toString].
  rewrite Hin. reflexivity.
Qed.

Lemma valueIs_connective (k : Connective) (p : Parser) :
  valueIs (connectiveToken k :: p) "AND" || valueIs (connectiveToken k :: p) "OR" = true
  /\ (if valueIs (connectiveToken k :: p) "AND" then And else Or) = connect k.
Proof. destruct k; split; reflexivity. Qed.

(** X5. AND and OR have one precedence and associate to the left: three
    comparisons joined by two connectives are parsed to the tree that
    applies the second connective to the node of the first two comparisons
    and to the third, whichever the connectives. So [a OR b AND c] is
    [(a OR b) AND c]. *)
Theorem connectives_associate_left (fuel : nat) (k1 k2 : Connective)
    (c1 o1 t1 c2 o2 t2 c3 o3 t3 : string) (rest : list Token) :
  simpleComparison c1 o1 = true ->
  simpleComparison c2 o2 = true ->
  simpleComparison c3 o3 = true ->
  valueIs rest "AND" || valueIs rest "OR" = false ->
  parseCondition (4 + fuel)
    (comparisonTokens c1 o1 t1 ++ connectiveToken k1
       :: comparisonTokens c2 o2 t2 ++ connectiveToken k2
       :: comparisonTokens c3 o3 t3 ++ rest)%list
  = Ok (connect k2 (connect k1 (comparison c1 o1 t1) (comparison c2 o2 t2))
          (comparison c3 o3 t3),
        rest).
Proof.
  intros H1 H2 H3 Hrest.
  change (4 + fuel) with (S (S (S (S fuel)))).
  cbn [parseCondition].
  rewrite (parseConditionTerm_comparison _ c1 o1 t1 _ H1). cbn [bind].
  cbn [parseConditionRest].
  destruct (valueIs_connective k1
              (comparisonTokens c2 o2 t2 ++ connectiveToken k2
                 :: comparisonTokens c3 o3 t3 ++ rest)%list) as [-> ->].
  cbn [advance].
  rewrite (parseConditionTerm_comparison _ c2 o2 t2 _ H2). cbn [bind].
  destruct (valueIs_connective k2 (comparisonTokens c3 o3 t3 ++ rest)%list) as [-> ->].
  cbn [advance].
  rewrite (parseConditionTerm_comparison _ c3 o3 t3 _ H3). cbn [bind].
  rewrite Hrest. reflexivity.
Qed.

Lemma connectives_associate_left_witness :
  parseCondition 4
    (comparisonTokens "a" "=" "1" ++ connectiveToken OR
       :: comparisonTokens "b" "=" "2" ++ connectiveToken AND
       :: comparisonTokens "c" "=" "3" ++ [TEOF])%list
  = Ok (And (Or (comparison "a" "=" "1") (comparison "b" "=" "2"))
          (comparison "c" "=" "3"),
        [TEOF]).
Proof.
  exact (connectives_associate_left 0 OR AND "a" "=" "1" "b" "=" "2" "c" "=" "3"
           [TEOF] eq_refl eq_refl eq_refl eq_refl).
Defined.

Lemma parseOrders_nonempty (fuel : nat) (p p' : Parser) (os : list OrderSpec) :
  parseOrders fuel p = Ok (os, p') -> os <> [].
Proof.
  destruct fuel as [|fuel]; cbn [parseOrders]; [discriminate|]. intros He.
  apply bind_Ok in He as ([column q] & _ & He).
  destruct (if valueIs q "ASC" || valueIs q "DESC"
            then (text (currentToken q), advance q) else ("ASC", q)) as [d q'].
  destruct (valueIs q' ",").
  - apply bind_Ok in He as ([rest q''] & _ & He). injection He as <- _. discriminate.
  - injection He as <- _. discriminate.
Qed.

Lemma parseGroupColumns_nonempty (fuel : nat) (p p' : Parser) (cs : list string) :
  parseGroupColumns fuel p = Ok (cs, p') -> cs <> [].
Proof.
  destruct fuel as [|fuel]; cbn [parseGroupColumns]; [discriminate|]. intros He.
  apply bind_Ok in He as ([column q] & _ & He).
  destruct (valueIs q ",").
  - apply bind_Ok in He as ([rest q''] & _ & He). injection He as <- _. discriminate.
  - injection He as <- _. discriminate.
Qed.

(** X6. A tree that [parse] returns has at least one item in its select
    list, and an ORDER BY or a GROUP BY clause that is present has at
    least one key: the three lists are filled by loops that read an item
    before they test for a comma. The tests of the executor for an empty
    [orderBy] or [groupBy] array never succeed on a parsed tree. *)
Theorem parsed_lists_are_not_empty (tokens : list Token) (ast : Query) :
  parse tokens = Ok ast ->
  columns ast <> []
  /\ orderBy ast <> Some []
  /\ Parser.groupBy ast <> Some [].
Proof.
  intros Hp. unfold parse in Hp.
  apply bind_Ok in Hp as ([ast' rest] & Hp & Hk). injection Hk as ->.
  apply parseClauses_order in Hp as (p1 & p2 & p3 & p4 & p5 & p6 & Hs & _ & _ & Ho & Hg & _).
  split; [|split].
  - apply parseSelect_suffix in Hs as [_ Hs]. exact Hs.
  - unfold parseOrderBy in Ho. destruct (negb (valueIs p3 "ORDER")).
    + injection Ho as <- _. discriminate.
    + apply bind_Ok in Ho as ([t q] & _ & Ho).
      apply bind_Ok in Ho as ([t' q'] & _ & Ho).
      apply bind_Ok in Ho as ([os q''] & Hos & Ho). injection Ho as <- _.
      apply parseOrders_nonempty in Hos. congruence.
  - unfold parseGroupBy in Hg. destruct (negb (valueIs p4 "GROUP")).
    + injection Hg as <- _. discriminate.
    + apply bind_Ok in Hg as ([t q] & _ & Hg).
      apply bind_Ok in Hg as ([t' q'] & _ & Hg).
      apply bind_Ok in Hg as ([cs q''] & Hcs & Hg). injection Hg as <- _.
      apply parseGroupColumns_nonempty in Hcs. congruence.
Qed.

Lemma parsed_lists_are_not_empty_witness :
  columns (mkQuery [ColName "a"] (Some "t") None None (Some ["a"]) None None) <> []
  /\ orderBy (mkQuery [ColName "a"] (Some "t") None None (Some ["a"]) None None)
     <> Some []
  /\ Parser.groupBy (mkQuery [ColName "a"] (Some "t") None None (Some ["a"]) None None)
     <> Some [].
Proof.
  exact (parsed_lists_are_not_empty groupThenOrder _ eq_refl).
Defined.

Lemma trimStart_spaces (s : string) :
  allChars JS.isSpace s = true -> JS.trimStart s = "".
Proof.
  induction s as [|c s IH]; cbn [allChars JS.trimStart]; [reflexivity|].
  intros Hs. apply andb_true_iff in Hs as [Hc Hs]. rewrite Hc. exact (IH Hs).
Qed.

(** X23. A query opens with SELECT: a token sequence that [parse] accepts
    has the keyword SELECT as its first token, so no text is parsed as
    another kind of statement; and a text that is empty or all whitespace
    is rejected with the message [Parse error: Expected KEYWORD, got
    EOF]. *)
Theorem queries_open_with_SELECT :
  (forall (tokens : list Token) (ast : Query),
     parse tokens = Ok ast -> exists rest, tokens = TKeyword "SELECT" :: rest)
  /\ (forall (fuel : nat) (query : string),
        allChars JS.isSpace query = true ->
        parseQuery (S fuel) query
        = Throw (Error "Parse error: Expected KEYWORD, got EOF")).
Proof.
  split.
  - intros tokens ast Hp. unfold parse in Hp.
    apply bind_Ok in Hp as ([ast' rest] & Hp & _).
    unfold parseClauses in Hp. apply bind_Ok in Hp as ([cols p1] & Hs & _).
    unfold parseSelect in Hs. apply bind_Ok in Hs as ([t q] & Ht & _).
    unfold expect in Ht.
    destruct tokens as [|t0 rest0]; [discriminate Ht|].
    cbn [currentToken] in Ht.
    destruct t0 as [s| | | | | |]; try discriminate Ht.
    cbn [type TokenType_eqb negb] in Ht.
    destruct (valueIs (TKeyword s :: rest0) "SELECT") eqn:Hv; [|discriminate Ht].
    apply valueIs_true in Hv. cbn [currentToken value] in Hv.
    injection Hv as ->. eauto.
  - intros fuel query Hq. unfold parseQuery, Lexer.new, JS.trim.
    rewrite (trimStart_spaces query Hq). reflexivity.
Qed.

Lemma queries_open_with_SELECT_witness :
  (exists rest, groupThenOrder = TKeyword "SELECT" :: rest)
  /\ parseQuery 1 "   " = Throw (Error "Parse error: Expected KEYWORD, got EOF").
Proof.
  split.
  - exact (proj1 queries_open_with_SELECT groupThenOrder _ eq_refl).
  - exact (proj2 queries_open_with_SELECT 0 "   " eq_refl).
Defined.

(** ** The number of a LIMIT clause *)

Lemma parseWhere_suffix (fuel : nat) (p p' : Parser) (w : option Condition) :
  forallb wellLexed p = true ->
  parseWhere fuel p = Ok (w, p') -> p' `suffix_of` p.
Proof.
  intros Hp. unfold parseWhere. destruct (negb (valueIs p "WHERE")).
  - intros He. injection He as _ <-. reflexivity.
  - intros He. apply bind_Ok in He as ([c q] & Hc & He). injection He as _ <-.
    apply (condition_operators _ _ (wellLexed_suffix _ _ (advance_suffix p) Hp)) in Hc
      as [Hs _].
    suffix_chain.
Qed.

Lemma parseOrders_suffix (fuel : nat) (p p' : Parser) (os : list OrderSpec) :
  parseOrders fuel p = Ok (os, p') -> p' `suffix_of` p.
Proof.
  revert p p' os. induction fuel as [|fuel IH]; intros p p' os He;
    cbn [parseOrders] in He; [discriminate|].
  apply bind_Ok in He as ([column q] & Hc & He).
  apply parseColumnIdentifier_suffix in Hc.
  destruct (valueIs q "ASC" || valueIs q "DESC").
  - destruct (valueIs (advance q) ",").
    + apply bind_Ok in He as ([rest q'] & Hr & He). injection He as _ <-.
      apply IH in Hr. suffix_chain.
    + injection He as _ <-. suffix_chain.
  - destruct (valueIs q ",").
    + apply bind_Ok in He as ([rest q'] & Hr & He). injection He as _ <-.
      apply IH in Hr. suffix_chain.
    + injection He as _ <-. exact Hc.
Qed.

Lemma parseOrderBy_suffix (fuel : nat) (p p' : Parser) (o : option (list OrderSpec)) :
  parseOrderBy fuel p = Ok (o, p') -> p' `suffix_of` p.
Proof.
  unfold parseOrderBy. destruct (negb (valueIs p "ORDER")).
  - intros He. injection He as _ <-. reflexivity.
  - intros He. apply bind_Ok in He as ([t q] & Ht & He). apply expect_suffix in Ht.
    apply bind_Ok in He as ([t' q'] & Ht' & He). apply expect_suffix in Ht'.
    apply bind_Ok in He as ([os q''] & Hos & He). injection He as _ <-.
    apply parseOrders_suffix in Hos. suffix_chain.
Qed.

Lemma parseGroupColumns_suffix (fuel : nat) (p p' : Parser) (cs : list string) :
  parseGroupColumns fuel p = Ok (cs, p') -> p' `suffix_of` p.
Proof.
  revert p p' cs. induction fuel as [|fuel IH]; intros p p' cs He;
    cbn [parseGroupColumns] in He; [discriminate|].
  apply bind_Ok in He as ([column q] & Hc & He).
  apply parseColumnIdentifier_suffix in Hc.
  destruct (valueIs q ",").
  - apply bind_Ok in He as ([rest q'] & Hr & He). injection He as _ <-.
    apply IH in Hr. suffix_chain.
  - injection He as _ <-. exact Hc.
Qed.

Lemma parseGroupBy_suffix (fuel : nat) (p p' : Parser) (g : option (list string)) :
  parseGroupBy fuel p = Ok (g, p') -> p' `suffix_of` p.
Proof.
  unfold parseGroupBy. destruct (negb (valueIs p "GROUP")).
  - intros He. injection He as _ <-. reflexivity.
  - intros He. apply bind_Ok in He as ([t q] & Ht & He). apply expect_suffix in Ht.
    apply bind_Ok in He as ([t' q'] & Ht' & He). apply expect_suffix in Ht'.
    apply bind_Ok in He as ([cs q''] & Hcs & He). injection He as _ <-.
    apply parseGroupColumns_suffix in Hcs. suffix_chain.
Qed.

Lemma parseJoin_suffix (p p' : Parser) (j : option JoinSpec) :
  parseJoin p = Ok (j, p') -> p' `suffix_of` p.
Proof.
  unfold parseJoin.
  destruct (negb (valueIs p "JOIN") && negb (valueIs p "INNER")
            && negb (valueIs p "LEFT") && negb (valueIs p "RIGHT")).
  - intros He. injection He as _ <-. reflexivity.
  - destruct (valueIs p "INNER" || valueIs p "LEFT" || valueIs p "RIGHT");
      intros He;
      apply bind_Ok in He as ([t1 q1] & H1 & He); apply expect_suffix in H1;
      apply bind_Ok in He as ([t2 q2] & H2 & He); apply expectIdentifier_suffix in H2;
      apply bind_Ok in He as ([t3 q3] & H3 & He); apply expect_suffix in H3;
      apply bind_Ok in He as ([t4 q4] & H4 & He);
      apply parseColumnIdentifier_suffix in H4;
      apply bind_Ok in He as ([t5 q5] & H5 & He); apply expect_suffix in H5;
      apply bind_Ok in He as ([t6 q6] & H6 & He);
      apply parseColumnIdentifier_suffix in H6;
      injection He as _ <-; suffix_chain.
Qed.

(** The number of a LIMIT clause is the value of a NUMBER token. *)
Lemma parseLimit_number (p p' : Parser) (n : JS.number) :
  forallb wellLexed p = true ->
  parseLimit p = Ok (Some n, p') ->
  nonNegative n = true.
Proof.
  intros Hp. unfold parseLimit. destruct (negb (valueIs p "LIMIT")); [discriminate|].
  intros He. apply bind_Ok in He as ([t q] & Ht & He).
  apply expect_advance in Ht as (-> & _ & Hty).
  pose proof (wellLexed_suffix _ _ (advance_suffix p) Hp) as Hadv.
  destruct (advance p) as [|t rest]; [discriminate Hty|].
  cbn [currentToken] in *. cbn [forallb] in Hadv.
  apply andb_true_iff in Hadv as [Ht _].
  destruct t as [| | |m| | |]; try discriminate He. injection He as -> _.
  exact Ht.
Qed.

Lemma truncate_nonneg (q : Q) : (0 <= q)%Q -> (0 <= JS.truncate q)%Z.
Proof.
  unfold JS.truncate, Qle. cbn. intros Hq.
  apply Z.quot_pos; lia.
Qed.

Lemma slice0_nonneg {A : Type} (arr : list A) (q : Q) :
  (0 <= q)%Q -> JS.slice0 arr (JS.Fin q) = firstn (Z.to_nat (JS.truncate q)) arr.
Proof.
  intros Hq. unfold JS.slice0. pose proof (truncate_nonneg q Hq) as Hz.
  destruct (JS.truncate q <? 0)%Z eqn:Hneg; [apply Z.ltb_lt in Hneg; lia|].
  destruct (Z.le_ge_cases (JS.truncate q) (Z.of_nat (length arr))) as [Hle | Hge].
  - rewrite Z.min_l by exact Hle. reflexivity.
  - rewrite Z.min_r by exact Hge. rewrite Nat2Z.id.
    rewrite firstn_all. symmetry. apply firstn_all2. lia.
Qed.

(** X7. The number of a LIMIT clause written in a query text is neither
    NaN nor negative (a sign is no part of a NUMBER token), so the slice
    never counts from the end of the rows. For a finite number the result
    is the first rows up to the number rounded down (LIMIT 2.5 gives two
    rows, a limit above zero and below one gives none), except that the
    limit 0 gives every row; for a number too large to be finite it is
    every row. *)
Theorem limit_written_in_text (fuel : nat) (query : string) (ast : Query)
    (n : JS.number) :
  parseQuery fuel query = Ok ast ->
  limit ast = Some n ->
  nonNegative n = true
  /\ forall rows : list Row,
       limitStage ast rows
       = match n with
         | JS.Fin q =>
             if Qeq_bool q 0 then rows else firstn (Z.to_nat (JS.truncate q)) rows
         | _ => rows
         end.
Proof.
  intros Hq Hlimit. apply parseQuery_Ok in Hq as (tokens & Ht & Hp).
  apply TokenFacts.tokenizeLoop_wellLexed in Ht; [|reflexivity].
  unfold parse in Hp.
  apply bind_Ok in Hp as ([ast' rest] & Hp & Hk). injection Hk as ->.
  apply parseClauses_order in Hp
    as (p1 & p2 & p3 & p4 & p5 & p6 & Hs & Hf & Hw & Ho & Hg & Hj & Hl).
  apply parseSelect_suffix in Hs as [Hs _]. apply parseFrom_suffix in Hf.
  assert (H2 : p2 `suffix_of` tokens) by suffix_chain.
  apply (parseWhere_suffix _ _ _ _ (wellLexed_suffix _ _ H2 Ht)) in Hw.
  apply parseOrderBy_suffix in Ho. apply parseGroupBy_suffix in Hg.
  apply parseJoin_suffix in Hj.
  assert (H6 : p6 `suffix_of` tokens) by suffix_chain.
  rewrite Hlimit in Hl.
  pose proof (parseLimit_number _ _ _ (wellLexed_suffix _ _ H6 Ht) Hl) as Hn.
  split; [exact Hn|].
  intros rows. unfold limitStage. rewrite Hlimit.
  destruct n as [|[]|q]; try discriminate Hn; [reflexivity|].
  cbn [JS.truthy JS.isNaN orb JS.eqb JS.zero JS.ofZ].
  change (inject_Z 0) with 0%Q.
  destruct (Qeq_bool q 0); cbn [negb]; [reflexivity|].
  apply slice0_nonneg. apply Qle_bool_iff. exact Hn.
Qed.

Lemma limit_written_in_text_witness :
  nonNegative (JS.parseFloatStr "2.5") = true
  /\ forall rows : list Row,
       limitStage
         (mkQuery [ColName "a"] None None None None None (Some (JS.parseFloatStr "2.5")))
         rows
       = match JS.parseFloatStr "2.5" with
         | JS.Fin q =>
             if Qeq_bool q 0 then rows else firstn (Z.to_nat (JS.truncate q)) rows
         | _ => rows
         end.
Proof.
  exact (limit_written_in_text 100 "SELECT a LIMIT 2.5" _ _ eq_refl eq_refl).
Defined.

(** ** The items of a parsed select list *)

Lemma expectIdentifier_named (p p' : Parser) (s : string) :
  forallb wellLexed p = true -> expectIdentifier p = Ok (s, p') -> s <> "".
Proof.
  unfold expectIdentifier. intros Hp He.
  apply bind_Ok in He as ([t q] & He & Hk). injection Hk as <- _.
  apply expect_advance in He as (-> & _ & Hty).
  destruct p as [|t p]; [discriminate Hty|].
  cbn [currentToken] in *. cbn [forallb] in Hp.
  apply andb_true_iff in Hp as [Ht _].
  destruct t as [| s | | | | |]; try discriminate Hty.
  cbn [wellLexed] in Ht. intros Hs. change (s = "") in Hs. subst s.
  discriminate Ht.
Qed.

(** The parser builds no item that lacks both a type and a column. *)
Lemma parseColumn_names (p p' : Parser) (c : ColumnSpec) :
  forallb wellLexed p = true -> parseColumn p = Ok (c, p') -> namesColumn c = true.
Proof.
  unfold parseColumn. intros Hp He.
  destruct (TokenType_eqb (type (currentToken p)) KEYWORD
            && JS.includesStr aggregateNames (text (currentToken p))) eqn:Hagg.
  - apply andb_true_iff in Hagg as [_ Hagg].
    assert (Ht : forall column alias,
              namesColumn (ColAgg (text (currentToken p)) column alias) = true).
    { intros column alias. cbn [namesColumn].
      destruct (text (currentToken p)); [discriminate Hagg | reflexivity]. }
    apply bind_Ok in He as ([t1 p1] & _ & He).
    apply bind_Ok in He as ([column p2] & _ & He).
    apply bind_Ok in He as ([t3 p3] & _ & He).
    destruct (valueIs p3 "AS").
    + apply bind_Ok in He as ([alias p4] & _ & He). injection He as <- _. apply Ht.
    + injection He as <- _. apply Ht.
  - apply bind_Ok in He as ([column p1] & Hc & He).
    apply (expectIdentifier_named _ _ _ Hp) in Hc.
    apply bind_Ok in He as ([column' p2] & Hc' & He).
    assert (Hn : String.eqb column' "" = false).
    { destruct column as [|a column]; [contradiction|].
      destruct (valueIs p1 ".").
      - apply bind_Ok in Hc' as ([c2 p3] & _ & Hc'). injection Hc' as <- _.
        reflexivity.
      - injection Hc' as <- _. reflexivity. }
    destruct (valueIs p2 "AS").
    + apply bind_Ok in He as ([alias p3] & _ & He). injection He as <- _.
      cbn [namesColumn]. rewrite Hn. reflexivity.
    + injection He as <- _. reflexivity.
Qed.

Lemma parseColumns_names (fuel : nat) (p p' : Parser) (cs : list ColumnSpec) :
  forallb wellLexed p = true -> parseColumns fuel p = Ok (cs, p') ->
  forallb namesColumn cs = true.
Proof.
  revert p p' cs. induction fuel as [|fuel IH]; intros p p' cs Hp He;
    cbn [parseColumns] in He; [discriminate|].
  apply bind_Ok in He as ([c q] & Hc & He).
  pose proof (parseColumn_names _ _ _ Hp Hc) as Hn.
  apply parseColumn_suffix in Hc.
  destruct (valueIs q ",").
  - apply bind_Ok in He as ([rest q'] & Hr & He). injection He as <- _.
    cbn [forallb]. rewrite Hn. refine (IH (advance q) q' rest _ Hr).
    apply (wellLexed_suffix (advance q) p); [|exact Hp].
    transitivity q; [apply advance_suffix | exact Hc].
  - injection He as <- _. cbn [forallb]. rewrite Hn. reflexivity.
Qed.

Lemma parse_columns_names (tokens : list Token) (ast : Query) :
  forallb wellLexed tokens = true -> parse tokens = Ok ast ->
  forallb namesColumn (columns ast) = true.
Proof.
  intros Hw Hp. unfold parse in Hp.
  apply bind_Ok in Hp as ([ast' rest] & Hp & Hk). injection Hk as ->.
  apply parseClauses_order in Hp as (p1 & _ & _ & _ & _ & _ & Hs & _).
  unfold parseSelect in Hs.
  apply bind_Ok in Hs as ([t q] & Ht & Hs). apply expect_suffix in Ht.
  destruct (valueIs q "*").
  - injection Hs as <- _. reflexivity.
  - apply (parseColumns_names _ q p1 _ (wellLexed_suffix q tokens Ht Hw) Hs).
Qed.

End SyntaxFacts.

(* ===================================================================== *)
(** * Cells: qualified names and missing columns *)
(* ===================================================================== *)

Module ValueFacts.
Import Lexer Parser Engine Notions Terms TextFacts.
#[local] Open Scope string_scope.

Lemma includesChar_separator (sep : ascii) (s t : string) :
  JS.includesChar sep (s ++ String sep t) = true.
Proof.
  rewrite includesChar_app. cbn [JS.includesChar].
  rewrite Ascii.eqb_refl. apply orb_true_r.
Qed.

Lemma afterDot_qualified (t c : string) :
  JS.includesChar "." t = false -> JS.includesChar "." c = false ->
  afterDot (qualified t c) = c.
Proof.
  intros Ht Hc. unfold afterDot, qualified.
  change ("." ++ c)%string with (String "." c).
  rewrite (split_at_separator "." t c Ht), (split_no_separator "." c Hc).
  reflexivity.
Qed.


(** X8. The table in front of a column name is not looked at: [t.c] reads
    the cell [c] of the row, whatever [t], and only when that cell is
    missing or null the field whose name is the whole text [t.c]. In a
    joined row, where the fields of the secondary row overwrite those of
    the primary row, a name qualified with either table therefore reads
    the secondary row's cell when that row has one. *)
Theorem table_qualifier_is_ignored (t c : string) :
  JS.includesChar "." t = false ->
  JS.includesChar "." c = false ->
  (forall row : Row,
     getValue row (qualified t c)
     = if JS.isNullish (prop row c) then prop row (qualified t c) else prop row c)
  /\ (forall (leftRow rightRow : Row) (v : JS.value),
        rightRow !! c = Some v -> v <> JS.VNull ->
        getValue (merge leftRow rightRow) (qualified t c) = v).
Proof.
  intros Ht Hc.
  assert (Hget : forall row : Row,
            getValue row (qualified t c)
            = if JS.isNullish (prop row c) then prop row (qualified t c)
              else prop row c).
  { intros row. unfold getValue.
    replace (JS.includesChar "." (qualified t c)) with true
      by (symmetry; apply (includesChar_separator "." t c)).
    rewrite (afterDot_qualified t c Ht Hc). unfold nullish.
    destruct (JS.isNullish (prop row c)); [|reflexivity].
    destruct (prop row (qualified t c)); reflexivity. }
  split; [exact Hget|].
  intros leftRow rightRow v Hv Hnull. rewrite Hget.
  unfold prop, merge. rewrite (lookup_union_l' _ _ _ (mk_is_Some _ _ Hv)), Hv.
  destruct v; [contradiction | reflexivity | reflexivity].
Qed.

Lemma table_qualifier_is_ignored_witness :
  getValue (merge {["id" := num 1]} {["id" := num 7; "x" := str "A"]})
    (qualified "left" "id") = num 7.
Proof.
  exact (proj2 (table_qualifier_is_ignored "left" "id" eq_refl eq_refl)
           {["id" := num 1]} {["id" := num 7; "x" := str "A"]} (num 7)
           eq_refl ltac:(discriminate)).
Defined.

Section WithHost.
Context `{Host}.

(** X9. A row whose cell is missing or null, compared with a literal that
    is not null: the equality operators [=] and [==] reject the row and
    [<>] and [!=] accept it; as null orders below every value, [<] and
    [<=] accept the row and [>] and [>=] reject it, whatever the
    literal. *)
Theorem comparisons_with_a_missing_cell (row : Row) (column : string) (v : JS.value) :
  getValue row column = JS.VNull ->
  v <> JS.VNull ->
  evaluateCondition row (Compare "=" column (Scalar v)) = Ok false
  /\ evaluateCondition row (Compare "==" column (Scalar v)) = Ok false
  /\ evaluateCondition row (Compare "<>" column (Scalar v)) = Ok true
  /\ evaluateCondition row (Compare "!=" column (Scalar v)) = Ok true
  /\ evaluateCondition row (Compare "<" column (Scalar v)) = Ok true
  /\ evaluateCondition row (Compare "<=" column (Scalar v)) = Ok true
  /\ evaluateCondition row (Compare ">" column (Scalar v)) = Ok false
  /\ evaluateCondition row (Compare ">=" column (Scalar v)) = Ok false.
Proof.
  intros Hcell Hv.
  assert (Heq : JS.looseEq JS.VNull v = false)
    by (destruct v; [contradiction | |]; reflexivity).
  assert (Hcmp : compareValues JS.VNull v = JS.ofZ (-1))
    by (destruct v; [contradiction | |]; reflexivity).
  cbn [evaluateCondition operandValue String.eqb Ascii.eqb Bool.eqb orb].
  rewrite Hcell, Heq, Hcmp. repeat split; reflexivity.
Qed.

End WithHost.

Lemma comparisons_with_a_missing_cell_witness :
  evaluateCondition (H := Reference.host) {["host" := str "a"]}
    (Compare "<" "port" (Scalar (num 80))) = Ok true.
Proof.
  exact (proj1 (proj2 (proj2 (proj2 (proj2
    (comparisons_with_a_missing_cell (H := Reference.host) {["host" := str "a"]}
       "port" (num 80) eq_refl ltac:(discriminate))))))).
Defined.

End ValueFacts.

(* ===================================================================== *)
(** * Joins: the rows of an INNER and of a LEFT join *)
(* ===================================================================== *)

Module JoinShape.
Import Lexer Parser Engine Notions Terms.
#[local] Open Scope string_scope.

Lemma joinRow_INNER (rightRows : list Row) (lc rc : string) (l : Row) :
  joinRow rightRows "INNER" lc rc l
  = List.map (merge l)
      (List.filter (fun r => JS.looseEq (getValue l lc) (getValue r rc)) rightRows).
Proof.
  unfold joinRow.
  destruct (List.filter _ rightRows) as [|m ms]; reflexivity.
Qed.

(** X10. The rows of an INNER join are exactly the merges of a primary
    row with a secondary row whose join cells are loosely equal. A cell
    that is missing reads as null and null is loosely equal to null, so a
    primary row and a secondary row that both lack their join column are
    joined with each other. *)
Theorem inner_join_rows (leftRows rightRows : list Row) (spec : JoinSpec) :
  joinType spec = "INNER" ->
  let lc := joinColumn (onLeft spec) in
  let rc := joinColumn (onRight spec) in
  (forall x : Row,
     In x (performJoin leftRows rightRows (Some spec)) <->
     exists l r, In l leftRows /\ In r rightRows
                 /\ JS.looseEq (getValue l lc) (getValue r rc) = true
                 /\ x = merge l r)
  /\ (forall l r : Row,
        In l leftRows -> In r rightRows ->
        getValue l lc = JS.VNull -> getValue r rc = JS.VNull ->
        In (merge l r) (performJoin leftRows rightRows (Some spec))).
Proof.
  intros Hty lc rc.
  assert (Hin : forall x : Row,
     In x (performJoin leftRows rightRows (Some spec)) <->
     exists l r, In l leftRows /\ In r rightRows
                 /\ JS.looseEq (getValue l lc) (getValue r rc) = true
                 /\ x = merge l r).
  { intros x. unfold performJoin. rewrite Hty. cbn [String.eqb Ascii.eqb Bool.eqb orb].
    fold lc rc. rewrite in_flat_map. split.
    - intros (l & Hl & Hx). rewrite joinRow_INNER in Hx.
      apply in_map_iff in Hx as (r & <- & Hr).
      apply filter_In in Hr as [Hr Heq]. eauto 10.
    - intros (l & r & Hl & Hr & Heq & ->). exists l. split; [exact Hl|].
      rewrite joinRow_INNER. apply in_map. apply filter_In. auto. }
  split; [exact Hin|].
  intros l r Hl Hr Hlv Hrv. apply Hin. exists l, r. rewrite Hlv, Hrv. auto.
Qed.

Lemma inner_join_rows_witness :
  In (merge {["a" := num 1]} {["b" := num 2]})
    (performJoin [{["a" := num 1]}] [{["b" := num 2]}]
       (Some (mkJoin "INNER" "u" "id" "id"))).
Proof.
  exact (proj2 (inner_join_rows [{["a" := num 1]}] [{["b" := num 2]}]
                  (mkJoin "INNER" "u" "id" "id") eq_refl)
           {["a" := num 1]} {["b" := num 2]}
           (or_introl eq_refl) (or_introl eq_refl) eq_refl eq_refl).
Defined.

Lemma joinRow_sublist (rightRows : list Row) (lc rc : string) (l : Row) :
  joinRow rightRows "INNER" lc rc l `sublist_of` joinRow rightRows "LEFT" lc rc l
  /\ 1 <= length (joinRow rightRows "LEFT" lc rc l).
Proof.
  unfold joinRow.
  destruct (List.filter _ rightRows) as [|m ms]; cbn.
  - split; [apply sublist_nil_l | lia].
  - split; [reflexivity | lia].
Qed.

(** X11. A LEFT join returns the rows of the INNER join on the same
    columns, in the same order, with rows put in between them (the
    null-filled rows of the primary rows without a match); and it returns
    at least one row for each primary row. *)
Theorem left_join_extends_inner_join (leftRows rightRows : list Row) (spec : JoinSpec) :
  performJoin leftRows rightRows (Some (withJoinType "INNER" spec))
    `sublist_of` performJoin leftRows rightRows (Some (withJoinType "LEFT" spec))
  /\ length leftRows
     <= length (performJoin leftRows rightRows (Some (withJoinType "LEFT" spec))).
Proof.
  unfold performJoin, withJoinType. cbn [joinType onLeft onRight].
  cbn [String.eqb Ascii.eqb Bool.eqb orb].
  induction leftRows as [|l leftRows [IHs IHl]]; cbn [flat_map].
  - split; [reflexivity | cbn; lia].
  - destruct (joinRow_sublist rightRows (joinColumn (onLeft spec))
                (joinColumn (onRight spec)) l) as [Hs Hl].
    split.
    + apply sublist_app; [exact Hs | exact IHs].
    + rewrite length_app. cbn [length]. lia.
Qed.

End JoinShape.

(* ===================================================================== *)
(** * Projection, and ORDER BY after it *)
(* ===================================================================== *)

Module ProjectionFacts.
Import Lexer Parser Engine Notions Terms.
#[local] Open Scope string_scope.

(** The three ways of [selectColumns] *)
Lemma selectColumns_cases (rows : list Row) (cols : list ColumnSpec) (hasGroupBy : bool) :
  selectColumns rows cols hasGroupBy
  = if selectsAll cols then rows
    else if existsb isAggregation cols && negb hasGroupBy
         then [fold_left (collapseColumn rows) cols ∅]
         else List.map (fun row => fold_left (projectColumn row) cols ∅) rows.
Proof.
  destruct cols as [|col cols]; [reflexivity|].
  destruct col as [name | column alias | t column alias];
    try (destruct cols; reflexivity).
  destruct name as [|a name]; [destruct cols; reflexivity|].
  destruct a as [[] [] [] [] [] [] [] []];
    destruct name; destruct cols; reflexivity.
Qed.










Section WithHost.
Context `{Host}.



End WithHost.


End ProjectionFacts.

(* ===================================================================== *)
(** * Aggregates without GROUP BY *)
(* ===================================================================== *)

Module AggregateFacts.
Import Lexer Parser Engine Notions Terms ResultFacts.
#[local] Open Scope string_scope.







Lemma isAggregation_not_all (cols : list ColumnSpec) :
  existsb isAggregation cols = true -> selectsAll cols = false.
Proof.
  destruct cols as [|[name | column alias | t column alias] [|col cols]];
    try reflexivity. discriminate.
Qed.

Section WithHost.
Context `{Host}.


End WithHost.




End AggregateFacts.

(* ===================================================================== *)
(** * Groups: the partition and the fields of the result *)
(* ===================================================================== *)

Module GroupShape.
Import Lexer Parser Engine Notions Terms.
#[local] Open Scope string_scope.

Lemma pushToGroup_rows (key : string) (row : Row) (groups : Groups) :
  Permutation (row :: groupedRows groups) (groupedRows (pushToGroup key row groups)).
Proof.
  unfold groupedRows.
  induction groups as [|[k g] groups IH]; cbn [pushToGroup List.map concat snd].
  - rewrite app_nil_r. reflexivity.
  - destruct (String.eqb k key); cbn [List.map concat snd].
    + rewrite <- app_assoc. cbn [app]. apply Permutation_middle.
    + rewrite <- IH. apply Permutation_middle.
Qed.

Lemma pushToGroup_nonempty (key : string) (row : Row) (groups : Groups) :
  Forall (fun g => snd g <> []) groups ->
  Forall (fun g => snd g <> []) (pushToGroup key row groups).
Proof.
  induction 1 as [|[k g] groups Hg Hgroups IH]; cbn [pushToGroup].
  - constructor; [discriminate | constructor].
  - destruct (String.eqb k key).
    + constructor; [|exact Hgroups]. cbn [snd]. destruct g; discriminate.
    + constructor; [exact Hg | exact IH].
Qed.

Lemma fold_groups (gb : list string) (rows : list Row) (groups : Groups) :
  Forall (fun g => snd g <> []) groups ->
  let result :=
    fold_left (fun groups row => pushToGroup (getGroupKey row gb) row groups)
      rows groups in
  Permutation (rows ++ groupedRows groups) (groupedRows result)
  /\ Forall (fun g => snd g <> []) result.
Proof.
  revert groups. induction rows as [|row rows IH]; intros groups Hg; cbn [fold_left].
  - split; [reflexivity | exact Hg].
  - destruct (IH _ (pushToGroup_nonempty (getGroupKey row gb) row groups Hg))
      as [Hperm Hne].
    split; [|exact Hne].
    rewrite <- Hperm, <- pushToGroup_rows.
    cbn [app]. apply Permutation_middle.
Qed.

Lemma groupRows_partition (rows : list Row) (gb : list string) :
  Permutation rows (groupedRows (groupRows rows gb))
  /\ Forall (fun g => snd g <> []) (groupRows rows gb).
Proof.
  destruct (fold_groups gb rows [] (List.Forall_nil _)) as [Hperm Hne].
  fold (groupRows rows gb) in Hperm, Hne.
  unfold groupedRows at 1 in Hperm. cbn [List.map concat] in Hperm.
  rewrite app_nil_r in Hperm. split; assumption.
Qed.

Lemma groupRows_length (rows : list Row) (gb : list string) :
  length (groupRows rows gb) <= length rows.
Proof.
  destruct (groupRows_partition rows gb) as [Hperm Hne].
  rewrite (Permutation_length Hperm). clear Hperm.
  unfold groupedRows.
  induction Hne as [|[k g] groups Hg Hgroups IH]; cbn [List.map concat snd length].
  - lia.
  - rewrite length_app. destruct g; [contradiction|]. cbn [length]. lia.
Qed.

Lemma groupBy_length (rows : list Row) (gb : list string) (cols : list ColumnSpec) :
  length (groupBy rows (Some gb) cols) <= length rows.
Proof.
  unfold groupBy. destruct gb; [lia|].
  rewrite length_map. apply groupRows_length.
Qed.

(** X15. The groups of [groupBy] partition the rows: every row is in one
    group and in one only (the rows of all groups together are the rows,
    up to their order), and no group is empty. So there are at most as
    many groups, and as many result rows, as there are rows. *)
Theorem groups_partition_the_rows (rows : list Row) (gb : list string)
    (cols : list ColumnSpec) :
  Permutation rows (groupedRows (groupRows rows gb))
  /\ Forall (fun g => snd g <> []) (groupRows rows gb)
  /\ length (groupRows rows gb) <= length rows
  /\ length (groupBy rows (Some gb) cols) <= length rows.
Proof.
  destruct (groupRows_partition rows gb) as [Hperm Hne].
  repeat split; try assumption.
  - apply groupRows_length.
  - apply groupBy_length.
Qed.






End GroupShape.

(* ===================================================================== *)
(** * The engine: the calls that throw *)
(* ===================================================================== *)

Module ExceptionFacts.
Import Lexer Parser Engine Notions Terms ResultFacts.
Import Exceptions.
#[local] Open Scope string_scope.

(** ** The two loops *)

Section Loops.
Context {S A B : Type}.

(** A loop that returns has gone through its items as the loop without
    exceptions does. *)
Lemma forEach_returns (f : S -> A -> result S) (g : S -> A -> S)
    (items : list A) (state state' : S) :
  (forall s a s', f s a = Ok s' -> g s a = s') ->
  forEach f items state = Ok state' -> fold_left g items state = state'.
Proof.
  intros Hf. revert state.
  induction items as [|a items IH]; intros state; cbn [forEach fold_left].
  - intros E. injection E as <-. reflexivity.
  - intros E. apply bind_Ok in E as (s1 & H1 & E).
    rewrite (Hf _ _ _ H1). apply IH. exact E.
Qed.

Lemma mapM_returns (f : A -> result B) (g : A -> B) (items : list A) (bs : list B) :
  (forall a b, f a = Ok b -> g a = b) ->
  mapM f items = Ok bs -> List.map g items = bs.
Proof.
  intros Hf. revert bs.
  induction items as [|a items IH]; intros bs; cbn [mapM List.map].
  - intros E. injection E as <-. reflexivity.
  - intros E. apply bind_Ok in E as (b & Hb & E).
    apply bind_Ok in E as (bs' & Hbs & E). injection E as <-.
    rewrite (Hf _ _ Hb), (IH _ Hbs). reflexivity.
Qed.

(** What a loop throws is thrown in one of its turns. *)
Lemma forEach_throws (P : exn -> Prop) (f : S -> A -> result S)
    (items : list A) (state : S) (e : exn) :
  (forall s a e', In a items -> f s a = Throw e' -> P e') ->
  forEach f items state = Throw e -> P e.
Proof.
  revert state. induction items as [|a items IH]; intros state Hf;
    cbn [forEach]; [discriminate|].
  destruct (f state a) as [s1|e1|] eqn:Ha; cbn [bind]; try discriminate.
  - apply IH. intros s b e' Hb. apply Hf. right. exact Hb.
  - intros E. injection E as <-. apply (Hf state a e1); [left; reflexivity | exact Ha].
Qed.

Lemma mapM_throws (P : exn -> Prop) (f : A -> result B) (items : list A) (e : exn) :
  (forall a e', In a items -> f a = Throw e' -> P e') ->
  mapM f items = Throw e -> P e.
Proof.
  induction items as [|a items IH]; intros Hf; cbn [mapM]; [discriminate|].
  destruct (f a) as [b|e1|] eqn:Ha; cbn [bind]; try discriminate.
  - destruct (mapM f items) as [bs|e2|] eqn:Hrest; cbn [bind]; try discriminate.
    intros E. injection E as <-. apply IH; [|reflexivity].
    intros b' e' Hb'. apply Hf. right. exact Hb'.
  - intros E. injection E as <-. apply (Hf a e1); [left; reflexivity | exact Ha].
Qed.

(** Turns that return as [g] does or throw [e] make a loop that returns
    as the loop of [g] does or throws [e]. *)
Lemma forEach_cases (f : S -> A -> result S) (g : S -> A -> S) (e : exn)
    (items : list A) (state : S) :
  (forall s a, f s a = Ok (g s a) \/ f s a = Throw e) ->
  forEach f items state = Ok (fold_left g items state)
  \/ forEach f items state = Throw e.
Proof.
  intros Hf. revert state.
  induction items as [|a items IH]; intros state; cbn [forEach fold_left];
    [left; reflexivity|].
  destruct (Hf state a) as [-> | ->]; cbn [bind]; [apply IH | right; reflexivity].
Qed.

Lemma mapM_cases (f : A -> result B) (g : A -> B) (e : exn) (items : list A) :
  (forall a, f a = Ok (g a) \/ f a = Throw e) ->
  mapM f items = Ok (List.map g items) \/ mapM f items = Throw e.
Proof.
  intros Hf. induction items as [|a items IH]; cbn [mapM List.map];
    [left; reflexivity|].
  destruct (Hf a) as [-> | ->]; cbn [bind]; [|right; reflexivity].
  destruct IH as [-> | ->]; [left | right]; reflexivity.
Qed.

(** A turn that throws [e] whatever the state makes the loop throw [e],
    when every other turn returns or throws [e] too. *)
Lemma forEach_raises (f : S -> A -> result S) (e : exn) (x : A)
    (items : list A) (state : S) :
  In x items ->
  (forall s, f s x = Throw e) ->
  (forall s a, (exists s', f s a = Ok s') \/ f s a = Throw e) ->
  forEach f items state = Throw e.
Proof.
  intros Hin Hx Hf. revert state.
  induction items as [|a items IH]; intros state; [contradiction Hin|].
  cbn [forEach]. destruct (Hf state a) as [[s' Ha] | Ha]; rewrite Ha; cbn [bind].
  - destruct Hin as [-> | Hin]; [rewrite Hx in Ha; discriminate Ha|].
    apply IH. exact Hin.
  - reflexivity.
Qed.

Lemma mapM_raises (f : A -> result B) (e : exn) (x : A) (items : list A) :
  In x items ->
  f x = Throw e ->
  (forall a, (exists b, f a = Ok b) \/ f a = Throw e) ->
  mapM f items = Throw e.
Proof.
  intros Hin Hx Hf.
  induction items as [|a items IH]; [contradiction Hin|].
  cbn [mapM]. destruct (Hf a) as [[b Ha] | Ha]; rewrite Ha; cbn [bind].
  - destruct Hin as [-> | Hin]; [rewrite Hx in Ha; discriminate Ha|].
    rewrite (IH Hin). reflexivity.
  - reflexivity.
Qed.

End Loops.

Lemma nonNull_repeat (row : Row) (column : string) (n : nat) :
  JS.isNullish (getValue row column) = false ->
  nonNull (repeat row n) column = repeat (getValue row column) n.
Proof.
  intros Hv. unfold nonNull. induction n as [|n IH]; [reflexivity|].
  cbn [repeat List.map List.filter]. rewrite Hv. cbn [negb]. rewrite IH. reflexivity.
Qed.

Lemma joinStage_nil (ast : Query) (rightData : option (list Row)) :
  joinStage ast rightData [] = [].
Proof.
  unfold joinStage. destruct (join ast) as [spec|], rightData as [rightRows|];
    try reflexivity.
  unfold performJoin. destruct (_ || _); reflexivity.
Qed.

Section WithHost.
Context `{Host}.

(** ** The spread call *)

Lemma computeAggregate_within (aggType column : string) (rows : list Row) :
  length (nonNull rows column) <= argumentLimit ->
  Exceptions.computeAggregate aggType column rows
  = Ok (Engine.computeAggregate aggType column rows).
Proof.
  intros Hlen. unfold Exceptions.computeAggregate, Engine.computeAggregate, spread.
  rewrite !length_map.
  destruct (Nat.leb_spec (length (nonNull rows column)) argumentLimit) as [_|Hgt];
    [|lia].
  destruct (String.eqb aggType "MIN") eqn:Hmin.
  - apply String.eqb_eq in Hmin. subst aggType.
    destruct (Nat.ltb 0 (length (nonNull rows column))); reflexivity.
  - destruct (String.eqb aggType "MAX") eqn:Hmax; [|reflexivity].
    apply String.eqb_eq in Hmax. subst aggType.
    destruct (Nat.ltb 0 (length (nonNull rows column))); reflexivity.
Qed.

Lemma computeAggregate_raises (aggType column : string) (rows : list Row) :
  aggType = "MIN" \/ aggType = "MAX" ->
  argumentLimit < length (nonNull rows column) ->
  Exceptions.computeAggregate aggType column rows = Throw tooManyArguments.
Proof.
  intros Ht Hlen. unfold Exceptions.computeAggregate, spread.
  rewrite !length_map.
  destruct (Nat.leb_spec (length (nonNull rows column)) argumentLimit) as [Hle|_];
    [lia|].
  destruct (Nat.ltb_spec 0 (length (nonNull rows column))) as [_|Hz]; [|lia].
  destruct Ht as [-> | ->]; reflexivity.
Qed.

(** The call is made or it throws: there is no third outcome. *)
Lemma computeAggregate_cases (aggType column : string) (rows : list Row) :
  Exceptions.computeAggregate aggType column rows
  = Ok (Engine.computeAggregate aggType column rows)
  \/ Exceptions.computeAggregate aggType column rows = Throw tooManyArguments.
Proof.
  destruct (Nat.le_gt_cases (length (nonNull rows column)) argumentLimit)
    as [Hle|Hgt].
  - left. apply computeAggregate_within. exact Hle.
  - destruct (String.eqb aggType "MIN") eqn:Hmin.
    { right. apply computeAggregate_raises; [|exact Hgt].
      left. apply String.eqb_eq. exact Hmin. }
    destruct (String.eqb aggType "MAX") eqn:Hmax.
    { right. apply computeAggregate_raises; [|exact Hgt].
      right. apply String.eqb_eq. exact Hmax. }
    left. unfold Exceptions.computeAggregate. rewrite Hmin, Hmax. reflexivity.
Qed.

Lemma assignAggregate_cases (rows : list Row) (aggType column : string)
    (alias : option string) (res : Row) :
  Exceptions.assignAggregate rows aggType column alias res
  = Ok (Engine.assignAggregate rows aggType column alias res)
  \/ Exceptions.assignAggregate rows aggType column alias res
     = Throw tooManyArguments.
Proof.
  unfold Exceptions.assignAggregate, Engine.assignAggregate.
  destruct (computeAggregate_cases aggType column rows) as [-> | ->];
    [left | right]; reflexivity.
Qed.

Lemma collapseColumn_cases (rows : list Row) (res : Row) (col : ColumnSpec) :
  Exceptions.collapseColumn rows res col = Ok (Engine.collapseColumn rows res col)
  \/ Exceptions.collapseColumn rows res col = Throw tooManyArguments.
Proof.
  destruct col as [name | column alias | [|c t] column alias];
    try (left; reflexivity).
  apply assignAggregate_cases.
Qed.

Lemma projectColumn_cases (row res : Row) (col : ColumnSpec) :
  (namesColumn col = true
   /\ Exceptions.projectColumn row res col = Ok (Engine.projectColumn row res col))
  \/ (namesColumn col = false
      /\ Exceptions.projectColumn row res col = Throw notAFunction).
Proof.
  destruct col as [name | [|a column] alias | [|c t] [|a column] alias];
    first [left; split; reflexivity | right; split; reflexivity].
Qed.

Lemma aggregate_cases (group : list Row) (gb : list string) (cols : list ColumnSpec) :
  Exceptions.aggregate group gb cols = Ok (Engine.aggregate group gb cols)
  \/ Exceptions.aggregate group gb cols = Throw tooManyArguments.
Proof.
  unfold Exceptions.aggregate, Engine.aggregate.
  apply forEach_cases. intros s [name | column alias | [|c t] column alias];
    try (left; reflexivity).
  apply assignAggregate_cases.
Qed.

Lemma selectColumns_outcomes (rows : list Row) (cols : list ColumnSpec)
    (hasGroupBy : bool) :
  Exceptions.selectColumns rows cols hasGroupBy
  = if selectsAll cols then Ok rows
    else if existsb isAggregation cols && negb hasGroupBy
         then let* res := forEach (Exceptions.collapseColumn rows) cols ∅ in
              Ok [res]
         else mapM (fun row => forEach (Exceptions.projectColumn row) cols ∅) rows.
Proof.
  destruct cols as [|col cols]; [reflexivity|].
  destruct col as [name | column alias | t column alias];
    try (destruct cols; reflexivity).
  destruct name as [|a name]; [destruct cols; reflexivity|].
  destruct a as [[] [] [] [] [] [] [] []];
    destruct name; destruct cols; reflexivity.
Qed.

Lemma collapse_cases (rows : list Row) (cols : list ColumnSpec) :
  forEach (Exceptions.collapseColumn rows) cols ∅
  = Ok (fold_left (Engine.collapseColumn rows) cols ∅)
  \/ forEach (Exceptions.collapseColumn rows) cols ∅ = Throw tooManyArguments.
Proof. apply forEach_cases. intros s a. apply collapseColumn_cases. Qed.

(** ** What returns is what [Engine] gives *)

Lemma selectColumns_returns (rows : list Row) (cols : list ColumnSpec)
    (hasGroupBy : bool) (out : list Row) :
  Exceptions.selectColumns rows cols hasGroupBy = Ok out ->
  Engine.selectColumns rows cols hasGroupBy = out.
Proof.
  rewrite selectColumns_outcomes, ProjectionFacts.selectColumns_cases.
  destruct (selectsAll cols); [intros E; injection E as <-; reflexivity|].
  destruct (existsb isAggregation cols && negb hasGroupBy).
  - destruct (collapse_cases rows cols) as [-> | ->]; cbn [bind];
      [|discriminate].
    intros E. injection E as <-. reflexivity.
  - apply mapM_returns. intros row res.
    apply forEach_returns. intros s a s' Hs.
    destruct (projectColumn_cases row s a) as [[_ Hp] | [_ Hp]];
      rewrite Hp in Hs; [injection Hs as <-; reflexivity | discriminate Hs].
Qed.

Lemma groupBy_cases (rows : list Row) (c : string) (cs : list string)
    (cols : list ColumnSpec) :
  Exceptions.groupBy rows (Some (c :: cs)) cols
  = Ok (Engine.groupBy rows (Some (c :: cs)) cols)
  \/ Exceptions.groupBy rows (Some (c :: cs)) cols = Throw tooManyArguments.
Proof.
  unfold Exceptions.groupBy, Engine.groupBy.
  apply mapM_cases. intros [k group]. apply aggregate_cases.
Qed.

Lemma groupStage_returns (ast : Query) (rows out : list Row) :
  Exceptions.groupStage ast rows = Ok out -> Engine.groupStage ast rows = out.
Proof.
  unfold Exceptions.groupStage, Engine.groupStage.
  destruct (Parser.groupBy ast) as [[|c cs]|]; try apply selectColumns_returns.
  destruct (groupBy_cases rows c cs (columns ast)) as [-> | ->];
    [|discriminate].
  intros E. injection E as <-. reflexivity.
Qed.

(** When [executeQuery] returns, it returns the rows that [Engine] gives. *)
Lemma executeQuery_returns (ast : Query) (data : list Row)
    (rightData : option (list Row)) (out : list Row) :
  Exceptions.executeQuery ast data rightData = Ok out ->
  Engine.executeQuery ast data rightData = Ok out.
Proof.
  unfold Exceptions.executeQuery, Engine.executeQuery.
  destruct data as [|row data]; [exact (fun E => E)|].
  intros E. apply bind_Ok in E as (rows & Hw & E).
  apply bind_Ok in E as (grouped & Hg & E). injection E as <-.
  rewrite Hw. cbn [bind]. rewrite (groupStage_returns _ _ _ Hg). reflexivity.
Qed.

(** ** What is thrown *)

Lemma groupStage_throws (ast : Query) (rows : list Row) (e : exn) :
  forallb namesColumn (columns ast) = true ->
  Exceptions.groupStage ast rows = Throw e -> e = tooManyArguments.
Proof.
  intros Hnames.
  assert (Hselect : Exceptions.selectColumns rows (columns ast) false = Throw e ->
                    e = tooManyArguments).
  { rewrite selectColumns_outcomes.
    destruct (selectsAll (columns ast)); [discriminate|].
    destruct (existsb isAggregation (columns ast) && negb false).
    - destruct (collapse_cases rows (columns ast)) as [-> | ->]; cbn [bind];
        [discriminate|].
      intros E. injection E as <-. reflexivity.
    - apply (mapM_throws (fun e => e = tooManyArguments)). intros row e' _.
      apply (forEach_throws (fun e => e = tooManyArguments)). intros s a e'' Ha He.
      rewrite forallb_forall in Hnames. specialize (Hnames a Ha).
      destruct (projectColumn_cases row s a) as [[_ Hp] | [Hn _]];
        [rewrite Hp in He; discriminate He | congruence]. }
  unfold Exceptions.groupStage.
  destruct (Parser.groupBy ast) as [[|c cs]|]; try exact Hselect.
  destruct (groupBy_cases rows c cs (columns ast)) as [-> | ->];
    [discriminate|].
  intros E. injection E as <-. reflexivity.
Qed.

(** On a tree without LIKE whose select list names its columns, as every
    tree of the parser is, the spread call is all that throws. *)
Lemma executeQuery_throws (ast : Query) (data : list Row)
    (rightData : option (list Row)) (e : exn) :
  (forall condition, where_ ast = Some condition -> withoutLike condition = true) ->
  forallb namesColumn (columns ast) = true ->
  Exceptions.executeQuery ast data rightData = Throw e -> e = tooManyArguments.
Proof.
  intros Hlike Hnames. unfold Exceptions.executeQuery.
  destruct data as [|row data]; [discriminate|].
  assert (Hw : exists rows, whereStage ast (joinStage ast rightData (row :: data))
                            = Ok rows).
  { unfold whereStage. destruct (where_ ast) as [condition|]; [|eauto].
    apply filterM_total. intros r.
    apply FilterFacts.evaluateCondition_withoutLike. apply Hlike. reflexivity. }
  destruct Hw as [rows ->]. cbn [bind].
  destruct (Exceptions.groupStage ast rows) as [grouped|e'|] eqn:Hg; cbn [bind];
    try discriminate.
  intros E. injection E as <-. exact (groupStage_throws _ _ _ Hnames Hg).
Qed.

(** ** The query that raises *)

Lemma assignAggregate_raises (rows : list Row) (aggType column : string)
    (alias : option string) (res : Row) :
  aggType = "MIN" \/ aggType = "MAX" ->
  argumentLimit < length (nonNull rows column) ->
  Exceptions.assignAggregate rows aggType column alias res = Throw tooManyArguments.
Proof.
  intros Ht Hlen. unfold Exceptions.assignAggregate.
  rewrite (computeAggregate_raises _ _ _ Ht Hlen). reflexivity.
Qed.

Lemma selectColumns_raises (rows : list Row) (cols : list ColumnSpec)
    (aggType column : string) (alias : option string) :
  In (ColAgg aggType column alias) cols ->
  aggType = "MIN" \/ aggType = "MAX" ->
  argumentLimit < length (nonNull rows column) ->
  Exceptions.selectColumns rows cols false = Throw tooManyArguments.
Proof.
  intros Hin Ht Hlen. rewrite selectColumns_outcomes.
  assert (Hagg : existsb isAggregation cols = true).
  { apply existsb_exists. exists (ColAgg aggType column alias).
    split; [exact Hin|]. destruct Ht as [-> | ->]; reflexivity. }
  rewrite (AggregateFacts.isAggregation_not_all _ Hagg), Hagg. cbn [negb andb].
  rewrite (forEach_raises _ tooManyArguments (ColAgg aggType column alias));
    [reflexivity | exact Hin | | ].
  - intros s.
    assert (Hc : Exceptions.collapseColumn rows s (ColAgg aggType column alias)
                 = Exceptions.assignAggregate rows aggType column alias s)
      by (destruct Ht as [-> | ->]; reflexivity).
    rewrite Hc. apply assignAggregate_raises; assumption.
  - intros s a. destruct (collapseColumn_cases rows s a) as [Hc | Hc]; eauto.
Qed.

Lemma groupBy_raises (rows : list Row) (c : string) (cs : list string)
    (cols : list ColumnSpec) (aggType column : string) (alias : option string)
    (key : string) (group : list Row) :
  In (ColAgg aggType column alias) cols ->
  aggType = "MIN" \/ aggType = "MAX" ->
  In (key, group) (groupRows rows (c :: cs)) ->
  argumentLimit < length (nonNull group column) ->
  Exceptions.groupBy rows (Some (c :: cs)) cols = Throw tooManyArguments.
Proof.
  intros Hin Ht Hgroup Hlen. unfold Exceptions.groupBy.
  apply (mapM_raises _ _ (key, group)); [exact Hgroup | |].
  - unfold Exceptions.aggregate.
    apply (forEach_raises _ _ (ColAgg aggType column alias)); [exact Hin | |].
    + intros s. destruct Ht as [-> | ->]; apply assignAggregate_raises; auto.
    + intros s [name | column' alias' | [|c' t] column' alias']; eauto.
      destruct (assignAggregate_cases group (String c' t) column' alias' s)
        as [Hc | Hc]; eauto.
  - intros [k g]. destruct (aggregate_cases g (c :: cs) cols) as [Ha | Ha]; eauto.
Qed.

(** C4. [executeQuery] raises on trees that the parser produces. MIN and
    MAX hand the non-null cells of their column to [Math.min] and
    [Math.max] as the arguments of one call; when there are more of them
    than the engine takes arguments, the call throws a RangeError, which
    nothing in [executeQuery] catches. This is so for the rows that pass
    WHERE in a query without GROUP BY, and for the rows of any one group
    in a query with it. [SELECT MIN(v) AS lo] is such a query: on data
    with more non-null cells [v] than the engine takes arguments it
    raises, and on data with at least one such cell and no more of them
    than that it returns the one row that holds the minimum. *)
Theorem spread_of_a_long_column_raises :
  (forall (ast : Query) (data rows : list Row) (rightData : option (list Row))
          (aggType column : string) (alias : option string),
     In (ColAgg aggType column alias) (columns ast) ->
     aggType = "MIN" \/ aggType = "MAX" ->
     whereStage ast (joinStage ast rightData data) = Ok rows ->
     Parser.groupBy ast = None ->
     argumentLimit < length (nonNull rows column) ->
     Exceptions.executeQuery ast data rightData = Throw tooManyArguments)
  /\ (forall (ast : Query) (data rows : list Row) (rightData : option (list Row))
             (aggType column : string) (alias : option string)
             (c : string) (cs : list string) (key : string) (group : list Row),
        In (ColAgg aggType column alias) (columns ast) ->
        aggType = "MIN" \/ aggType = "MAX" ->
        whereStage ast (joinStage ast rightData data) = Ok rows ->
        Parser.groupBy ast = Some (c :: cs) ->
        In (key, group) (groupRows rows (c :: cs)) ->
        argumentLimit < length (nonNull group column) ->
        Exceptions.executeQuery ast data rightData = Throw tooManyArguments)
  /\ parseQuery 30 "SELECT MIN(v) AS lo" = Ok selectMin
  /\ (forall data : list Row,
        argumentLimit < length (nonNull data "v") ->
        Exceptions.executeQuery selectMin data None = Throw tooManyArguments)
  /\ (forall data : list Row,
        0 < length (nonNull data "v") <= argumentLimit ->
        Exceptions.executeQuery selectMin data None
        = Ok [{["lo" := JS.VNum
                          (JS.mathMin (List.map numericOrRaw (nonNull data "v")))]}]).
Proof.
  assert (Hplain :
    forall (ast : Query) (data rows : list Row) (rightData : option (list Row))
           (aggType column : string) (alias : option string),
      In (ColAgg aggType column alias) (columns ast) ->
      aggType = "MIN" \/ aggType = "MAX" ->
      whereStage ast (joinStage ast rightData data) = Ok rows ->
      Parser.groupBy ast = None ->
      argumentLimit < length (nonNull rows column) ->
      Exceptions.executeQuery ast data rightData = Throw tooManyArguments).
  { intros ast data rows rightData aggType column alias Hin Ht Hw Hgb Hlen.
    unfold Exceptions.executeQuery. destruct data as [|row data].
    - rewrite joinStage_nil, JoinFacts.whereStage_nil in Hw.
      injection Hw as <-. cbn in Hlen. lia.
    - rewrite Hw. cbn [bind]. unfold Exceptions.groupStage. rewrite Hgb.
      rewrite (selectColumns_raises _ _ _ _ _ Hin Ht Hlen). reflexivity. }
  split; [exact Hplain|].
  split.
  { intros ast data rows rightData aggType column alias c cs key group
           Hin Ht Hw Hgb Hgroup Hlen.
    unfold Exceptions.executeQuery. destruct data as [|row data].
    - rewrite joinStage_nil, JoinFacts.whereStage_nil in Hw.
      injection Hw as <-. contradiction Hgroup.
    - rewrite Hw. cbn [bind]. unfold Exceptions.groupStage. rewrite Hgb.
      rewrite (groupBy_raises _ _ _ _ _ _ _ _ _ Hin Ht Hgroup Hlen). reflexivity. }
  split; [vm_compute; reflexivity|].
  split.
  { intros data Hlen.
    apply (Hplain selectMin data data None "MIN" "v" (Some "lo"));
      first [left; reflexivity | reflexivity | exact Hlen]. }
  intros data [Hpos Hle]. unfold Exceptions.executeQuery.
  destruct data as [|row data]; [cbn in Hpos; lia|].
  change (joinStage selectMin None (row :: data)) with (row :: data).
  change (whereStage selectMin (row :: data)) with (Ok (row :: data) : result (list Row)).
  cbn [bind]. unfold Exceptions.groupStage. cbn [Parser.groupBy selectMin columns].
  rewrite selectColumns_outcomes. cbn [selectsAll existsb isAggregation forEach].
  change (JS.includesStr aggregateNames "MIN") with true. cbn [orb negb andb].
  cbn [Exceptions.collapseColumn]. unfold Exceptions.assignAggregate.
  rewrite (computeAggregate_within _ _ _ Hle). cbn [bind].
  unfold Engine.computeAggregate.
  change (String.eqb "MIN" "COUNT") with false.
  change (String.eqb "MIN" "SUM") with false.
  change (String.eqb "MIN" "AVG") with false.
  change (String.eqb "MIN" "MIN") with true. cbn iota.
  destruct (Nat.ltb_spec 0 (length (nonNull (row :: data) "v"))) as [_|Hz]; [|lia].
  reflexivity.
Qed.

End WithHost.

Lemma spread_of_a_long_column_raises_witness :
  Exceptions.executeQuery (H := Reference.host) selectMin
    (repeat {["v" := num 7]} (150 * 1000)) None
  = Throw tooManyArguments.
Proof.
  apply (proj1 (proj2 (proj2 (proj2
           (spread_of_a_long_column_raises (H := Reference.host)))))).
  rewrite nonNull_repeat by (vm_compute; reflexivity).
  rewrite repeat_length. change (125 * 1000 < 150 * 1000). lia.
Defined.

End ExceptionFacts.

(* ===================================================================== *)
(** * The pipeline: sizes and exceptions *)
(* ===================================================================== *)

Module PipelineFacts.
Import Lexer Parser Engine App Notions Terms ResultFacts.
#[local] Open Scope string_scope.

Lemma filterM_length {A : Type} (f : A -> result bool) (l r : list A) :
  filterM f l = Ok r -> length r <= length l.
Proof.
  revert r. induction l as [|x l IH]; intros r; cbn [filterM].
  - intros Hr. injection Hr as <-. lia.
  - intros Hr. apply bind_Ok in Hr as (b & _ & Hr).
    apply bind_Ok in Hr as (r' & Hr' & Hr). injection Hr as <-.
    apply IH in Hr'. destruct b; cbn [length]; lia.
Qed.

Lemma slice0_length {A : Type} (arr : list A) (n : JS.number) :
  length (JS.slice0 arr n) <= length arr.
Proof.
  unfold JS.slice0. destruct n as [|[]|q]; cbn [length]; try lia.
  rewrite length_firstn. lia.
Qed.

Section WithHost.
Context `{Host}.

Lemma sortRows_length (rows : list Row) (orderBy : option (list OrderSpec)) :
  length (sortRows rows orderBy) = length rows.
Proof.
  unfold sortRows. destruct orderBy as [[|o os]|]; try reflexivity.
  symmetry. apply Permutation_length, OrderFacts.sort_Permutation.
Qed.

Lemma groupStage_length (ast : Query) (rows : list Row) :
  length (groupStage ast rows) <= Nat.max 1 (length rows).
Proof.
  unfold groupStage. destruct (Parser.groupBy ast) as [[|c cs]|].
  - rewrite ProjectionFacts.selectColumns_cases.
    destruct (selectsAll (columns ast)); [lia|].
    destruct (existsb isAggregation (columns ast) && negb false);
      [cbn [length]; lia | rewrite length_map; lia].
  - pose proof (GroupShape.groupBy_length rows (c :: cs) (columns ast)). lia.
  - rewrite ProjectionFacts.selectColumns_cases.
    destruct (selectsAll (columns ast)); [lia|].
    destruct (existsb isAggregation (columns ast) && negb false);
      [cbn [length]; lia | rewrite length_map; lia].
Qed.

(** X18. Without a join (no JOIN clause, or no second sheet chosen) a
    query returns at most as many rows as the data has: WHERE and LIMIT
    only drop rows, the projection and the sort keep their number, GROUP
    BY gives at most a row per row, and the one row of an aggregate
    without GROUP BY stands against data that is not empty. *)
Theorem result_is_no_longer_than_the_data (ast : Query) (data rows : list Row)
    (rightData : option (list Row)) :
  join ast = None \/ rightData = None ->
  executeQuery ast data rightData = Ok rows ->
  length rows <= length data.
Proof.
  intros Hjoin. unfold executeQuery. destruct data as [|row data].
  - intros Hr. injection Hr as <-. lia.
  - assert (Hj : joinStage ast rightData (row :: data) = row :: data).
    { unfold joinStage. destruct Hjoin as [-> | ->]; [reflexivity|].
      destruct (join ast); reflexivity. }
    rewrite Hj. intros Hr. apply bind_Ok in Hr as (filtered & Hw & Hr).
    injection Hr as <-.
    assert (Hf : length filtered <= length (row :: data)).
    { unfold whereStage in Hw. destruct (where_ ast).
      - apply filterM_length in Hw. exact Hw.
      - injection Hw as <-. lia. }
    pose proof (groupStage_length ast filtered) as Hg.
    assert (Ho : length (orderStage ast (groupStage ast filtered))
                 = length (groupStage ast filtered)).
    { unfold orderStage. destruct (orderBy ast); [apply sortRows_length | reflexivity]. }
    assert (Hl : length (limitStage ast (orderStage ast (groupStage ast filtered)))
                 <= length (orderStage ast (groupStage ast filtered))).
    { unfold limitStage. destruct (limit ast) as [n|]; [|lia].
      destruct (JS.truthy (JS.VNum n)); [apply slice0_length | lia]. }
    cbn [length] in *. lia.
Qed.

(** X19. A query typed as text reaches neither the SyntaxError that
    [new RegExp] throws on a malformed LIKE pattern nor the TypeError of a
    select item without a column: the parser builds no LIKE comparison and
    no such item. So what [executeSQLQuery] catches from [parseQuery] and
    [executeQuery] is never one of the two. A text that is blank is not
    parsed at all: the function returns before it calls either. *)
Theorem text_reaches_no_pattern_or_type_error (fuel : nat) (queryInput : string)
    (rows : list Row) (rightData : option (list Row)) :
  (allChars JS.isSpace queryInput = true ->
   executeSQLQuery fuel queryInput rows rightData = None)
  /\ (forall e : exn,
        executeSQLQuery fuel queryInput rows rightData = Some (Throw e) ->
        (forall msg, e <> SyntaxError msg) /\ (forall msg, e <> TypeError msg)).
Proof.
  unfold executeSQLQuery. split.
  - intros Hblank. unfold JS.trim.
    rewrite (SyntaxFacts.trimStart_spaces _ Hblank). reflexivity.
  - intros e. destruct (JS.trim queryInput) as [|c query] eqn:Htrim; [discriminate|].
    intros Hr. injection Hr as Hr.
    destruct (parseQuery fuel (String c query)) as [ast| e' |] eqn:Hq;
      cbn [bind] in Hr; try discriminate Hr.
    + apply SyntaxFacts.parseQuery_Ok in Hq as (tokens & Ht & Hp).
      apply TokenFacts.tokenizeLoop_wellLexed in Ht; [|reflexivity].
      apply ExceptionFacts.executeQuery_throws in Hr.
      * subst e. split; intros msg; discriminate.
      * intros condition Hc. apply SyntaxFacts.operatorsLexed_withoutLike.
        exact (SyntaxFacts.parse_where_operators tokens ast condition Ht Hp Hc).
      * exact (SyntaxFacts.parse_columns_names tokens ast Ht Hp).
    + injection Hr as <-. unfold parseQuery in Hq.
      destruct (let* tokens := tokenize fuel (Lexer.new (String c query)) in
                parse tokens)
        as [a|e0|]; try discriminate Hq.
      injection Hq as <-. split; intros msg; discriminate.
Qed.

End WithHost.

Lemma result_is_no_longer_than_the_data_witness :
  length ([{["env" := str "prod"; "v" := str "1"]};
           {["env" := str "prod"; "v" := str "3"]}] : list Row)
  <= length exampleRows.
Proof.
  exact (result_is_no_longer_than_the_data (H := Reference.host)
           (mkQuery [ColName "*"] None
              (Some (Compare "=" "env" (Scalar (str "prod")))) None None None None)
           exampleRows _ None (or_introl eq_refl) eq_refl).
Defined.

Lemma text_reaches_no_pattern_or_type_error_witness :
  executeSQLQuery (H := Reference.host) 100 "   " exampleRows None = None
  /\ (forall msg,
        Error "Parse error: Expected OPERATOR, got KEYWORD" <> SyntaxError msg)
  /\ (forall msg,
        Error "Parse error: Expected OPERATOR, got KEYWORD" <> TypeError msg).
Proof.
  split.
  - exact (proj1 (text_reaches_no_pattern_or_type_error (H := Reference.host)
                    100 "   " exampleRows None) eq_refl).
  - exact (proj2 (text_reaches_no_pattern_or_type_error (H := Reference.host)
                    100 "SELECT host WHERE host LIKE 'prod'" exampleRows None)
             _ eq_refl).
Defined.

End PipelineFacts.

(* ===================================================================== *)
(** * The callers: the table and the exported file *)
(* ===================================================================== *)

Module AppFacts.
Import Lexer Parser Engine App Notions Terms TextFacts.
#[local] Open Scope string_scope.

(** X20. The text [escapeHtml] returns holds no angle bracket, so the
    text of a cell opens no tag in the table of results; and a text
    without ampersand and angle brackets is returned as it is. *)
Theorem escapeHtml_leaves_no_angle_bracket (str : string) :
  JS.includesChar "<" (escapeHtml str) = false
  /\ JS.includesChar ">" (escapeHtml str) = false
  /\ (plainText str = true -> escapeHtml str = str).
Proof.
  unfold escapeHtml. split; [|split].
  - apply replaceAll_keeps_out; [reflexivity|].
    apply replaceAll_removes. reflexivity.
  - apply replaceAll_removes. reflexivity.
  - unfold plainText. intros Hp. apply negb_true_iff in Hp.
    apply orb_false_iff in Hp as [Hp Hgt]. apply orb_false_iff in Hp as [Hamp Hlt].
    rewrite (replaceAll_absent "&" _ _ Hamp), (replaceAll_absent "<" _ _ Hlt).
    apply replaceAll_absent. exact Hgt.
Qed.

Lemma escapeHtml_leaves_no_angle_bracket_witness :
  escapeHtml "10.0.0.1" = "10.0.0.1".
Proof.
  exact (proj2 (proj2 (escapeHtml_leaves_no_angle_bracket "10.0.0.1")) eq_refl).
Defined.

Lemma readQuoted_escaped (s rest : string) :
  fieldEnd rest ->
  readQuoted
    (JS.replaceAll doubleQuote (String doubleQuote (String doubleQuote "")) s
     ++ String doubleQuote rest)
  = (s, rest).
Proof.
  intros Hrest. induction s as [|c s IH]; cbn [JS.replaceAll].
  - rewrite append_empty. cbn [readQuoted]. rewrite Ascii.eqb_refl.
    destruct Hrest as [-> | [rest' ->]]; reflexivity.
  - destruct (Ascii.eqb doubleQuote c) eqn:Hc.
    + apply Ascii.eqb_eq in Hc. subst c.
      rewrite !append_cons, append_empty.
      cbn [readQuoted]. rewrite Ascii.eqb_refl, IH. reflexivity.
    + rewrite append_cons. cbn [readQuoted].
      rewrite Ascii.eqb_sym, Hc, IH. reflexivity.
Qed.

Lemma readUnquoted_plain (s rest : string) :
  fieldEnd rest ->
  JS.includesChar ";" s = false ->
  readUnquoted (s ++ rest) = (s, rest).
Proof.
  intros Hrest. induction s as [|c s IH]; intros Hs.
  - rewrite append_empty.
    destruct Hrest as [-> | [rest' ->]]; reflexivity.
  - cbn [JS.includesChar] in Hs. apply orb_false_iff in Hs as [Hc Hs].
    rewrite append_cons. cbn [readUnquoted].
    rewrite Ascii.eqb_sym, Hc, (IH Hs). reflexivity.
Qed.

Lemma readField_csvField (field rest : string) :
  fieldEnd rest -> readField (csvField field ++ rest) = (field, rest).
Proof.
  intros Hrest. unfold csvField.
  destruct (JS.includesChar ";" field || JS.includesChar doubleQuote field) eqn:Hq.
  - rewrite append_cons. cbn [readField]. rewrite Ascii.eqb_refl.
    rewrite append_assoc, append_cons, append_empty.
    apply readQuoted_escaped. exact Hrest.
  - apply orb_false_iff in Hq as [Hsemi Hquote].
    destruct field as [|c field].
    + rewrite append_empty.
      destruct Hrest as [-> | [rest' ->]]; reflexivity.
    + rewrite append_cons. cbn [readField].
      cbn [JS.includesChar] in Hquote. apply orb_false_iff in Hquote as [Hc _].
      rewrite Ascii.eqb_sym, Hc. rewrite <- append_cons.
      apply readUnquoted_plain; assumption.
Qed.

Lemma fields_read_back (fields : list string) :
  fields <> [] ->
  readFields (length fields) (JS.join ";" (List.map csvField fields)) = fields.
Proof.
  induction fields as [|field fields IH]; [contradiction|]. intros _.
  destruct fields as [|field' fields].
  - cbn [List.map JS.join length readFields].
    rewrite <- (append_empty_r (csvField field)).
    rewrite (readField_csvField field "" (or_introl eq_refl)). reflexivity.
  - change (JS.join ";" (List.map csvField (field :: field' :: fields)))
      with (csvField field
            ++ String ";" (JS.join ";" (List.map csvField (field' :: fields))))%string.
    change (length (field :: field' :: fields)) with (S (length (field' :: fields))).
    cbn [readFields].
    rewrite (readField_csvField field _ (or_intror (ex_intro _ _ eq_refl))).
    rewrite IH by discriminate. reflexivity.
Qed.

(** X21. The fields that [exportCsv] writes for a row can be read back:
    splitting the line at the semicolons outside quotes, and reading a
    quoted field with its doubled quotes as single ones, gives the texts
    of the row's cells under the columns, one per column and in their
    order, whatever semicolons and quotes the cells hold; a null or
    missing cell is the empty text. *)
Theorem csv_record_reads_back (columns : list string) (row : Row) :
  columns <> [] ->
  readFields (length columns) (csvRecord columns row)
  = List.map (fun col => cellText (prop row col)) columns.
Proof.
  intros Hcolumns. unfold csvRecord.
  rewrite <- (List.map_map (fun col => cellText (prop row col)) csvField).
  rewrite <- (length_map (fun col => cellText (prop row col)) columns).
  apply fields_read_back. destruct columns; [contradiction | discriminate].
Qed.

Lemma csv_record_reads_back_witness :
  readFields 2
    (csvRecord ["host"; "note"] {["host" := str "a;b"; "note" := str "say 'hi'"]})
  = List.map
      (fun col => cellText (prop {["host" := str "a;b"; "note" := str "say 'hi'"]} col))
      ["host"; "note"].
Proof.
  exact (csv_record_reads_back ["host"; "note"]
           {["host" := str "a;b"; "note" := str "say 'hi'"]} ltac:(discriminate)).
Defined.

End AppFacts.
